(** * A spreadsheet formula engine: cell references, parser, evaluator, table

    A shallow embedding of the domain and application layers of the
    spreadsheet (cell_reference.py, expression_ast.py, cell.py, table.py,
    expression_parser.py, expression_evaluator.py, table_service.py), the
    properties of them that the specification states, and further
    properties that the code shows.

    Conventions of the embedding.
    - A Python [str] is a [string]: one character per code point, for the
      code points below 256.  The character classes of [str.isalpha],
      [str.isupper], [str.strip], [str.upper], [str.lower] and of the [re]
      classes [\d], [\w] are the Unicode ones on that range.  The Ukrainian
      text of the messages, which no function of the program inspects, is
      kept as the bytes of its UTF-8 encoding.
    - A Python [int] is a [Z]; [str] and [int] convert without the
      interpreter's optional limit on the number of digits.
    - A Python [float] is a binary64 number, a [spec_float] with the
      operations of the IEEE-754 specification of the Standard Library.
    - A call returns a value, raises an exception or, in the model only,
      halts.  The descent of the parser and the recursion between the
      evaluator and the table's value provider are driven by fuel; the
      fuel that [parse] takes is shown to be enough, and so is the fuel of
      an evaluation pass that covers the references of the table.  The
      interpreter's limit on the depth of recursion is not modelled, and
      neither are exponentiation with a [float] operand (the C library's
      [pow], complex results) and the text of a [float]. *)

From Stdlib Require Import ZArith Bool List String Ascii Lia SpecFloat.
Import ListNotations.

Local Open Scope string_scope.
Local Open Scope Z_scope.

(** ** Exceptions and outcomes *)

Inductive exn : Type :=
| Exception (msg : string)
| ValueError (msg : string)
| IndexError (msg : string)
| OverflowError (msg : string)
| ZeroDivisionError (msg : string)
| ExpressionSyntaxError (msg : string) (position : Z)
| CircularReferenceError (msg : string)
| CellReferenceError (msg : string)
| EvaluationError (msg : string).

(** [str(e)] for an exception built from one message. *)
Definition exn_str (e : exn) : string :=
  match e with
  | Exception m | ValueError m | IndexError m | OverflowError m
  | ZeroDivisionError m | ExpressionSyntaxError m _
  | CircularReferenceError m | CellReferenceError m | EvaluationError m => m
  end.

(** [isinstance(e, DomainException)]. *)
Definition is_DomainException (e : exn) : bool :=
  match e with
  | ExpressionSyntaxError _ _ | CircularReferenceError _
  | CellReferenceError _ | EvaluationError _ => true
  | _ => false
  end.

Definition is_CircularReferenceError (e : exn) : bool :=
  match e with CircularReferenceError _ => true | _ => false end.

Definition is_CellReferenceError (e : exn) : bool :=
  match e with CellReferenceError _ => true | _ => false end.

Definition is_EvaluationError (e : exn) : bool :=
  match e with EvaluationError _ => true | _ => false end.

(** Why the model gives no answer. *)
Inductive halt : Type :=
| OutOfFuel
| FloatPower
| FloatRepr.

Inductive outcome (A : Type) : Type :=
| Ok (a : A)
| Raise (e : exn)
| Halt (h : halt).

Arguments Ok {A} a.
Arguments Raise {A} e.
Arguments Halt {A} h.

(** Stateful calls: the state an exception leaves behind stays, as the
    fields of a Python object do. *)
Definition M (S A : Type) : Type := S -> outcome A * S.

Definition ret {S A : Type} (a : A) : M S A := fun s => (Ok a, s).
Definition raise {S A : Type} (e : exn) : M S A := fun s => (Raise e, s).
Definition halts {S A : Type} (h : halt) : M S A := fun s => (Halt h, s).
Definition lift {S A : Type} (o : outcome A) : M S A := fun s => (o, s).

Definition bind {S A B : Type} (m : M S A) (k : A -> M S B) : M S B :=
  fun s =>
    match m s with
    | (Ok a, s') => k a s'
    | (Raise e, s') => (Raise e, s')
    | (Halt h, s') => (Halt h, s')
    end.

(** [try: m except Exception as e: handler(e)]. *)
Definition try_except {S A : Type} (m : M S A) (handler : exn -> M S A) : M S A :=
  fun s =>
    match m s with
    | (Raise e, s') => handler e s'
    | r => r
    end.

(** [try: m finally: final]. *)
Definition try_finally {S A : Type} (m : M S A) (final : M S unit) : M S A :=
  fun s =>
    let '(r, s') := m s in
    match final s' with
    | (Ok _, s'') => (r, s'')
    | (Raise e, s'') => (Raise e, s'')
    | (Halt h, s'') => (Halt h, s'')
    end.

Declare Scope monad_scope.
Delimit Scope monad_scope with monad.
Notation "x <- m ;; k" := (bind m (fun x => k))
  (at level 61, m at next level, right associativity) : monad_scope.
Notation "m ;;; k" := (bind m (fun _ => k))
  (at level 61, right associativity) : monad_scope.
Local Open Scope monad_scope.

(** ** Python strings *)

Module PyStr.

Definition ord (c : ascii) : Z := Z.of_N (N_of_ascii c).
Definition chr (z : Z) : ascii := ascii_of_N (Z.to_N z).

Definition between (lo hi : Z) (c : ascii) : bool :=
  (lo <=? ord c) && (ord c <=? hi).

(** [Py_UNICODE_ISSPACE]: what [str.strip], [str.isspace] and [int] skip. *)
Definition isspace (c : ascii) : bool :=
  between 9 13 c || between 28 32 c || (ord c =? 133) || (ord c =? 160).

(** Unicode decimal digits (category Nd), the class [\d] of [re]. *)
Definition isdecimal (c : ascii) : bool := between 48 57 c.

(** The class [A-Z] of [re]. *)
Definition is_A_Z (c : ascii) : bool := between 65 90 c.

(** Upper-case letters: A-Z, and U+00C0-U+00DE without the sign U+00D7. *)
Definition isupper_char (c : ascii) : bool :=
  between 65 90 c || between 192 214 c || between 216 222 c.

(** Lower-case letters: a-z, the ordinal indicators U+00AA and U+00BA, the
    micro sign U+00B5, and U+00DF-U+00FF without the sign U+00F7. *)
Definition islower_char (c : ascii) : bool :=
  between 97 122 c || (ord c =? 170) || (ord c =? 181) || (ord c =? 186)
  || between 223 246 c || between 248 255 c.

(** Letters (the letter categories): on this range every letter is cased. *)
Definition isalpha_char (c : ascii) : bool :=
  isupper_char c || islower_char c.

(** Word characters of [re] ([\w]): alphanumeric or the underscore; the
    numeric characters of the range are the digits, the superscripts
    U+00B2, U+00B3, U+00B9 and the fractions U+00BC-U+00BE. *)
Definition isword (c : ascii) : bool :=
  isalpha_char c || isdecimal c || (ord c =? 95)
  || (ord c =? 178) || (ord c =? 179) || (ord c =? 185) || between 188 190 c.

Fixpoint forallb (p : ascii -> bool) (s : string) : bool :=
  match s with
  | EmptyString => true
  | String c s' => p c && forallb p s'
  end.

Fixpoint existsb (p : ascii -> bool) (s : string) : bool :=
  match s with
  | EmptyString => false
  | String c s' => p c || existsb p s'
  end.

Definition is_empty_str (s : string) : bool :=
  match s with EmptyString => true | _ => false end.

(** [s.isalpha()]: every character is a letter and there is one. *)
Definition isalpha (s : string) : bool :=
  negb (is_empty_str s) && forallb isalpha_char s.

(** [s.isupper()]: no cased character is lower case and one is upper case. *)
Definition isupper (s : string) : bool :=
  forallb (fun c => negb (islower_char c)) s && existsb isupper_char s.

Fixpoint lstrip (s : string) : string :=
  match s with
  | String c s' => if isspace c then lstrip s' else s
  | EmptyString => EmptyString
  end.

(** [rstrip s] drops the trailing white space: a character stays when it is
    no white space or something stays behind it. *)
Fixpoint rstrip (s : string) : string :=
  match s with
  | EmptyString => EmptyString
  | String c s' =>
      match rstrip s' with
      | EmptyString => if isspace c then EmptyString else String c EmptyString
      | t => String c t
      end
  end.

Definition strip (s : string) : string := rstrip (lstrip s).

(** [str.upper] on one character.  The sharp s becomes two letters.  The
    capitals of the micro sign and of U+00FF lie beyond code point 255:
    the two are left in place, being like their capitals neither [A-Z]
    nor a digit. *)
Definition upper_char (c : ascii) : string :=
  if between 97 122 c || between 224 246 c || between 248 254 c
  then String (chr (ord c - 32)) EmptyString
  else if ord c =? 223 then "SS"
  else String c EmptyString.

Fixpoint upper (s : string) : string :=
  match s with
  | EmptyString => EmptyString
  | String c s' => upper_char c ++ upper s'
  end.

Definition lower_char (c : ascii) : ascii :=
  if isupper_char c then chr (ord c + 32) else c.

Fixpoint lower (s : string) : string :=
  match s with
  | EmptyString => EmptyString
  | String c s' => String (lower_char c) (lower s')
  end.

(** Letters A-Z and decimal digits: what the text of a reference is made of. *)
Definition plain (c : ascii) : bool := is_A_Z c || isdecimal c.

(** [s.startswith(p)]. *)
Definition startswith (p s : string) : bool := String.prefix p s.

(** [sub in s]. *)
Fixpoint contains (sub s : string) : bool :=
  String.prefix sub s
  || match s with
     | EmptyString => false
     | String _ s' => contains sub s'
     end.

(** [s[1:]]. *)
Definition tail (s : string) : string :=
  match s with
  | EmptyString => EmptyString
  | String _ s' => s'
  end.

(** The longest prefix of [s] in the class [p], and what follows it. *)
Fixpoint span (p : ascii -> bool) (s : string) : string * string :=
  match s with
  | EmptyString => (EmptyString, EmptyString)
  | String c s' =>
      if p c then let '(a, b) := span p s' in (String c a, b)
      else (EmptyString, s)
  end.

End PyStr.

(** ** Python integers as text *)

Module PyInt.

Definition digit_char (d : Z) : ascii := PyStr.chr (48 + d).
Definition digit_val (c : ascii) : Z := PyStr.ord c - 48.

(** The decimal digits of [n >= 0], most significant first, before [acc]. *)
Fixpoint digits (fuel : nat) (n : Z) (acc : string) : string :=
  let acc' := String (digit_char (n mod 10)) acc in
  match fuel with
  | O => acc'
  | S fuel' => if n <? 10 then acc' else digits fuel' (n / 10) acc'
  end.

(** [str(n)]. *)
Definition str (n : Z) : string :=
  if n <? 0
  then String "-" (digits (Z.to_nat (Z.log2 (- n))) (- n) EmptyString)
  else digits (Z.to_nat (Z.log2 n)) n EmptyString.

(** The value of a run of digits, with [int]'s single underscores between
    digits; [prev] tells whether the previous character was a digit. *)
Fixpoint digits_value (acc : Z) (prev : bool) (s : string) : option Z :=
  match s with
  | EmptyString => if prev then Some acc else None
  | String c s' =>
      if PyStr.isdecimal c then digits_value (10 * acc + digit_val c) true s'
      else if (PyStr.ord c =? 95) && prev then digits_value acc false s'
      else None
  end.

(** [int(s)] in base ten: white space around, a sign, digits; [None]
    stands for the [ValueError], whose text no caller keeps. *)
Definition int (s : string) : option Z :=
  match PyStr.strip s with
  | String "-" t => option_map Z.opp (digits_value 0 false t)
  | String "+" t => digits_value 0 false t
  | t => digits_value 0 false t
  end.

End PyInt.

(** ** cell_reference.py *)

Module CellReference.

Record t : Type := mk { column : string; row : Z }.

(** [__post_init__]: the checks every construction goes through. *)
Definition make (column : string) (row : Z) : outcome t :=
  if PyStr.is_empty_str column || negb (PyStr.isalpha column)
     || negb (PyStr.isupper column)
  then Raise (ValueError ("Неправильна назва стовпчика: " ++ column))
  else if row <? 1
  then Raise (ValueError ("Номер рядка має бути >= 1: " ++ PyInt.str row))
  else Ok (mk column row).

(** [PATTERN = ^([A-Z]+)(\d+)$] on [text]: the two groups. *)
Definition PATTERN_match (text : string) : option (string * string) :=
  let '(letters, rest) := PyStr.span PyStr.is_A_Z text in
  if negb (PyStr.is_empty_str letters) && negb (PyStr.is_empty_str rest)
     && PyStr.forallb PyStr.isdecimal rest
  then Some (letters, rest) else None.

Definition from_string (ref : string) : outcome t :=
  match PATTERN_match (PyStr.upper (PyStr.strip ref)) with
  | None => Raise (ValueError ("Неправильний формат посилання на клітинку: " ++ ref))
  | Some (column, digits) =>
      match PyInt.int digits with
      | Some row => make column row
      | None => Raise (ValueError ("invalid literal for int() with base 10: " ++ digits))
      end
  end.

Definition to_string (r : t) : string := column r ++ PyInt.str (row r).

Fixpoint column_to_index_loop (column : string) (index : Z) : Z :=
  match column with
  | EmptyString => index
  | String char rest =>
      column_to_index_loop rest (index * 26 + (PyStr.ord char - PyStr.ord "A" + 1))
  end.

Definition _column_to_index (column : string) : Z :=
  column_to_index_loop column 0 - 1.

Definition to_indices (r : t) : Z * Z :=
  (row r - 1, _column_to_index (column r)).

(** The [while index > 0] loop; [index] shrinks by a factor of 26 at each
    turn, so that its bit length bounds the number of turns. *)
Fixpoint index_to_column_loop (fuel : nat) (index : Z) (column : string) : string :=
  match fuel with
  | O => column
  | S fuel' =>
      if 0 <? index
      then let index1 := index - 1 in
           index_to_column_loop fuel' (index1 / 26)
             (String (PyStr.chr (PyStr.ord "A" + index1 mod 26)) column)
      else column
  end.

Definition _index_to_column (index : Z) : string :=
  let index := index + 1 in
  index_to_column_loop (S (Z.to_nat (Z.log2 index))) index EmptyString.

Definition from_indices (row_index col_index : Z) : outcome t :=
  make (_index_to_column col_index) (row_index + 1).

Definition eqb (a b : t) : bool :=
  String.eqb (column a) (column b) && (row a =? row b).

End CellReference.

(** ** expression_ast.py *)

Inductive ASTNode : Type :=
| NumberNode (value : Z)
| CellRefNode (reference : CellReference.t)
| UnaryOpNode (operator : string) (operand : ASTNode)
| BinaryOpNode (operator : string) (left right : ASTNode).

(** ** expression_parser.py *)

Module ExpressionParser.

Record Token : Type := mkToken { type : string; value : string; position : Z }.

Definition TOKEN_NUMBER := "NUMBER".
Definition TOKEN_CELL_REF := "CELL_REF".
Definition TOKEN_PLUS := "PLUS".
Definition TOKEN_MINUS := "MINUS".
Definition TOKEN_MULTIPLY := "MULTIPLY".
Definition TOKEN_DIVIDE := "DIVIDE".
Definition TOKEN_POWER := "POWER".
Definition TOKEN_EQUAL := "EQUAL".
Definition TOKEN_LESS := "LESS".
Definition TOKEN_GREATER := "GREATER".
Definition TOKEN_NOT := "NOT".
Definition TOKEN_AND := "AND".
Definition TOKEN_OR := "OR".
Definition TOKEN_LPAREN := "LPAREN".
Definition TOKEN_RPAREN := "RPAREN".
Definition TOKEN_EOF := "EOF".

(** A pattern of [TOKEN_PATTERNS] tried at one position: [prev] is the
    character before the position, [rest] the text from it on; the answer
    is the matched text. *)
Definition pattern := option ascii -> string -> option string.

Definition is_word_opt (c : option ascii) : bool :=
  match c with Some c => PyStr.isword c | None => false end.

Definition head_opt (s : string) : option ascii :=
  match s with String c _ => Some c | EmptyString => None end.

Fixpoint drop (n : nat) (s : string) : string :=
  match n, s with
  | S n', String _ s' => drop n' s'
  | _, _ => s
  end.

(** [\d+]. *)
Definition pat_number : pattern := fun _ rest =>
  let '(ds, _) := PyStr.span PyStr.isdecimal rest in
  if PyStr.is_empty_str ds then None else Some ds.

(** [[A-Z]+\d+]. *)
Definition pat_cell_ref : pattern := fun _ rest =>
  let '(ls, rest') := PyStr.span PyStr.is_A_Z rest in
  let '(ds, _) := PyStr.span PyStr.isdecimal rest' in
  if PyStr.is_empty_str ls || PyStr.is_empty_str ds then None else Some (ls ++ ds).

(** One literal character. *)
Definition pat_char (c : ascii) : pattern := fun _ rest =>
  match rest with
  | String c' _ => if Ascii.eqb c c' then Some (String c EmptyString) else None
  | EmptyString => None
  end.

(** [\bword\b] for a word of letters: a boundary is where exactly one of
    the characters around it is a word character. *)
Definition pat_word (word : string) : pattern := fun prev rest =>
  if String.prefix word rest
     && negb (is_word_opt prev)
     && negb (is_word_opt (head_opt (drop (String.length word) rest)))
  then Some word else None.

Definition TOKEN_PATTERNS : list (string * pattern) :=
  [ (TOKEN_NUMBER, pat_number);
    (TOKEN_CELL_REF, pat_cell_ref);
    (TOKEN_POWER, pat_char "^");
    (TOKEN_EQUAL, pat_char "=");
    (TOKEN_LESS, pat_char "<");
    (TOKEN_GREATER, pat_char ">");
    (TOKEN_PLUS, pat_char "+");
    (TOKEN_MINUS, pat_char "-");
    (TOKEN_MULTIPLY, pat_char "*");
    (TOKEN_DIVIDE, pat_char "/");
    (TOKEN_NOT, pat_word "not");
    (TOKEN_AND, pat_word "and");
    (TOKEN_OR, pat_word "or");
    (TOKEN_LPAREN, pat_char "(");
    (TOKEN_RPAREN, pat_char ")") ]%list.

(** The [for token_type, pattern in TOKEN_PATTERNS] loop: the first match. *)
Fixpoint first_match (ps : list (string * pattern)) (prev : option ascii)
    (rest : string) : option (string * string) :=
  match ps with
  | nil => None
  | (token_type, p) :: ps' =>
      match p prev rest with
      | Some v => Some (token_type, v)
      | None => first_match ps' prev rest
      end
  end.

Definition last_char (s : string) (default : option ascii) : option ascii :=
  match String.get (Nat.pred (String.length s)) s with
  | Some c => Some c
  | None => default
  end.

(** The [while position < len(expression)] loop of [_tokenize]; every turn
    moves [position] forward. *)
Fixpoint tokenize_loop (fuel : nat) (prev : option ascii) (rest : string)
    (position : Z) (tokens : list Token) : outcome (list Token) :=
  match rest with
  | EmptyString => Ok (tokens ++ [mkToken TOKEN_EOF "" position])%list
  | String c rest' =>
      match fuel with
      | O => Halt OutOfFuel
      | S fuel' =>
          if PyStr.isspace c
          then tokenize_loop fuel' (Some c) rest' (position + 1) tokens
          else
            match first_match TOKEN_PATTERNS prev rest with
            | Some (token_type, v) =>
                tokenize_loop fuel' (last_char v prev)
                  (drop (String.length v) rest)
                  (position + Z.of_nat (String.length v))
                  (tokens ++ [mkToken token_type v position])%list
            | None =>
                Raise (ExpressionSyntaxError
                         ("Невідомий символ: '" ++ String c "'") position)
            end
      end
  end.

Definition _tokenize (expression : string) : outcome (list Token) :=
  tokenize_loop (String.length expression) None expression 0 nil.

(** The parser object: [tokens] and [current_pos]. *)
Record state : Type := mkState { tokens : list Token; current_pos : nat }.

Definition P := M state.

Definition _current_token : P Token := fun st =>
  (Ok (nth (current_pos st) (tokens st)
         (last (tokens st) (mkToken TOKEN_EOF "" 0))), st).

Definition _consume (expected_type : option string) : P Token :=
  token <- _current_token ;;
  match expected_type with
  | Some expected =>
      if negb (String.eqb (type token) expected)
      then raise (ExpressionSyntaxError
                    ("Очікувався " ++ expected ++ ", знайдено " ++ type token)
                    (position token))
      else ret tt
  | None => ret tt
  end ;;;
  (fun st => (Ok token, mkState (tokens st) (S (current_pos st)))).

Definition type_in (token : Token) (types : list string) : bool :=
  List.existsb (String.eqb (type token)) types.

(** The loop [while current.type in types: op = consume(); right = operand();
    left = BinaryOpNode(operator(op), left, right)]. *)
Fixpoint binary_loop (turns : nat) (types : list string)
    (operator : Token -> string) (operand : P ASTNode) (left : ASTNode)
    : P ASTNode :=
  token <- _current_token ;;
  if type_in token types
  then match turns with
       | O => halts OutOfFuel
       | S turns' =>
           op_token <- _consume None ;;
           right <- operand ;;
           binary_loop turns' types operator operand
             (BinaryOpNode (operator op_token) left right)
       end
  else ret left.

(** The grammar's procedures; [fuel] bounds the depth of the calls. *)
Fixpoint _parse_expression (fuel : nat) : P ASTNode :=
  match fuel with
  | O => halts OutOfFuel
  | S fuel' => _parse_logical_or fuel'
  end

with _parse_logical_or (fuel : nat) : P ASTNode :=
  match fuel with
  | O => halts OutOfFuel
  | S fuel' =>
      left <- _parse_logical_and fuel' ;;
      binary_loop fuel' [TOKEN_OR] (fun _ => "or") (_parse_logical_and fuel') left
  end

with _parse_logical_and (fuel : nat) : P ASTNode :=
  match fuel with
  | O => halts OutOfFuel
  | S fuel' =>
      left <- _parse_comparison fuel' ;;
      binary_loop fuel' [TOKEN_AND] (fun _ => "and") (_parse_comparison fuel') left
  end

with _parse_comparison (fuel : nat) : P ASTNode :=
  match fuel with
  | O => halts OutOfFuel
  | S fuel' =>
      left <- _parse_additive fuel' ;;
      token <- _current_token ;;
      if type_in token [TOKEN_EQUAL; TOKEN_LESS; TOKEN_GREATER]
      then op_token <- _consume None ;;
           right <- _parse_additive fuel' ;;
           ret (BinaryOpNode (value op_token) left right)
      else ret left
  end

with _parse_additive (fuel : nat) : P ASTNode :=
  match fuel with
  | O => halts OutOfFuel
  | S fuel' =>
      left <- _parse_multiplicative fuel' ;;
      binary_loop fuel' [TOKEN_PLUS; TOKEN_MINUS]
        (fun op_token => if String.eqb (type op_token) TOKEN_PLUS then "+" else "-")
        (_parse_multiplicative fuel') left
  end

with _parse_multiplicative (fuel : nat) : P ASTNode :=
  match fuel with
  | O => halts OutOfFuel
  | S fuel' =>
      left <- _parse_power fuel' ;;
      binary_loop fuel' [TOKEN_MULTIPLY; TOKEN_DIVIDE]
        (fun op_token => if String.eqb (type op_token) TOKEN_MULTIPLY then "*" else "/")
        (_parse_power fuel') left
  end

with _parse_power (fuel : nat) : P ASTNode :=
  match fuel with
  | O => halts OutOfFuel
  | S fuel' =>
      left <- _parse_unary fuel' ;;
      token <- _current_token ;;
      if String.eqb (type token) TOKEN_POWER
      then _consume None ;;;
           right <- _parse_power fuel' ;;
           ret (BinaryOpNode "^" left right)
      else ret left
  end

with _parse_unary (fuel : nat) : P ASTNode :=
  match fuel with
  | O => halts OutOfFuel
  | S fuel' =>
      token <- _current_token ;;
      if type_in token [TOKEN_PLUS; TOKEN_MINUS; TOKEN_NOT]
      then op_token <- _consume None ;;
           operand <- _parse_unary fuel' ;;
           ret (UnaryOpNode
                  (if String.eqb (type op_token) TOKEN_PLUS then "+"
                   else if String.eqb (type op_token) TOKEN_MINUS then "-"
                   else "not")
                  operand)
      else _parse_primary fuel'
  end

with _parse_primary (fuel : nat) : P ASTNode :=
  match fuel with
  | O => halts OutOfFuel
  | S fuel' =>
      token <- _current_token ;;
      if String.eqb (type token) TOKEN_NUMBER
      then _consume None ;;;
           match PyInt.int (value token) with
           | Some n => ret (NumberNode n)
           | None => raise (ValueError
                              ("invalid literal for int() with base 10: " ++ value token))
           end
      else if String.eqb (type token) TOKEN_CELL_REF
      then _consume None ;;;
           match CellReference.from_string (value token) with
           | Ok ref => ret (CellRefNode ref)
           | Raise (ValueError m) => raise (ExpressionSyntaxError m (position token))
           | Raise e => raise e
           | Halt h => halts h
           end
      else if String.eqb (type token) TOKEN_LPAREN
      then _consume (Some TOKEN_LPAREN) ;;;
           expr <- _parse_expression fuel' ;;
           _consume (Some TOKEN_RPAREN) ;;;
           ret expr
      else raise (ExpressionSyntaxError
                    ("Очікувалося число, посилання на клітинку або '(', знайдено: "
                     ++ value token)
                    (position token))
  end.

(** [parse]: the fuel covers nine procedures for each token. *)
Definition parse (expression : string) : outcome ASTNode :=
  let expression := PyStr.strip expression in
  if PyStr.is_empty_str expression
  then Raise (ExpressionSyntaxError "Порожній вираз" 0)
  else
    match _tokenize expression with
    | Ok tokens =>
        fst (try_except
               (ast <- _parse_expression (10 * S (List.length tokens)) ;;
                token <- _current_token ;;
                if negb (String.eqb (type token) TOKEN_EOF)
                then raise (ExpressionSyntaxError
                              ("Неочікуваний токен: " ++ value token) (position token))
                else ret ast)
               (fun e =>
                  match e with
                  | ExpressionSyntaxError _ _ => raise e
                  | _ => token <- _current_token ;;
                         raise (ExpressionSyntaxError (exn_str e) (position token))
                  end)
               (mkState tokens 0))
    | Raise e => Raise e
    | Halt h => Halt h
    end.

End ExpressionParser.

(** ** Python numbers: [int] and [float] *)

Inductive pyval : Type :=
| PyInt (z : Z)
| PyFloat (f : spec_float).

Module PyNum.

(** binary64. *)
Definition prec : Z := 53.
Definition emax : Z := 1024.

(** An integer as an exact, unrounded binary number. *)
Definition exact (z : Z) : spec_float :=
  match z with
  | Z0 => S754_zero false
  | Zpos p => S754_finite false p 0
  | Zneg p => S754_finite true p 0
  end.

Definition is_infinity (f : spec_float) : bool :=
  match f with S754_infinity _ => true | _ => false end.

Definition is_zero (f : spec_float) : bool :=
  match f with S754_zero _ => true | _ => false end.

(** [float(z)]: the nearest double, ties to even. *)
Definition int_to_float (z : Z) : outcome spec_float :=
  let f := binary_normalize prec emax z 0 false in
  if is_infinity f then Raise (OverflowError "int too large to convert to float")
  else Ok f.

Definition to_float (v : pyval) : outcome spec_float :=
  match v with
  | PyInt z => int_to_float z
  | PyFloat f => Ok f
  end.

(** A [float] operator on two numbers of which one at least is a [float]. *)
Definition float_op (op : spec_float -> spec_float -> outcome pyval)
    (a b : pyval) : outcome pyval :=
  match to_float a with
  | Ok fa => match to_float b with
             | Ok fb => op fa fb
             | Raise e => Raise e
             | Halt h => Halt h
             end
  | Raise e => Raise e
  | Halt h => Halt h
  end.

Definition add (a b : pyval) : outcome pyval :=
  match a, b with
  | PyInt x, PyInt y => Ok (PyInt (x + y))
  | _, _ => float_op (fun fa fb => Ok (PyFloat (SFadd prec emax fa fb))) a b
  end.

Definition sub (a b : pyval) : outcome pyval :=
  match a, b with
  | PyInt x, PyInt y => Ok (PyInt (x - y))
  | _, _ => float_op (fun fa fb => Ok (PyFloat (SFsub prec emax fa fb))) a b
  end.

Definition mul (a b : pyval) : outcome pyval :=
  match a, b with
  | PyInt x, PyInt y => Ok (PyInt (x * y))
  | _, _ => float_op (fun fa fb => Ok (PyFloat (SFmul prec emax fa fb))) a b
  end.

(** [a / b]: of two integers, the double nearest to the quotient. *)
Definition truediv (a b : pyval) : outcome pyval :=
  match a, b with
  | PyInt x, PyInt y =>
      if y =? 0 then Raise (ZeroDivisionError "division by zero")
      else let f := SFdiv prec emax (exact x) (exact y) in
           if is_infinity f
           then Raise (OverflowError "integer division result too large for a float")
           else Ok (PyFloat f)
  | _, _ =>
      float_op (fun fa fb =>
                  if is_zero fb then Raise (ZeroDivisionError "float division by zero")
                  else Ok (PyFloat (SFdiv prec emax fa fb))) a b
  end.

(** [num / den] to the nearest integer, ties to even, for [den > 0]. *)
Definition round_half_even (num den : Z) : Z :=
  let q := num / den in
  match 2 * (num mod den) ?= den with
  | Lt => q
  | Gt => q + 1
  | Eq => if Z.even q then q else q + 1
  end.

(** [round(f, 3)]: the exact value of the double goes to the nearest
    multiple of 1/1000, ties to even, and that decimal to the nearest
    double; zeros, infinities and not-a-number round to themselves. *)
Definition round3 (f : spec_float) : spec_float :=
  match f with
  | S754_finite s m e =>
      let thousandths :=
        if 0 <=? e then Zpos m * 2 ^ e * 1000
        else round_half_even (Zpos m * 1000) (2 ^ (- e)) in
      match thousandths with
      | Zpos n => SFdiv prec emax (S754_finite s n 0) (S754_finite false 1000 0)
      | _ => S754_zero s
      end
  | _ => f
  end.

(** [round(v, 3)] as the evaluator uses it, on a quotient. *)
Definition round_3 (v : pyval) : pyval :=
  match v with
  | PyFloat f => PyFloat (round3 f)
  | PyInt z => PyInt z
  end.

(** [a ** b]: integer powers only. *)
Definition pow (a b : pyval) : outcome pyval :=
  match a, b with
  | PyInt x, PyInt y => if 0 <=? y then Ok (PyInt (x ^ y)) else Halt FloatPower
  | _, _ => Halt FloatPower
  end.

Definition neg (a : pyval) : pyval :=
  match a with
  | PyInt x => PyInt (- x)
  | PyFloat f => PyFloat (SFopp f)
  end.

(** Exact order of an integer and a double; [None] for not-a-number. *)
Definition compare_int_float (z : Z) (f : spec_float) : option comparison :=
  match f with
  | S754_nan => None
  | S754_zero _ => Some (z ?= 0)
  | S754_infinity s => Some (if s then Gt else Lt)
  | S754_finite s m e =>
      let sm := if s then Zneg m else Zpos m in
      Some (if 0 <=? e then z ?= sm * 2 ^ e else z * 2 ^ (- e) ?= sm)
  end.

Definition compare (a b : pyval) : option comparison :=
  match a, b with
  | PyInt x, PyInt y => Some (x ?= y)
  | PyInt x, PyFloat g => compare_int_float x g
  | PyFloat f, PyInt y => option_map CompOpp (compare_int_float y f)
  | PyFloat f, PyFloat g => SFcompare f g
  end.

(** [a == b], [a < b], [a > b]. *)
Definition eq (a b : pyval) : bool :=
  match compare a b with Some Eq => true | _ => false end.
Definition lt (a b : pyval) : bool :=
  match compare a b with Some Lt => true | _ => false end.
Definition gt (a b : pyval) : bool :=
  match compare a b with Some Gt => true | _ => false end.

(** [str(v)]; the shortest-digits text of a [float] is not modelled. *)
Definition str (v : pyval) : outcome string :=
  match v with
  | PyInt z => Ok (PyInt.str z)
  | PyFloat _ => Halt FloatRepr
  end.

End PyNum.

(** ** cell.py *)

Module Cell.

Record t : Type := mk {
  expression : string;
  ast : option ASTNode;
  cached_value : option pyval;
  error : option string;
  is_dirty : bool
}.

(** [Cell(expression)]. *)
Definition new (expression : string) : t := mk expression None None None true.

Definition invalidate (c : t) : t := mk (expression c) None None None true.

Definition invalidate_value (c : t) : t :=
  mk (expression c) (ast c) None None true.

(** The setter of [expression]. *)
Definition set_expression (value : string) (c : t) : t :=
  if negb (String.eqb (expression c) value)
  then invalidate (mk value (ast c) (cached_value c) (error c) (is_dirty c))
  else c.

Definition set_ast (value : option ASTNode) (c : t) : t :=
  mk (expression c) value (cached_value c) (error c) (is_dirty c).

(** The setter of [cached_value] also clears the dirty flag. *)
Definition set_cached_value (value : option pyval) (c : t) : t :=
  mk (expression c) (ast c) value (error c) false.

Definition set_error (value : option string) (c : t) : t :=
  mk (expression c) (ast c) (cached_value c) value (is_dirty c).

Definition is_empty (c : t) : bool :=
  PyStr.is_empty_str (PyStr.strip (expression c)).

Definition has_error (c : t) : bool :=
  match error c with Some _ => true | None => false end.

Definition is_formula (c : t) : bool :=
  PyStr.startswith "=" (PyStr.strip (expression c)).

Definition get_formula_expression (c : t) : string :=
  if is_formula c then PyStr.strip (PyStr.tail (PyStr.strip (expression c)))
  else "".

Definition is_literal (c : t) : bool :=
  negb (is_empty c) && negb (is_formula c).

Definition logical_operators : list string :=
  ["and"; "or"; "not"; "="; "<"; ">"]%list.

Definition is_boolean_expression (c : t) : bool :=
  if negb (is_formula c) then false
  else
    let formula := PyStr.lower (get_formula_expression c) in
    List.existsb (fun op => PyStr.contains op formula) logical_operators.

Definition get_display_value (c : t) : outcome string :=
  if has_error c then Ok "ПОМИЛКА"
  else if is_literal c then Ok (PyStr.strip (expression c))
  else
    match cached_value c with
    | Some v =>
        if is_boolean_expression c
        then Ok (if negb (PyNum.eq v (PyInt 0)) then "TRUE" else "FALSE")
        else PyNum.str v
    | None => if is_empty c then Ok "" else Ok "?"
    end.

End Cell.

(** ** table.py *)

Module Table.

Definition key : Type := Z * Z.

Definition key_eqb (a b : key) : bool :=
  (fst a =? fst b) && (snd a =? snd b).

(** The dictionary [_cells], in insertion order. *)
Record t : Type := mk {
  rows : Z;
  columns : Z;
  cells : list (key * Cell.t)
}.

Fixpoint lookup (k : key) (d : list (key * Cell.t)) : option Cell.t :=
  match d with
  | nil => None
  | (k', c) :: d' => if key_eqb k k' then Some c else lookup k d'
  end.

(** [d[k] = f(d[k])] on the cell object stored under [k]. *)
Fixpoint update (k : key) (f : Cell.t -> Cell.t) (d : list (key * Cell.t))
    : list (key * Cell.t) :=
  match d with
  | nil => nil
  | (k', c) :: d' =>
      if key_eqb k k' then (k', f c) :: d' else (k', c) :: update k f d'
  end.

(** [Table(rows, columns)]. *)
Definition new (rows columns : Z) : outcome t :=
  if (rows <? 1) || (columns <? 1)
  then Raise (ValueError "Кількість рядків та стовпчиків має бути >= 1")
  else Ok (mk rows columns nil).

Definition resize (rows' columns' : Z) : M t unit := fun self =>
  if (rows' <? 1) || (columns' <? 1)
  then (Raise (ValueError "Кількість рядків та стовпчиків має бути >= 1"), self)
  else
    let kept :=
      if (rows' <? rows self) || (columns' <? columns self)
      then filter (fun kc => negb ((rows' <=? fst (fst kc)) || (columns' <=? snd (fst kc))))
             (cells self)
      else cells self in
    (Ok tt, mk rows' columns' kept).

Definition _validate_indices (row col : Z) : M t unit := fun self =>
  if negb ((0 <=? row) && (row <? rows self))
  then (Raise (IndexError ("Індекс рядка " ++ PyInt.str row
                           ++ " виходить за межі таблиці")), self)
  else if negb ((0 <=? col) && (col <? columns self))
  then (Raise (IndexError ("Індекс стовпчика " ++ PyInt.str col
                           ++ " виходить за межі таблиці")), self)
  else (Ok tt, self).

(** [get_cell]: an absent cell is created, at the end of the dictionary. *)
Definition get_cell (row col : Z) : M t Cell.t :=
  _validate_indices row col ;;;
  (fun self =>
     match lookup (row, col) (cells self) with
     | Some c => (Ok c, self)
     | None =>
         (Ok (Cell.new ""),
          mk (rows self) (columns self)
             (cells self ++ [((row, col), Cell.new "")])%list)
     end).

Definition get_cell_by_reference (reference : CellReference.t) : M t Cell.t :=
  let '(row, col) := CellReference.to_indices reference in
  get_cell row col.

(** A write through the cell object that [get_cell row col] returned. *)
Definition modify (row col : Z) (f : Cell.t -> Cell.t) : M t unit := fun self =>
  (Ok tt, mk (rows self) (columns self) (update (row, col) f (cells self))).

Definition set_cell_expression (row col : Z) (expression : string) : M t unit :=
  get_cell row col ;;;
  modify row col (Cell.set_expression expression).

Definition clear_cell (row col : Z) : M t unit :=
  _validate_indices row col ;;;
  modify row col (fun _ => Cell.new "").

Definition clear_all : M t unit := fun self =>
  (Ok tt, mk (rows self) (columns self) nil).

Definition get_all_cells (self : t) : list (Z * Z * Cell.t) :=
  map (fun kc => (fst (fst kc), snd (fst kc), snd kc))
    (filter (fun kc => negb (Cell.is_empty (snd kc))) (cells self)).

Definition invalidate_all : M t unit := fun self =>
  (Ok tt, mk (rows self) (columns self)
            (map (fun kc => (fst kc, Cell.invalidate (snd kc))) (cells self))).

End Table.

(** ** expression_evaluator.py and table_service.py

    The service owns the table and the evaluator; the evaluator calls back
    into the service for the value of a cell, and the service calls the
    evaluator on the tree of that cell.  One state holds the fields of
    both. *)

Module TableService.

Record t : Type := mk {
  table : Table.t;
  _evaluation_stack : list string
}.

Definition S := M t.

Definition on_table {A : Type} (m : M Table.t A) : S A := fun self =>
  let '(r, table') := m (table self) in
  (r, mk table' (_evaluation_stack self)).

(** The set [_evaluation_stack]. *)
Definition stack_contains (ref_str : string) : S bool := fun self =>
  (Ok (List.existsb (String.eqb ref_str) (_evaluation_stack self)), self).

Definition stack_add (ref_str : string) : S unit := fun self =>
  (Ok tt,
   mk (table self)
      (if List.existsb (String.eqb ref_str) (_evaluation_stack self)
       then _evaluation_stack self
       else ref_str :: _evaluation_stack self)).

Definition stack_discard (ref_str : string) : S unit := fun self =>
  (Ok tt,
   mk (table self)
      (filter (fun s => negb (String.eqb ref_str s)) (_evaluation_stack self))).

Definition stack_clear : S unit := fun self => (Ok tt, mk (table self) nil).

Definition int_of_bool (b : bool) : pyval := PyInt (if b then 1 else 0).

(** *** ExpressionEvaluator *)

Definition visit_number (value : Z) : S pyval := ret (PyInt value).

Definition visit_cell_ref (cell_value_provider : CellReference.t -> S pyval)
    (reference : CellReference.t) : S pyval :=
  let ref_str := CellReference.to_string reference in
  seen <- stack_contains ref_str ;;
  if seen : bool
  then raise (CircularReferenceError
                ("Виявлено циклічне посилання на клітинку " ++ ref_str))
  else
    stack_add ref_str ;;;
    try_finally
      (try_except (cell_value_provider reference)
         (fun e => raise (CellReferenceError
                            ("Помилка отримання значення клітинки " ++ ref_str
                             ++ ": " ++ exn_str e))))
      (stack_discard ref_str).

Definition visit_unary_op (operator : string) (operand : S pyval) : S pyval :=
  operand_value <- operand ;;
  if String.eqb operator "+" then ret operand_value
  else if String.eqb operator "-" then ret (PyNum.neg operand_value)
  else if String.eqb operator "not"
  then ret (int_of_bool (PyNum.eq operand_value (PyInt 0)))
  else raise (EvaluationError ("Невідома унарна операція: " ++ operator)).

Definition visit_binary_op (operator : string) (left right : S pyval) : S pyval :=
  if String.eqb operator "+"
  then l <- left ;; r <- right ;; lift (PyNum.add l r)
  else if String.eqb operator "-"
  then l <- left ;; r <- right ;; lift (PyNum.sub l r)
  else if String.eqb operator "*"
  then l <- left ;; r <- right ;; lift (PyNum.mul l r)
  else if String.eqb operator "/"
  then left_val <- left ;;
       right_val <- right ;;
       if PyNum.eq right_val (PyInt 0)
       then raise (EvaluationError "Ділення на нуль")
       else q <- lift (PyNum.truediv left_val right_val) ;; ret (PyNum.round_3 q)
  else if String.eqb operator "^"
  then left_val <- left ;;
       right_val <- right ;;
       if PyNum.lt right_val (PyInt 0)
       then raise (EvaluationError "Від'ємний степінь не підтримується")
       else lift (PyNum.pow left_val right_val)
  else if String.eqb operator "="
  then l <- left ;; r <- right ;; ret (int_of_bool (PyNum.eq l r))
  else if String.eqb operator "<"
  then l <- left ;; r <- right ;; ret (int_of_bool (PyNum.lt l r))
  else if String.eqb operator ">"
  then l <- left ;; r <- right ;; ret (int_of_bool (PyNum.gt l r))
  else if String.eqb operator "and"
  then left_val <- left ;;
       if PyNum.eq left_val (PyInt 0) then ret (PyInt 0)
       else right_val <- right ;;
            ret (int_of_bool (negb (PyNum.eq right_val (PyInt 0))))
  else if String.eqb operator "or"
  then left_val <- left ;;
       if negb (PyNum.eq left_val (PyInt 0)) then ret (PyInt 1)
       else right_val <- right ;;
            ret (int_of_bool (negb (PyNum.eq right_val (PyInt 0))))
  else raise (EvaluationError ("Невідома бінарна операція: " ++ operator)).

(** *** TableService._get_cell_value_for_evaluator

    [accept] is the evaluator's walk of a tree, called on the tree of the
    cell when the cell holds a formula. *)
Definition _get_cell_value_for_evaluator (accept : ASTNode -> S pyval)
    (reference : CellReference.t) : S pyval :=
  cell <- on_table (Table.get_cell_by_reference reference) ;;
  let ref_str := CellReference.to_string reference in
  match Cell.error cell with
  | Some error =>
      raise (Exception ("Клітинка " ++ ref_str ++ " має помилку: " ++ error))
  | None =>
      if Cell.is_empty cell then ret (PyInt 0)
      else if Cell.is_literal cell
      then match PyInt.int (PyStr.strip (Cell.expression cell)) with
           | Some z => ret (PyInt z)
           | None =>
               raise (Exception ("Клітинка " ++ ref_str
                                 ++ " містить не числове значення: "
                                 ++ Cell.expression cell))
           end
      else if Cell.is_formula cell
      then match Cell.ast cell with
           | None => raise (Exception ("Клітинка " ++ ref_str ++ " не була розпарсена"))
           | Some ast => accept ast
           end
      else raise (Exception ("Невідомий тип вмісту клітинки " ++ ref_str))
  end.

(** [node.accept(evaluator)]: the walk is by recursion on the tree; the
    fuel counts the nested calls of the value provider. *)
Fixpoint accept (fuel : nat) : ASTNode -> S pyval :=
  fix visit (node : ASTNode) : S pyval :=
    match node with
    | NumberNode value => visit_number value
    | CellRefNode reference =>
        visit_cell_ref
          (match fuel with
           | O => fun _ => halts OutOfFuel
           | Datatypes.S fuel' => _get_cell_value_for_evaluator (accept fuel')
           end)
          reference
    | UnaryOpNode operator operand => visit_unary_op operator (visit operand)
    | BinaryOpNode operator lhs rhs =>
        visit_binary_op operator (visit lhs) (visit rhs)
    end.

Definition evaluate (fuel : nat) (ast : ASTNode)
    (current_cell : option CellReference.t) : S pyval :=
  stack_clear ;;;
  match current_cell with
  | Some ref => stack_add (CellReference.to_string ref)
  | None => ret tt
  end ;;;
  try_except (accept fuel ast)
    (fun e =>
       if is_EvaluationError e || is_CircularReferenceError e
          || is_CellReferenceError e
       then raise e
       else raise (EvaluationError ("Помилка обчислення: " ++ exn_str e))).

(** *** TableService *)

(** [TableService()]: a table of ten rows and ten columns. *)
Definition new : t := mk (Table.mk 10 10 nil) nil.

Definition create_table (rows columns : Z) : S unit := fun self =>
  match Table.new rows columns with
  | Ok table' => (Ok tt, mk table' (_evaluation_stack self))
  | Raise e => (Raise e, self)
  | Halt h => (Halt h, self)
  end.

Definition resize_table (rows columns : Z) : S unit :=
  on_table (Table.resize rows columns) ;;;
  on_table Table.invalidate_all.

(** Writes through the cell object that [get_cell row col] returned. *)
Definition modify (row col : Z) (f : Cell.t -> Cell.t) : S unit :=
  on_table (Table.modify row col f).

Definition set_cell_expression (row col : Z) (expression : string)
    : S (bool * string) :=
  on_table (Table.get_cell row col) ;;;
  modify row col (Cell.set_expression expression) ;;;
  cell <- on_table (Table.get_cell row col) ;;
  if Cell.is_empty cell
  then modify row col (Cell.set_cached_value None) ;;;
       modify row col (Cell.set_error None) ;;;
       ret (true, "")
  else if Cell.is_literal cell
  then modify row col (Cell.set_ast None) ;;;
       modify row col (Cell.set_cached_value None) ;;;
       modify row col (Cell.set_error None) ;;;
       ret (true, "")
  else if Cell.is_formula cell
  then
    match ExpressionParser.parse (Cell.get_formula_expression cell) with
    | Ok ast =>
        modify row col (Cell.set_ast (Some ast)) ;;;
        modify row col (Cell.set_error None) ;;;
        ret (true, "")
    | Raise (ExpressionSyntaxError m _) =>
        let error_msg := "Синтаксична помилка: " ++ m in
        modify row col (Cell.set_error (Some error_msg)) ;;;
        modify row col (Cell.set_cached_value None) ;;;
        ret (false, error_msg)
    | Raise e =>
        let error_msg := "Помилка: " ++ exn_str e in
        modify row col (Cell.set_error (Some error_msg)) ;;;
        modify row col (Cell.set_cached_value None) ;;;
        ret (false, error_msg)
    | Halt h => halts h
    end
  else ret (true, "").

Definition _calculate_cell (fuel : nat) (row col : Z) : S unit :=
  cell <- on_table (Table.get_cell row col) ;;
  match Cell.ast cell with
  | None => ret tt
  | Some ast =>
      if Cell.is_empty cell then ret tt
      else
        try_except
          (current_ref <- lift (CellReference.from_indices row col) ;;
           value <- evaluate fuel ast (Some current_ref) ;;
           modify row col (Cell.set_cached_value (Some value)) ;;;
           modify row col (Cell.set_error None))
          (fun e =>
             let error_msg :=
               if is_CircularReferenceError e
               then "Циклічне посилання: " ++ exn_str e
               else if is_DomainException e then exn_str e
               else "Помилка обчислення: " ++ exn_str e in
             modify row col (Cell.set_error (Some error_msg)) ;;;
             modify row col (Cell.set_cached_value None))
  end.

(** The loop of [calculate_all] over the list that [get_all_cells] built:
    each entry is a cell object of the table, read again when its turn
    comes. *)
Fixpoint calculate_loop (fuel : nat) (entries : list (Z * Z * Cell.t)) : S unit :=
  match entries with
  | nil => ret tt
  | (row, col, _) :: entries' =>
      (fun self =>
         match Table.lookup (row, col) (Table.cells (table self)) with
         | Some cell =>
             if Cell.is_formula cell
                && match Cell.ast cell with Some _ => true | None => false end
             then _calculate_cell fuel row col self
             else (Ok tt, self)
         | None => (Ok tt, self)
         end) ;;;
      calculate_loop fuel entries'
  end.

Definition calculate_all (fuel : nat) : S unit := fun self =>
  calculate_loop fuel (Table.get_all_cells (table self)) self.

Definition _calculate_cell_by_reference (fuel : nat) (reference : CellReference.t)
    : S unit :=
  let '(row, col) := CellReference.to_indices reference in
  _calculate_cell fuel row col.

Definition get_cell (row col : Z) : S Cell.t := on_table (Table.get_cell row col).

Definition clear_all : S unit := on_table Table.clear_all.

(** The snapshot [{rows, columns, cells: [{row, col, expression}]}]. *)
Record snapshot : Type := mkSnapshot {
  snap_rows : Z;
  snap_columns : Z;
  snap_cells : list (Z * Z * string)
}.

Definition get_table_data_for_export (self : t) : snapshot :=
  mkSnapshot (Table.rows (table self)) (Table.columns (table self))
    (map (fun rcc => let '(row, col, cell) := rcc in (row, col, Cell.expression cell))
       (filter (fun rcc => negb (Cell.is_empty (snd rcc)))
          (Table.get_all_cells (table self)))).

Fixpoint load_loop (cells : list (Z * Z * string)) : S unit :=
  match cells with
  | nil => ret tt
  | (row, col, expression) :: cells' =>
      set_cell_expression row col expression ;;;
      load_loop cells'
  end.

Definition load_table_data (fuel : nat) (data : snapshot) : S unit :=
  create_table (snap_rows data) (snap_columns data) ;;;
  load_loop (snap_cells data) ;;;
  calculate_all fuel.

End TableService.

(** ** Reading a state *)

(** The cell object that [get_cell row col] returns, for a position of the
    table: the one stored there, or a new empty one. *)
Definition cell_at (self : TableService.t) (row col : Z) : Cell.t :=
  match Table.lookup (row, col) (Table.cells (TableService.table self)) with
  | Some c => c
  | None => Cell.new ""
  end.

(** The state that a call leaves. *)
Definition after {A : Type} (m : TableService.S A) (self : TableService.t)
    : TableService.t :=
  snd (m self).

(** ** The tables of the examples *)

Definition A1 : CellReference.t := CellReference.mk "A" 1.
Definition B1 : CellReference.t := CellReference.mk "B" 1.
Definition C3 : CellReference.t := CellReference.mk "C" 3.

(** The first cell of a new table after [text] was assigned to it and an
    evaluation pass was run. *)
Definition formula_in_A1 (fuel : nat) (text : string) : Cell.t :=
  cell_at (after (TableService.set_cell_expression 0 0 text ;;;
                  TableService.calculate_all fuel) TableService.new) 0 0.

(** A1 holds "=B1" and B1 holds "=A1". *)
Definition two_cell_cycle : TableService.t :=
  after (TableService.set_cell_expression 0 0 "=B1" ;;;
         TableService.set_cell_expression 0 1 "=A1") TableService.new.

(** C3 holds 7, A1 holds "=C3", and a pass was run. *)
Definition table_with_C3 (fuel : nat) : TableService.t :=
  after (TableService.set_cell_expression 2 2 "7" ;;;
         TableService.set_cell_expression 0 0 "=C3" ;;;
         TableService.calculate_all fuel) TableService.new.

(** Whether an outcome is a raised [EvaluationError]. *)
Definition raises_EvaluationError {A : Type} (o : outcome A) : bool :=
  match o with
  | Raise e => is_EvaluationError e
  | _ => false
  end.

(** What an evaluation pass leaves in a cell. *)
Definition cached_value_and_error (c : Cell.t) : option pyval * option string :=
  (Cell.cached_value c, Cell.error c).

(** ** Notions for the persistence round trip *)


(** The invariant of a table: positive sizes, one cell for a position, every
    position within the sizes. *)
Definition well_formed (table : Table.t) : Prop :=
  1 <= Table.rows table /\ 1 <= Table.columns table
  /\ NoDup (map fst (Table.cells table))
  /\ forall k c, In (k, c) (Table.cells table) ->
       0 <= fst k < Table.rows table /\ 0 <= snd k < Table.columns table.

(** The cell stored under a key, or a new empty one. *)
Definition cell_of (d : list (Table.key * Cell.t)) (k : Table.key) : Cell.t :=
  match Table.lookup k d with
  | Some c => c
  | None => Cell.new ""
  end.

(** Two cells that the evaluator cannot tell apart: it reads the error,
    whether the cell is empty, the tree, and the text of a cell that is not
    empty. *)
Definition cell_sim (c c' : Cell.t) : Prop :=
  Cell.is_empty c = Cell.is_empty c'
  /\ Cell.error c = Cell.error c'
  /\ Cell.ast c = Cell.ast c'
  /\ (Cell.is_empty c = false -> Cell.expression c = Cell.expression c').

(** Two states that the evaluator cannot tell apart. *)
Definition state_sim (s s' : TableService.t) : Prop :=
  Table.rows (TableService.table s) = Table.rows (TableService.table s')
  /\ Table.columns (TableService.table s) = Table.columns (TableService.table s')
  /\ TableService._evaluation_stack s = TableService._evaluation_stack s'
  /\ forall k, cell_sim (cell_of (Table.cells (TableService.table s)) k)
                 (cell_of (Table.cells (TableService.table s')) k).

(** Two calls that end alike from states alike; [R] relates what they
    return. *)
Definition call_sim {A : Type} (R : A -> A -> Prop)
    (m m' : TableService.S A) : Prop :=
  forall s s', state_sim s s' ->
    state_sim (snd (m s)) (snd (m' s'))
    /\ match fst (m s), fst (m' s') with
       | Ok a, Ok a' => R a a'
       | Raise e, Raise e' => e = e'
       | Halt h, Halt h' => h = h'
       | _, _ => False
       end.

(** A call that leaves every cell of the table as it was. *)
Definition keeps_cells {A : Type} (m : TableService.S A) : Prop :=
  forall s,
    Table.rows (TableService.table (snd (m s))) = Table.rows (TableService.table s)
    /\ Table.columns (TableService.table (snd (m s)))
       = Table.columns (TableService.table s)
    /\ forall k, cell_of (Table.cells (TableService.table (snd (m s)))) k
                 = cell_of (Table.cells (TableService.table s)) k.

(** Two tables that the evaluator cannot tell apart, whatever the stacks. *)
Definition table_sim (s s' : TableService.t) : Prop :=
  state_sim (TableService.mk (TableService.table s) nil)
    (TableService.mk (TableService.table s') nil).

(** The text that [_calculate_cell] stores for an exception. *)
Definition calculation_error (e : exn) : string :=
  if is_CircularReferenceError e then "Циклічне посилання: " ++ exn_str e
  else if is_DomainException e then exn_str e
  else "Помилка обчислення: " ++ exn_str e.

(** The cell after the two writes that end [_calculate_cell]. *)
Definition calculated (value : option pyval) (error : option string) (c : Cell.t)
    : Cell.t :=
  Cell.mk (Cell.expression c) (Cell.ast c) value error false.

Definition write_result (row col : Z) (value : option pyval) (error : option string)
    (self : TableService.t) : TableService.t :=
  TableService.mk
    (Table.mk (Table.rows (TableService.table self))
       (Table.columns (TableService.table self))
       (Table.update (row, col) (calculated value error)
          (Table.cells (TableService.table self))))
    (TableService._evaluation_stack self).

(** A cell that an evaluation pass calculates. *)
Definition pending (c : Cell.t) : bool :=
  Cell.is_formula c && match Cell.ast c with Some _ => true | None => false end.

(** The cell that [set_cell_expression] leaves where there was none, for a
    text that is not empty. *)
Definition assigned_cell (expression : string) : Cell.t :=
  let c := Cell.mk expression None None None true in
  if Cell.is_literal c then Cell.mk expression None None None false
  else match ExpressionParser.parse (Cell.get_formula_expression c) with
       | Ok ast => Cell.mk expression (Some ast) None None true
       | Raise (ExpressionSyntaxError m _) =>
           Cell.mk expression None None (Some ("Синтаксична помилка: " ++ m)) false
       | Raise e =>
           Cell.mk expression None None (Some ("Помилка: " ++ exn_str e)) false
       | Halt _ => c
       end.



(** The cells that [load_table_data] builds from the cells of a snapshot. *)
Definition loaded (cells : list (Z * Z * string)) : list (Table.key * Cell.t) :=
  map (fun rce => (fst rce, assigned_cell (snd rce))) cells.

(** Whether a stored cell is listed by [get_all_cells]. *)
Definition listed (kc : Table.key * Cell.t) : bool := negb (Cell.is_empty (snd kc)).

(** A1 holds "=B1+1", B1 holds 4 and C1 holds a formula cut short. *)
Definition table_of_three : TableService.t :=
  after (TableService.set_cell_expression 0 0 "=B1+1" ;;;
         TableService.set_cell_expression 0 1 "4" ;;;
         TableService.set_cell_expression 0 2 "=1/") TableService.new.

(** ** Notions for the fuel of the evaluator *)

(** The texts of the references of a tree, and of the trees of a table. *)
Fixpoint references (node : ASTNode) : list string :=
  match node with
  | NumberNode _ => nil
  | CellRefNode reference => [CellReference.to_string reference]
  | UnaryOpNode _ operand => references operand
  | BinaryOpNode _ lhs rhs => (references lhs ++ references rhs)%list
  end.

Definition table_references (d : list (Table.key * Cell.t)) : list string :=
  flat_map (fun kc => match Cell.ast (snd kc) with
                      | Some ast => references ast
                      | None => nil
                      end) d.

Definition on_stack (stack : list string) (x : string) : bool :=
  List.existsb (String.eqb x) stack.

(** How many texts of [universe] are not on the stack. *)
Definition unvisited (universe stack : list string) : nat :=
  List.length (filter (fun x => negb (on_stack stack x)) (nodup string_dec universe)).

(** Every reference of every tree of the table is in [universe]. *)
Definition covered (universe : list string) (s : TableService.t) : Prop :=
  forall k ast,
    Cell.ast (cell_of (Table.cells (TableService.table s)) k) = Some ast ->
    incl (references ast) universe.

(** A call that leaves the evaluation stack as it was. *)
Definition keeps_stack {A : Type} (m : TableService.S A) : Prop :=
  forall s, TableService._evaluation_stack (snd (m s)) = TableService._evaluation_stack s.

(** An outcome of the model that is an outcome of the program: a result or
    an exception.  The one thing left out of the model that an evaluation
    can meet is the power of a [float]. *)
Definition ends {A : Type} (o : outcome A) : Prop :=
  forall h, o = Halt h -> h = FloatPower.

(** A call that ends where at most [fuel] texts of [universe] are not on
    the stack. *)
Definition fuelled (universe : list string) (fuel : nat) {A : Type}
    (m : TableService.S A) : Prop :=
  forall s, covered universe s ->
    (unvisited universe (TableService._evaluation_stack s) <= fuel)%nat ->
    ends (fst (m s)).

(** ** Notions for the termination of the parser *)

(** The lists that [_tokenize] returns: tokens of the patterns, then the end
    token. *)
Definition tokenized (ts : list ExpressionParser.Token) : Prop :=
  exists body p,
    ts = (body ++ [ExpressionParser.mkToken ExpressionParser.TOKEN_EOF "" p])%list
    /\ Forall (fun token =>
                 String.eqb (ExpressionParser.type token) ExpressionParser.TOKEN_EOF
                 = false) body.

(** The token that [_current_token] returns. *)
Definition current (st : ExpressionParser.state) : ExpressionParser.Token :=
  nth (ExpressionParser.current_pos st) (ExpressionParser.tokens st)
    (last (ExpressionParser.tokens st)
       (ExpressionParser.mkToken ExpressionParser.TOKEN_EOF "" 0)).

(** The parser after [current_pos += 1]. *)
Definition advance (st : ExpressionParser.state) : ExpressionParser.state :=
  ExpressionParser.mkState (ExpressionParser.tokens st)
    (Datatypes.S (ExpressionParser.current_pos st)).

(** A parser over [ts] that is not past the end token. *)
Definition parsing (ts : list ExpressionParser.Token) (st : ExpressionParser.state)
    : Prop :=
  ExpressionParser.tokens st = ts
  /\ (ExpressionParser.current_pos st < List.length ts)%nat.

(** The number of tokens from the position to the end token. *)
Definition ahead (st : ExpressionParser.state) : nat :=
  List.length (ExpressionParser.tokens st)
  - Datatypes.S (ExpressionParser.current_pos st).

(** A procedure that returns or raises when at most [n] tokens are ahead,
    and moves the position forward only, not past the end token. *)
Definition parses (ts : list ExpressionParser.Token) (n : nat) {A : Type}
    (m : ExpressionParser.P A) (st : ExpressionParser.state) : Prop :=
  parsing ts st -> (ahead st <= n)%nat ->
  (forall h, fst (m st) <> Halt h)
  /\ parsing ts (snd (m st))
  /\ (ahead (snd (m st)) <= ahead st)%nat.

(** ** Notions for the invariant of the table *)

(** The positions of the cells stored in a table, in the order of the
    dictionary. *)
Definition positions (table : Table.t) : list Table.key :=
  map fst (Table.cells table).

(** A call of the service that keeps the invariant of the table. *)
Definition keeps_invariant {A : Type} (m : TableService.S A) : Prop :=
  forall s, well_formed (TableService.table s) ->
    well_formed (TableService.table (snd (m s))).

(** ** Notions for the self-reference *)

(** The text that a pass stores in A1 when A1 refers to itself. *)
Definition self_reference_error : string :=
  "Циклічне посилання: Виявлено циклічне посилання на клітинку A1".

(** A1 holds the tree of "=A1". *)
Definition refers_to_itself (s : TableService.t) : Prop :=
  1 <= Table.rows (TableService.table s)
  /\ 1 <= Table.columns (TableService.table s)
  /\ Cell.is_empty (cell_at s 0 0) = false
  /\ Cell.is_formula (cell_at s 0 0) = true
  /\ Cell.ast (cell_at s 0 0) = Some (CellRefNode A1).

(** A1 holds the error of the self-reference and no value. *)
Definition holds_self_reference_error (s : TableService.t) : Prop :=
  cached_value_and_error (cell_at s 0 0) = (None, Some self_reference_error).

(** ** Notions for the tokens and the trees of the parser *)

(** The texts of the tokens, one after the other. *)
Definition token_texts (ts : list ExpressionParser.Token) : string :=
  fold_right (fun token text => ExpressionParser.value token ++ text) "" ts.

(** A text without its white space. *)
Fixpoint without_spaces (s : string) : string :=
  match s with
  | EmptyString => EmptyString
  | String c s' =>
      if PyStr.isspace c then without_spaces s' else String c (without_spaces s')
  end.

(** The token stands in [expression] at its position. *)
Definition token_at (expression : string) (token : ExpressionParser.Token) : Prop :=
  0 <= ExpressionParser.position token
  /\ String.substring (Z.to_nat (ExpressionParser.position token))
       (String.length (ExpressionParser.value token)) expression
     = ExpressionParser.value token.

(** What a pattern of the tokenizer matches: a text that is not empty, has
    no white space and begins what is left of the expression. *)
Definition matches_prefix (p : ExpressionParser.pattern) : Prop :=
  forall prev rest v,
    p prev rest = Some v ->
    v <> EmptyString /\ without_spaces v = v
    /\ rest = v ++ ExpressionParser.drop (String.length v) rest.

(** The text of a token agrees with its type, for the types whose text the
    parser reads. *)
Definition lexed (token : ExpressionParser.Token) : Prop :=
  (ExpressionParser.type token = ExpressionParser.TOKEN_NUMBER ->
   ExpressionParser.value token <> EmptyString
   /\ PyStr.forallb PyStr.isdecimal (ExpressionParser.value token) = true)
  /\ (ExpressionParser.type token = ExpressionParser.TOKEN_EQUAL ->
      ExpressionParser.value token = "=")
  /\ (ExpressionParser.type token = ExpressionParser.TOKEN_LESS ->
      ExpressionParser.value token = "<")
  /\ (ExpressionParser.type token = ExpressionParser.TOKEN_GREATER ->
      ExpressionParser.value token = ">").

(** The operators of the nodes, as expression_ast.py lists them. *)
Definition unary_operators : list string := ["+"; "-"; "not"]%list.
Definition binary_operators : list string :=
  ["+"; "-"; "*"; "/"; "^"; "="; "<"; ">"; "and"; "or"]%list.

(** A tree whose operators are the listed ones, whose numbers are not
    negative and whose references have a column over A-Z and a row of one
    at least. *)
Fixpoint documented (node : ASTNode) : bool :=
  match node with
  | NumberNode value => 0 <=? value
  | CellRefNode reference =>
      negb (PyStr.is_empty_str (CellReference.column reference))
      && PyStr.forallb PyStr.is_A_Z (CellReference.column reference)
      && (1 <=? CellReference.row reference)
  | UnaryOpNode operator operand =>
      List.existsb (String.eqb operator) unary_operators && documented operand
  | BinaryOpNode operator lhs rhs =>
      List.existsb (String.eqb operator) binary_operators
      && documented lhs && documented rhs
  end.

(** A procedure of the parser that, from a parser over [ts], returns only
    results that satisfy [Q], and leaves the tokens. *)
Definition yields (ts : list ExpressionParser.Token) {A : Type} (Q : A -> Prop)
    (m : ExpressionParser.P A) (st : ExpressionParser.state) : Prop :=
  ExpressionParser.tokens st = ts ->
  forall a st', m st = (Ok a, st') -> Q a /\ ExpressionParser.tokens st' = ts.

(** ** Notions for the exceptions of an evaluation *)

(** A call that, run with the evaluation stack [stack], raises a
    circular-reference error only for one of [texts] that is on the
    stack. *)
Definition circular_from (stack texts : list string) {A : Type}
    (m : TableService.S A) : Prop :=
  forall s, TableService._evaluation_stack s = stack ->
    forall message,
      fst (m s) = Raise (CircularReferenceError message) ->
      exists x, In x texts /\ In x stack
                /\ message = "Виявлено циклічне посилання на клітинку " ++ x.

(** ** Notions for the result of an evaluation pass *)

(** A cell that holds a value and no error, or an error and no value, and
    is not dirty. *)
Definition settled (c : Cell.t) : Prop :=
  Cell.is_dirty c = false
  /\ ((exists value, Cell.cached_value c = Some value /\ Cell.error c = None)
      \/ (exists error, Cell.cached_value c = None /\ Cell.error c = Some error)).

(** ** Notions for the snapshot of a table *)

(** The positions and the texts of the cells that are not empty, in the
    order of the dictionary: what a snapshot lists. *)
Definition listing (table : Table.t) : list (Table.key * string) :=
  map (fun kc => (fst kc, Cell.expression (snd kc))) (filter listed (Table.cells table)).

(** A call that leaves the sizes and the listing of the table. *)
Definition keeps_listing {A : Type} (m : TableService.S A) : Prop :=
  forall s,
    Table.rows (TableService.table (snd (m s))) = Table.rows (TableService.table s)
    /\ Table.columns (TableService.table (snd (m s)))
       = Table.columns (TableService.table s)
    /\ listing (TableService.table (snd (m s))) = listing (TableService.table s).

(** A snapshot that [load_table_data] takes in full: sizes of one at least,
    one cell for a position, every position within the sizes and no text
    that is blank. *)
Definition valid_snapshot (data : TableService.snapshot) : Prop :=
  1 <= TableService.snap_rows data /\ 1 <= TableService.snap_columns data
  /\ NoDup (map fst (TableService.snap_cells data))
  /\ forall row col text,
       In (row, col, text) (TableService.snap_cells data) ->
       0 <= row < TableService.snap_rows data
       /\ 0 <= col < TableService.snap_columns data
       /\ Cell.is_empty (Cell.new text) = false.

(** ** Notions for tables without division *)

(** Whether no operator of a tree is the division. *)
Fixpoint without_division (node : ASTNode) : bool :=
  match node with
  | NumberNode _ => true
  | CellRefNode _ => true
  | UnaryOpNode _ operand => without_division operand
  | BinaryOpNode operator lhs rhs =>
      negb (String.eqb operator "/") && without_division lhs && without_division rhs
  end.

Definition is_int (v : pyval) : bool :=
  match v with PyInt _ => true | PyFloat _ => false end.

Definition int_value (v : pyval) : Prop := is_int v = true.

(** A cell whose tree, if it has one, is without division and whose value,
    if it has one, is an [int]. *)
Definition integral (c : Cell.t) : Prop :=
  (forall ast, Cell.ast c = Some ast -> without_division ast = true)
  /\ (forall v, Cell.cached_value c = Some v -> is_int v = true).

Definition integral_table (self : TableService.t) : Prop :=
  forall row col, integral (cell_at self row col).

(** A call that keeps a table integral and, on one, returns what satisfies
    [Q], raises, or runs out of fuel: it meets no [float]. *)
Definition integer_call {A : Type} (Q : A -> Prop) (m : TableService.S A) : Prop :=
  forall s,
    integral_table s ->
    integral_table (snd (m s))
    /\ match fst (m s) with
       | Ok a => Q a
       | Raise _ => True
       | Halt h => h = OutOfFuel
       end.
(** ** Facts on strings *)

Module PyStrFacts.
Import PyStr.

Lemma ord_chr (z : Z) : 0 <= z < 256 -> ord (chr z) = z.
Proof.
  intros H. unfold ord, chr.
  rewrite N_ascii_embedding.
  - now rewrite Z2N.id by lia.
  - apply N2Z.inj_lt. rewrite Z2N.id by lia. simpl. lia.
Qed.

Lemma chr_ord (c : ascii) : chr (ord c) = c.
Proof. unfold ord, chr. rewrite N2Z.id. apply ascii_N_embedding. Qed.

Lemma ord_range (c : ascii) : 0 <= ord c < 256.
Proof.
  unfold ord. pose proof (N_ascii_bounded c) as H.
  split; [apply N2Z.is_nonneg|]. apply N2Z.inj_lt in H. simpl in H. lia.
Qed.

Lemma between_spec (lo hi : Z) (c : ascii) :
  between lo hi c = true <-> lo <= ord c <= hi.
Proof. unfold between. rewrite andb_true_iff, !Z.leb_le. tauto. Qed.

Lemma between_false (lo hi : Z) (c : ascii) :
  between lo hi c = false <-> ord c < lo \/ hi < ord c.
Proof.
  unfold between. rewrite andb_false_iff, !Z.leb_gt. tauto.
Qed.

Ltac to_ranges_goal :=
  rewrite ?orb_true_iff, ?orb_false_iff, ?between_spec, ?between_false, ?Z.eqb_eq,
    ?Z.eqb_neq.

Lemma append_assoc (s t u : string) : (s ++ t) ++ u = s ++ (t ++ u).
Proof. induction s as [|c s IH]; simpl; congruence. Qed.

Lemma append_empty_r (s : string) : s ++ "" = s.
Proof. induction s as [|c s IH]; simpl; congruence. Qed.

Lemma length_append (s t : string) :
  String.length (s ++ t) = (String.length s + String.length t)%nat.
Proof. induction s as [|c s IH]; simpl; congruence. Qed.

Lemma forallb_app (p : ascii -> bool) (s t : string) :
  forallb p (s ++ t) = forallb p s && forallb p t.
Proof. induction s as [|c s IH]; simpl; [reflexivity|]. now rewrite IH, andb_assoc. Qed.

Lemma forallb_impl (p q : ascii -> bool) (s : string) :
  (forall c, p c = true -> q c = true) -> forallb p s = true -> forallb q s = true.
Proof.
  intros Hpq. induction s as [|c s IH]; simpl; [reflexivity|].
  rewrite !andb_true_iff. intros [Hc Hs]. auto.
Qed.

Ltac to_ranges H :=
  rewrite ?orb_true_iff, ?orb_false_iff, ?between_spec, ?between_false, ?Z.eqb_eq,
    ?Z.eqb_neq in H.

Lemma plain_not_space (c : ascii) : plain c = true -> isspace c = false.
Proof.
  unfold plain, is_A_Z, isdecimal. intros H. to_ranges H.
  destruct (isspace c) eqn:E; [|reflexivity].
  unfold isspace in E. to_ranges E. lia.
Qed.

Lemma plain_upper_char (c : ascii) :
  plain c = true -> upper_char c = String c EmptyString.
Proof.
  unfold plain, is_A_Z, isdecimal. intros H. to_ranges H. unfold upper_char.
  destruct (between 97 122 c || between 224 246 c || between 248 254 c) eqn:E.
  - to_ranges E. lia.
  - destruct (Z.eqb_spec (ord c) 223); [lia|reflexivity].
Qed.

Lemma lstrip_plain (s : string) : forallb plain s = true -> lstrip s = s.
Proof.
  destruct s as [|c s]; simpl; [reflexivity|].
  rewrite andb_true_iff. intros [Hc _]. now rewrite (plain_not_space c Hc).
Qed.

Lemma rstrip_plain (s : string) : forallb plain s = true -> rstrip s = s.
Proof.
  induction s as [|c s IH]; simpl; [reflexivity|].
  rewrite andb_true_iff. intros [Hc Hs]. rewrite (IH Hs).
  destruct s; [now rewrite (plain_not_space c Hc)|reflexivity].
Qed.

Lemma strip_plain (s : string) : forallb plain s = true -> strip s = s.
Proof. intros H. unfold strip. rewrite (lstrip_plain s H). now apply rstrip_plain. Qed.

Lemma upper_plain (s : string) : forallb plain s = true -> upper s = s.
Proof.
  induction s as [|c s IH]; simpl; [reflexivity|].
  rewrite andb_true_iff. intros [Hc Hs].
  now rewrite (plain_upper_char c Hc), (IH Hs).
Qed.

Lemma span_app (p : ascii -> bool) (s t : string) :
  forallb p s = true ->
  match t with String c _ => p c = false | EmptyString => True end ->
  span p (s ++ t) = (s, t).
Proof.
  intros Hs Ht. induction s as [|c s IH]; simpl in *.
  - destruct t as [|c t]; simpl; [reflexivity|]. now rewrite Ht.
  - apply andb_true_iff in Hs as [Hc Hs]. now rewrite Hc, (IH Hs).
Qed.

Lemma A_Z_not_decimal (c : ascii) : isdecimal c = true -> is_A_Z c = false.
Proof.
  unfold is_A_Z, isdecimal. intros H. to_ranges H.
  destruct (between 65 90 c) eqn:E; [|reflexivity]. to_ranges E. lia.
Qed.

Lemma A_Z_cased (c : ascii) :
  is_A_Z c = true ->
  isalpha_char c = true /\ islower_char c = false /\ isupper_char c = true.
Proof.
  unfold is_A_Z. intros H. to_ranges H.
  assert (Hup : isupper_char c = true).
  { unfold isupper_char. to_ranges_goal. lia. }
  assert (Hlow : islower_char c = false).
  { destruct (islower_char c) eqn:E; [|reflexivity].
    unfold islower_char in E. to_ranges E. lia. }
  unfold isalpha_char. now rewrite Hup, Hlow.
Qed.

End PyStrFacts.

(** ** Facts on integers as text *)

Module PyIntFacts.
Import PyStr PyStrFacts PyInt.

Local Opaque Z.mul Z.add Z.pow Z.modulo Z.div Z.of_nat.

Lemma digit_char_decimal (d : Z) :
  0 <= d < 10 -> isdecimal (digit_char d) = true /\ digit_val (digit_char d) = d.
Proof.
  intros H. unfold digit_char, digit_val, isdecimal.
  rewrite between_spec, ord_chr by lia. lia.
Qed.

(** What [digits] writes before [acc]: decimal digits that read back as [n]. *)
Lemma digits_spec (fuel : nat) :
  forall n acc, 0 <= n -> Z.log2 n <= Z.of_nat fuel ->
  exists ds,
    digits fuel n acc = ds ++ acc
    /\ ds <> EmptyString
    /\ forallb isdecimal ds = true
    /\ forall a prev,
         digits_value a prev ds = Some (a * 10 ^ Z.of_nat (String.length ds) + n).
Proof.
  induction fuel as [|fuel IH]; intros n acc Hn Hlog.
  - assert (n < 10).
    { destruct (Z.eq_dec n 0) as [->|]; [lia|].
      assert (n < 2 ^ 1) as Hlt; [|change (2 ^ 1) with 2 in Hlt; lia].
      apply Z.log2_lt_pow2; simpl in *; lia. }
    exists (String (digit_char (n mod 10)) EmptyString).
    destruct (digit_char_decimal (n mod 10)) as [Hd Hv]; [apply Z.mod_pos_bound; lia|].
    simpl. rewrite Hd. repeat split; try discriminate.
    intros a prev. rewrite Hv, Z.mod_small by lia. f_equal.
    change (Z.of_nat 1) with 1. lia.
  - destruct (digit_char_decimal (n mod 10)) as [Hd Hv]; [apply Z.mod_pos_bound; lia|].
    simpl. destruct (Z.ltb_spec n 10) as [Hlt|Hge].
    + exists (String (digit_char (n mod 10)) EmptyString).
      simpl. rewrite Hd. repeat split; try discriminate.
      intros a prev. rewrite Hv, Z.mod_small by lia. f_equal.
      change (Z.of_nat 1) with 1. lia.
    + destruct (IH (n / 10) (String (digit_char (n mod 10)) acc)) as (ds & Heq & Hne & Hall & Hval).
      { apply Z.div_pos; lia. }
      { destruct (Z.log2_spec n ltac:(lia)) as [_ Hup].
        rewrite Z.pow_succ_r in Hup by apply Z.log2_nonneg.
        assert (0 < n / 10) by (apply Z.div_str_pos; lia).
        assert (n / 10 < 2 ^ Z.log2 n).
        { apply Z.div_lt_upper_bound; lia. }
        assert (Z.log2 (n / 10) < Z.log2 n); [|lia].
        apply Z.log2_lt_pow2; assumption. }
      exists (ds ++ String (digit_char (n mod 10)) EmptyString).
      split.
      { rewrite Heq, append_assoc. reflexivity. }
      split.
      { destruct ds; [congruence|discriminate]. }
      split.
      { rewrite forallb_app, Hall. simpl. now rewrite Hd. }
      intros a prev.
      assert (Hgen : forall ds' a' prev' k,
                 forallb isdecimal ds' = true ->
                 digits_value a' prev' ds' = Some k ->
                 digits_value a' prev' (ds' ++ String (digit_char (n mod 10)) EmptyString)
                 = Some (10 * k + n mod 10)).
      { induction ds' as [|c ds' IHd]; intros a' prev' k Hall' Hk; simpl in *.
        - rewrite Hd, Hv. destruct prev'; [|discriminate]. congruence.
        - apply andb_true_iff in Hall' as [Hc Hall']. rewrite Hc in *.
          now apply IHd. }
      rewrite (Hgen ds a prev _ Hall (Hval a prev)). f_equal.
      rewrite length_append. simpl String.length.
      rewrite Nat2Z.inj_add, Z.pow_add_r by lia. simpl (Z.of_nat 1).
      pose proof (Z.div_mod n 10 ltac:(lia)). lia.
Qed.

(** [int(str(n)) == n], with what the text is made of. *)
Lemma str_spec (n : Z) :
  0 <= n ->
  exists ds,
    str n = ds /\ ds <> EmptyString /\ forallb isdecimal ds = true
    /\ digits_value 0 false ds = Some n.
Proof.
  intros Hn. unfold str. destruct (Z.ltb_spec n 0) as [|_]; [lia|].
  destruct (digits_spec (Z.to_nat (Z.log2 n)) n EmptyString Hn) as (ds & Heq & Hne & Hall & Hval).
  { rewrite Z2Nat.id; [lia|apply Z.log2_nonneg]. }
  exists ds. rewrite Heq.
  rewrite append_empty_r.
  repeat split; auto.
Qed.

Lemma int_digits (ds : string) (n : Z) :
  ds <> EmptyString -> forallb isdecimal ds = true ->
  digits_value 0 false ds = Some n -> int ds = Some n.
Proof.
  intros Hne Hall Hval. unfold int.
  rewrite strip_plain.
  2:{ apply (forallb_impl isdecimal); [|exact Hall].
      intros c Hc. unfold plain. rewrite Hc. apply orb_true_r. }
  destruct ds as [|c ds]; [congruence|].
  simpl in Hall. apply andb_true_iff in Hall as [Hc _].
  assert (c <> "-"%char /\ c <> "+"%char) as [Hm Hp].
  { split; intros ->; discriminate. }
  destruct c as [[] [] [] [] [] [] [] []]; try exact Hval; congruence.
Qed.

End PyIntFacts.

(** ** cell_reference.py: the conversions invert each other *)

Module CellReferenceFacts.
Import PyStr PyStrFacts PyInt PyIntFacts CellReference.

Local Opaque Z.mul Z.add Z.pow Z.modulo Z.div Z.of_nat Z.sub.

Lemma A_Z_digit (c : ascii) :
  is_A_Z c = true -> 1 <= ord c - ord "A" + 1 <= 26.
Proof. intros H. apply between_spec in H. change (ord "A") with 65. lia. Qed.

Lemma loop_zero (fuel : nat) (column : string) :
  index_to_column_loop fuel 0 column = column.
Proof. destruct fuel; reflexivity. Qed.

(** One turn of the loop takes back the last letter that
    [_column_to_index] read. *)
Lemma loop_step (fuel : nat) (v : Z) (c : ascii) (acc : string) :
  is_A_Z c = true -> 0 <= v ->
  index_to_column_loop (S fuel) (v * 26 + (ord c - ord "A" + 1)) acc
  = index_to_column_loop fuel v (String c acc).
Proof.
  intros Hc Hv. pose proof (A_Z_digit c Hc) as Hd.
  change (ord "A") with 65 in *. cbn [index_to_column_loop].
  destruct (Z.ltb_spec 0 (v * 26 + (ord c - 65 + 1))) as [_|]; [|lia].
  replace (v * 26 + (ord c - 65 + 1) - 1) with (v * 26 + (ord c - 65)) by lia.
  rewrite Z.div_add_l, Z.div_small, Z.add_0_r by lia.
  rewrite (Z.add_comm (v * 26) (ord c - 65)), Z.mod_add, Z.mod_small by lia.
  change (ord "A") with 65.
  replace (65 + (ord c - 65)) with (ord c) by lia.
  now rewrite chr_ord.
Qed.

Lemma loop_unwind (column : string) :
  forall v fuel acc,
    forallb is_A_Z column = true -> 0 <= v ->
    (String.length column <= fuel)%nat ->
    index_to_column_loop fuel (column_to_index_loop column v) acc
    = index_to_column_loop (fuel - String.length column) v (column ++ acc).
Proof.
  induction column as [|c column IH]; intros v fuel acc Hall Hv Hfuel.
  - simpl. now rewrite Nat.sub_0_r.
  - simpl in Hall. apply andb_true_iff in Hall as [Hc Hall].
    pose proof (A_Z_digit c Hc) as Hd.
    cbn [column_to_index_loop String.length] in *.
    rewrite IH by (auto; lia).
    replace (fuel - String.length column)%nat
      with (S (fuel - S (String.length column))) by lia.
    now rewrite loop_step.
Qed.

Lemma column_value_lower (column : string) :
  forall v, forallb is_A_Z column = true -> 0 <= v ->
    (v + 1) * 2 ^ Z.of_nat (String.length column)
    <= column_to_index_loop column v + 1.
Proof.
  induction column as [|c column IH]; intros v Hall Hv.
  - simpl. change (Z.of_nat 0) with 0. rewrite Z.pow_0_r. lia.
  - simpl in Hall. apply andb_true_iff in Hall as [Hc Hall].
    pose proof (A_Z_digit c Hc) as Hd.
    cbn [column_to_index_loop String.length].
    specialize (IH (v * 26 + (ord c - ord "A" + 1)) Hall ltac:(lia)).
    rewrite Nat2Z.inj_succ, Z.pow_succ_r by apply Nat2Z.is_nonneg.
    assert (0 < 2 ^ Z.of_nat (String.length column))
      by (apply Z.pow_pos_nonneg; [lia|apply Nat2Z.is_nonneg]).
    nia.
Qed.

Lemma index_to_column_to_index (column : string) :
  column <> EmptyString -> forallb is_A_Z column = true ->
  _index_to_column (_column_to_index column) = column.
Proof.
  intros Hne Hall. unfold _index_to_column, _column_to_index.
  rewrite Z.sub_add.
  pose proof (column_value_lower column 0 Hall ltac:(lia)) as Hlow.
  rewrite loop_unwind; auto; try lia.
  - now rewrite loop_zero, append_empty_r.
  - destruct column as [|c column]; [congruence|].
    cbn [String.length] in *.
    rewrite Nat2Z.inj_succ, Z.pow_succ_r in Hlow by apply Nat2Z.is_nonneg.
    set (n := String.length column) in *.
    set (v := column_to_index_loop (String c column) 0) in *.
    assert (0 < 2 ^ Z.of_nat n)
      by (apply Z.pow_pos_nonneg; [lia|apply Nat2Z.is_nonneg]).
    assert (Z.of_nat n <= Z.log2 v).
    { apply Z.log2_le_pow2; lia. }
    lia.
Qed.

Lemma make_A_Z (column : string) (row : Z) :
  column <> EmptyString -> forallb is_A_Z column = true -> 1 <= row ->
  make column row = Ok (mk column row).
Proof.
  intros Hne Hall Hrow. unfold make, isalpha, isupper.
  assert (is_empty_str column = false) as -> by (destruct column; [congruence|reflexivity]).
  rewrite (forallb_impl is_A_Z isalpha_char column);
    [|intros c Hc; apply (A_Z_cased c Hc)|exact Hall].
  rewrite (forallb_impl is_A_Z (fun c => negb (islower_char c)) column);
    [|intros c Hc; destruct (A_Z_cased c Hc) as (_ & -> & _); reflexivity|exact Hall].
  assert (existsb isupper_char column = true) as ->.
  { destruct column as [|c column]; [congruence|]. simpl in *.
    apply andb_true_iff in Hall as [Hc _].
    destruct (A_Z_cased c Hc) as (_ & _ & ->). reflexivity. }
  simpl. destruct (Z.ltb_spec row 1); [lia|reflexivity].
Qed.

Lemma from_string_to_string (r : t) :
  column r <> EmptyString -> forallb is_A_Z (column r) = true -> 1 <= row r ->
  from_string (to_string r) = Ok r.
Proof.
  intros Hne Hall Hrow. destruct r as [column row]. simpl in *.
  unfold from_string, to_string. simpl.
  destruct (str_spec row ltac:(lia)) as (ds & -> & Hds & Hdec & Hval).
  assert (Hplain : forallb plain (column ++ ds) = true).
  { rewrite forallb_app, andb_true_iff. split.
    - apply (forallb_impl is_A_Z); [|exact Hall].
      intros c Hc. unfold plain. now rewrite Hc.
    - apply (forallb_impl isdecimal); [|exact Hdec].
      intros c Hc. unfold plain. rewrite Hc. apply orb_true_r. }
  rewrite strip_plain, upper_plain by (rewrite ?strip_plain; exact Hplain).
  unfold PATTERN_match. rewrite span_app; auto.
  2:{ destruct ds as [|c ds]; [exact I|]. simpl in Hdec.
      apply andb_true_iff in Hdec as [Hc _]. now apply A_Z_not_decimal. }
  assert (is_empty_str column = false) as -> by (destruct column; [congruence|reflexivity]).
  assert (is_empty_str ds = false) as -> by (destruct ds; [congruence|reflexivity]).
  rewrite Hdec. simpl. rewrite (int_digits ds row Hds Hdec Hval).
  now apply make_A_Z.
Qed.

Lemma from_indices_to_indices (r : t) :
  column r <> EmptyString -> forallb is_A_Z (column r) = true -> 1 <= row r ->
  from_indices (fst (to_indices r)) (snd (to_indices r)) = Ok r.
Proof.
  intros Hne Hall Hrow. destruct r as [column row]. simpl in *.
  unfold from_indices. rewrite index_to_column_to_index by assumption.
  rewrite Z.sub_add. now apply make_A_Z.
Qed.




End CellReferenceFacts.

(** ** expression_parser.py, cell.py: the stated examples and the cell's fields *)

Module ParserFacts.
Import ExpressionParser.

(** C7: the parser honours precedence and associativity: "2 + 3 * 4" is a
    sum whose right operand is the product of 3 and 4, and "2 ^ 3 ^ 2" is
    the power of 2 to the power of 3 to 2. *)
Theorem parse_precedence_and_associativity :
  parse "2 + 3 * 4"
  = Ok (BinaryOpNode "+" (NumberNode 2)
          (BinaryOpNode "*" (NumberNode 3) (NumberNode 4)))
  /\ parse "2 ^ 3 ^ 2"
     = Ok (BinaryOpNode "^" (NumberNode 2)
             (BinaryOpNode "^" (NumberNode 3) (NumberNode 2))).
Proof. split; vm_compute; reflexivity. Qed.

End ParserFacts.

Module CellFacts.
Import PyStr Cell.

(** C9: assigning a text that differs from the current one leaves the new
    text, no tree, no cached value, no error and the dirty flag set;
    assigning the current text leaves every field as it was. *)
Theorem expression_assignment (c : Cell.t) (value : string) :
  (value <> expression c ->
   set_expression value c = mk value None None None true)
  /\ set_expression (expression c) c = c.
Proof.
  unfold set_expression, invalidate. split.
  - intros Hne. destruct (String.eqb_spec (expression c) value) as [Heq|_].
    + now subst.
    + reflexivity.
  - now rewrite String.eqb_refl.
Qed.

Lemma expression_assignment_witness :
  let c := mk "=5+5" (Some (NumberNode 10)) (Some (PyInt 10)) None false in
  ("=2+2" <> expression c ->
   set_expression "=2+2" c = mk "=2+2" None None None true)
  /\ set_expression (expression c) c = c.
Proof.
  exact (expression_assignment
           (mk "=5+5" (Some (NumberNode 10)) (Some (PyInt 10)) None false) "=2+2").
Defined.




End CellFacts.

(** ** expression_parser.py: the tokenizer and the parser return *)

Module ParserRuns.
Import PyStr ExpressionParser.

Lemma length_drop (n : nat) (s : string) :
  (String.length (drop n s) <= String.length s)%nat.
Proof.
  revert s. induction n as [|n IH]; intros [|c s]; simpl; try lia.
  specialize (IH s). lia.
Qed.

Lemma span_first (p : ascii -> bool) (s : string) :
  is_empty_str (fst (span p s)) = false -> fst (span p s) <> EmptyString.
Proof. now destruct (fst (span p s)). Qed.

(** Every pattern of the tokenizer matches one character at least, and
    names a token that is not the end token. *)
Lemma first_match_token (prev : option ascii) (rest : string)
    (token_type v : string) :
  first_match TOKEN_PATTERNS prev rest = Some (token_type, v) ->
  v <> EmptyString /\ String.eqb token_type TOKEN_EOF = false.
Proof.
  unfold TOKEN_PATTERNS, first_match.
  repeat match goal with
         | |- context [match ?p prev rest with _ => _ end] =>
             let E := fresh "E" in
             destruct (p prev rest) eqn:E;
             [intros [= <- <-]; split; [|reflexivity]|clear E]
         end; try discriminate.
  - unfold pat_number in E. destruct (span isdecimal rest) as [ds r].
    destruct ds; [discriminate|]. now injection E as <-.
  - unfold pat_cell_ref in E. destruct (span is_A_Z rest) as [ls r].
    destruct (span isdecimal r) as [ds r']. destruct ls; [discriminate|].
    destruct (_ || _); [discriminate|]. now injection E as <-.
  - unfold pat_char in E. destruct rest; [discriminate|].
    destruct (Ascii.eqb _ _); [|discriminate]. now injection E as <-.
  - unfold pat_char in E. destruct rest; [discriminate|].
    destruct (Ascii.eqb _ _); [|discriminate]. now injection E as <-.
  - unfold pat_char in E. destruct rest; [discriminate|].
    destruct (Ascii.eqb _ _); [|discriminate]. now injection E as <-.
  - unfold pat_char in E. destruct rest; [discriminate|].
    destruct (Ascii.eqb _ _); [|discriminate]. now injection E as <-.
  - unfold pat_char in E. destruct rest; [discriminate|].
    destruct (Ascii.eqb _ _); [|discriminate]. now injection E as <-.
  - unfold pat_char in E. destruct rest; [discriminate|].
    destruct (Ascii.eqb _ _); [|discriminate]. now injection E as <-.
  - unfold pat_char in E. destruct rest; [discriminate|].
    destruct (Ascii.eqb _ _); [|discriminate]. now injection E as <-.
  - unfold pat_char in E. destruct rest; [discriminate|].
    destruct (Ascii.eqb _ _); [|discriminate]. now injection E as <-.
  - unfold pat_word in E. destruct (_ && _); [|discriminate]. now injection E as <-.
  - unfold pat_word in E. destruct (_ && _); [|discriminate]. now injection E as <-.
  - unfold pat_word in E. destruct (_ && _); [|discriminate]. now injection E as <-.
  - unfold pat_char in E. destruct rest; [discriminate|].
    destruct (Ascii.eqb _ _); [|discriminate]. now injection E as <-.
  - unfold pat_char in E. destruct rest; [discriminate|].
    destruct (Ascii.eqb _ _); [|discriminate]. now injection E as <-.
Qed.

(** The loop of the tokenizer ends within as many turns as the text has
    characters, with the tokens and the end token or with a syntax error. *)
Lemma tokenize_loop_returns (fuel : nat) :
  forall (prev : option ascii) (rest : string) (position : Z) (toks : list Token),
    (String.length rest <= fuel)%nat ->
    Forall (fun token => String.eqb (type token) TOKEN_EOF = false) toks ->
    match tokenize_loop fuel prev rest position toks with
    | Ok ts => tokenized ts
    | Raise (ExpressionSyntaxError _ _) => True
    | _ => False
    end.
Proof.
  induction fuel as [|fuel IH]; intros prev rest position toks Hlen Htoks.
  - destruct rest; [|simpl in Hlen; lia]. simpl. now exists toks, position.
  - destruct rest as [|c rest']; [simpl; now exists toks, position|].
    cbn [tokenize_loop]. destruct (isspace c).
    + apply IH; [simpl in Hlen; lia|exact Htoks].
    + destruct (first_match TOKEN_PATTERNS prev (String c rest')) as [[token_type v]|] eqn:E;
        [|exact I].
      destruct (first_match_token _ _ _ _ E) as [Hv Htype].
      apply IH.
      * destruct v as [|c' v']; [contradiction|]. cbn [String.length drop].
        pose proof (length_drop (String.length v') rest'). simpl in Hlen. lia.
      * apply Forall_app. split; [exact Htoks|]. constructor; [exact Htype|constructor].
Qed.

Lemma tokenize_returns (expression : string) :
  match _tokenize expression with
  | Ok ts => tokenized ts
  | Raise (ExpressionSyntaxError _ _) => True
  | _ => False
  end.
Proof. apply tokenize_loop_returns; [lia|constructor]. Qed.

(** *** The procedures of the grammar *)

Lemma current_token_eq (st : state) : _current_token st = (Ok (current st), st).
Proof. reflexivity. Qed.

Lemma consume_eq (expected : option string) (st : state) :
  _consume expected st
  = match expected with
    | Some e =>
        if negb (String.eqb (type (current st)) e)
        then (Raise (ExpressionSyntaxError
                       ("Очікувався " ++ e ++ ", знайдено " ++ type (current st))
                       (position (current st))), st)
        else (Ok (current st), advance st)
    | None => (Ok (current st), advance st)
    end.
Proof.
  unfold _consume, bind, _current_token. fold (current st).
  destruct expected as [e|]; [|reflexivity].
  now destruct (negb (String.eqb (type (current st)) e)).
Qed.

Section Tokens.

Variable ts : list Token.
Hypothesis Hts : tokenized ts.

(** A token that is not the end token has the end token after it. *)
Lemma current_real (st : state) :
  parsing ts st -> String.eqb (type (current st)) TOKEN_EOF = false ->
  (Datatypes.S (current_pos st) < List.length ts)%nat.
Proof.
  intros [Htok Hpos] Hreal. destruct Hts as (body & p & -> & _).
  rewrite length_app in *. simpl in *.
  destruct (Nat.eq_dec (current_pos st) (List.length body)) as [Heq|Hne]; [|lia].
  unfold current in Hreal. rewrite Htok, Heq, nth_middle in Hreal. discriminate.
Qed.

Lemma parses_ret (n : nat) {A : Type} (a : A) (st : state) : parses ts n (ret a) st.
Proof. intros Hp Ha. simpl. repeat split; try apply Hp; try lia. discriminate. Qed.

Lemma parses_raise (n : nat) {A : Type} (e : exn) (st : state) :
  parses ts n (@raise state A e) st.
Proof. intros Hp Ha. simpl. repeat split; try apply Hp; try lia. discriminate. Qed.

Lemma parses_le (n n' : nat) {A : Type} (m : P A) (st : state) :
  (n' <= n)%nat -> parses ts n m st -> parses ts n' m st.
Proof. intros Hle Hm Hp Ha. apply Hm; [exact Hp|lia]. Qed.

Lemma parses_bind (n : nat) {A B : Type} (m : P A) (k : A -> P B) (st : state) :
  parses ts n m st ->
  (forall a st', parses ts n (k a) st') ->
  parses ts n (bind m k) st.
Proof.
  intros Hm Hk Hp Ha. unfold bind. destruct (Hm Hp Ha) as (Hh & Hp1 & Ha1).
  destruct (m st) as [[a|e|h] st1]; cbn [fst snd] in *.
  - destruct (Hk a st1 Hp1) as (Hh2 & Hp2 & Ha2); [lia|].
    repeat split; try apply Hp2; try assumption. lia.
  - repeat split; try apply Hp1; try assumption. discriminate.
  - now destruct (Hh h).
Qed.

Lemma parses_current (n : nat) {A : Type} (k : Token -> P A) (st : state) :
  parses ts n (k (current st)) st -> parses ts n (bind _current_token k) st.
Proof. intros Hk. exact Hk. Qed.

(** Consuming a token that is not the end token leaves one token less
    ahead. *)
Lemma parses_consume (n : nat) {A : Type} (expected : option string)
    (k : Token -> P A) (st : state) :
  String.eqb (type (current st)) TOKEN_EOF = false ->
  (forall n', n = Datatypes.S n' -> parses ts n' (k (current st)) (advance st)) ->
  parses ts n (bind (_consume expected) k) st.
Proof.
  intros Hreal Hk Hp Ha. pose proof (current_real st Hp Hreal) as Hnext.
  destruct Hp as [Htok Hpos].
  assert (Hadv : parsing ts (advance st)) by (split; [exact Htok|exact Hnext]).
  assert (Hahead : Datatypes.S (ahead (advance st)) = ahead st).
  { unfold ahead, advance. cbn [tokens current_pos]. rewrite Htok. lia. }
  unfold bind. rewrite consume_eq.
  assert (Hgo : (forall h, fst (k (current st) (advance st)) <> Halt h)
                /\ parsing ts (snd (k (current st) (advance st)))
                /\ (ahead (snd (k (current st) (advance st))) <= ahead st)%nat).
  { destruct n as [|n']; [lia|].
    destruct (Hk n' eq_refl Hadv) as (Hh & Hp2 & Ha2); [lia|].
    repeat split; try apply Hp2; try assumption. lia. }
  destruct expected as [e|]; [|exact Hgo].
  destruct (negb _); [|exact Hgo].
  cbn [fst snd]. repeat split; try assumption; try lia. discriminate.
Qed.

Lemma type_in_real (token : Token) (types : list string) :
  type_in token types = true ->
  List.existsb (String.eqb TOKEN_EOF) types = false ->
  String.eqb (type token) TOKEN_EOF = false.
Proof.
  unfold type_in. intros Hin Hno.
  destruct (String.eqb_spec (type token) TOKEN_EOF) as [Heq|]; [|reflexivity].
  rewrite Heq in Hin. congruence.
Qed.

(** The loop of a level of binary operators: a turn consumes its
    operator. *)
Lemma parses_binary_loop (types : list string) (operator : Token -> string)
    (operand : P ASTNode) :
  List.existsb (String.eqb TOKEN_EOF) types = false ->
  forall (turns n : nat) (left : ASTNode) (st : state),
    (n <= turns)%nat ->
    (forall st', parses ts n operand st') ->
    parses ts n (binary_loop turns types operator operand left) st.
Proof.
  intros Hno. induction turns as [|turns IH]; intros n left st Hn Hop.
  - cbn [binary_loop]. apply parses_current.
    destruct (type_in (current st) types) eqn:E; [|apply parses_ret].
    intros Hp Ha. pose proof (current_real st Hp (type_in_real _ _ E Hno)).
    destruct Hp as [Htok _]. unfold ahead in Ha. rewrite Htok in Ha. lia.
  - cbn [binary_loop]. apply parses_current.
    destruct (type_in (current st) types) eqn:E; [|apply parses_ret].
    apply parses_consume; [exact (type_in_real _ _ E Hno)|].
    intros n' ->. apply parses_bind.
    + apply (parses_le (Datatypes.S n')); [lia|apply Hop].
    + intros right st'. apply IH; [lia|].
      intros st''. apply (parses_le (Datatypes.S n')); [lia|apply Hop].
Qed.

(** Every procedure returns or raises with nine units of fuel for each
    token ahead, and one for each procedure below it. *)
Lemma parses_grammar (fuel : nat) :
  forall n,
    ((9 * n + 9 <= fuel)%nat -> forall st, parses ts n (_parse_expression fuel) st)
    /\ ((9 * n + 8 <= fuel)%nat -> forall st, parses ts n (_parse_logical_or fuel) st)
    /\ ((9 * n + 7 <= fuel)%nat -> forall st, parses ts n (_parse_logical_and fuel) st)
    /\ ((9 * n + 6 <= fuel)%nat -> forall st, parses ts n (_parse_comparison fuel) st)
    /\ ((9 * n + 5 <= fuel)%nat -> forall st, parses ts n (_parse_additive fuel) st)
    /\ ((9 * n + 4 <= fuel)%nat -> forall st, parses ts n (_parse_multiplicative fuel) st)
    /\ ((9 * n + 3 <= fuel)%nat -> forall st, parses ts n (_parse_power fuel) st)
    /\ ((9 * n + 2 <= fuel)%nat -> forall st, parses ts n (_parse_unary fuel) st)
    /\ ((9 * n + 1 <= fuel)%nat -> forall st, parses ts n (_parse_primary fuel) st).
Proof.
  induction fuel as [|fuel IH]; intros n;
    [repeat match goal with |- _ /\ _ => split end; intros Hfuel; lia|].
  destruct (IH n) as (Hexpr & Hor & Hand & Hcmp & Hadd & Hmul & Hpow & Hun & Hprim).
  repeat match goal with |- _ /\ _ => split end; intros Hfuel st.
  - cbn [_parse_expression]. apply Hor. lia.
  - cbn [_parse_logical_or]. apply parses_bind; [apply Hand; lia|]. intros left st'.
    apply parses_binary_loop; [reflexivity|lia|]. apply Hand. lia.
  - cbn [_parse_logical_and]. apply parses_bind; [apply Hcmp; lia|]. intros left st'.
    apply parses_binary_loop; [reflexivity|lia|]. apply Hcmp. lia.
  - cbn [_parse_comparison]. apply parses_bind; [apply Hadd; lia|]. intros left st'.
    apply parses_current.
    destruct (type_in (current st') _) eqn:E; [|apply parses_ret].
    apply parses_consume; [exact (type_in_real _ _ E eq_refl)|]. intros n' ->.
    apply parses_bind; [|intros; apply parses_ret].
    destruct (IH n') as (_ & _ & _ & _ & H & _). apply H. lia.
  - cbn [_parse_additive]. apply parses_bind; [apply Hmul; lia|]. intros left st'.
    apply parses_binary_loop; [reflexivity|lia|]. apply Hmul. lia.
  - cbn [_parse_multiplicative]. apply parses_bind; [apply Hpow; lia|]. intros left st'.
    apply parses_binary_loop; [reflexivity|lia|]. apply Hpow. lia.
  - cbn [_parse_power]. apply parses_bind; [apply Hun; lia|]. intros left st'.
    apply parses_current.
    destruct (String.eqb (type (current st')) TOKEN_POWER) eqn:E; [|apply parses_ret].
    apply parses_consume.
    { apply String.eqb_eq in E. now rewrite E. }
    intros n' ->. apply parses_bind; [|intros; apply parses_ret].
    destruct (IH n') as (_ & _ & _ & _ & _ & _ & H & _). apply H. lia.
  - cbn [_parse_unary]. apply parses_current.
    destruct (type_in (current st) _) eqn:E; [|apply Hprim; lia].
    apply parses_consume; [exact (type_in_real _ _ E eq_refl)|]. intros n' ->.
    apply parses_bind; [|intros; apply parses_ret].
    destruct (IH n') as (_ & _ & _ & _ & _ & _ & _ & H & _). apply H. lia.
  - cbn [_parse_primary]. apply parses_current.
    destruct (String.eqb (type (current st)) TOKEN_NUMBER) eqn:E1.
    { apply parses_consume; [apply String.eqb_eq in E1; now rewrite E1|].
      intros n' ->. destruct (PyInt.int _); [apply parses_ret|apply parses_raise]. }
    destruct (String.eqb (type (current st)) TOKEN_CELL_REF) eqn:E2.
    { apply parses_consume; [apply String.eqb_eq in E2; now rewrite E2|].
      intros n' ->.
      destruct (CellReference.from_string _) as [ref|e|h] eqn:Eref;
        [apply parses_ret|destruct e; apply parses_raise|].
      unfold CellReference.from_string in Eref.
      destruct (CellReference.PATTERN_match _) as [[letters digits]|]; [|discriminate].
      destruct (PyInt.int digits); [|discriminate].
      unfold CellReference.make in Eref.
      destruct (_ || _); [discriminate|]. destruct (_ <? 1); discriminate. }
    destruct (String.eqb (type (current st)) TOKEN_LPAREN) eqn:E3; [|apply parses_raise].
    apply parses_consume; [apply String.eqb_eq in E3; now rewrite E3|].
    intros n' ->. apply parses_bind.
    + destruct (IH n') as (H & _). apply H. lia.
    + intros expr st'. intros Hp Ha.
      destruct (String.eqb (type (current st')) TOKEN_EOF) eqn:E4.
      * unfold bind. rewrite consume_eq.
        apply String.eqb_eq in E4. rewrite E4.
        change (negb (String.eqb TOKEN_EOF TOKEN_RPAREN)) with true. cbn [fst snd].
        repeat split; try apply Hp; try lia. discriminate.
      * revert Hp Ha. apply parses_consume; [exact E4|].
        intros n'' _. apply parses_ret.
Qed.

End Tokens.

(** [parse] returns a tree or raises [ExpressionSyntaxError]. *)
Lemma parse_returns (expression : string) :
  (exists ast, parse expression = Ok ast)
  \/ (exists message position,
        parse expression = Raise (ExpressionSyntaxError message position)).
Proof.
  unfold parse. destruct (is_empty_str (strip expression)); [right; eauto|].
  pose proof (tokenize_returns (strip expression)) as Htok.
  destruct (_tokenize (strip expression)) as [ts|e|h]; [|destruct e; try contradiction; right; eauto|contradiction].
  set (st := mkState ts 0).
  assert (Hp : parsing ts st).
  { split; [reflexivity|]. destruct Htok as (body & p & -> & _).
    rewrite length_app. simpl. lia. }
  destruct (parses_grammar ts Htok (10 * Datatypes.S (List.length ts))
              (List.length ts)) as (Hexpr & _).
  destruct (Hexpr ltac:(lia) st Hp) as (Hh & Hp1 & Ha1); [unfold ahead; simpl; lia|].
  unfold try_except, bind.
  destruct (_parse_expression (10 * Datatypes.S (List.length ts)) st) as [[ast|e|h] st1];
    cbn [fst snd] in *.
  - rewrite current_token_eq. destruct (negb _); cbn; [right|left]; eauto.
  - destruct e; cbn; right; eauto.
  - now destruct (Hh h).
Qed.

(** The tokenizer returns its tokens closed by the end token, or raises
    [ExpressionSyntaxError]; [parse] returns a tree or raises
    [ExpressionSyntaxError], whatever the text: no other exception leaves
    the parser, and the descent ends. *)
Theorem parser_returns (expression : string) :
  match _tokenize expression with
  | Ok ts => tokenized ts
  | Raise e => exists message position, e = ExpressionSyntaxError message position
  | Halt _ => False
  end
  /\ match parse expression with
     | Ok _ => True
     | Raise e => exists message position, e = ExpressionSyntaxError message position
     | Halt _ => False
     end.
Proof.
  split.
  - pose proof (tokenize_returns expression) as H.
    destruct (_tokenize expression) as [ts|e|h]; [exact H| |exact H].
    destruct e; try contradiction. eauto.
  - destruct (parse_returns expression) as [(ast & ->)|(m & p & ->)]; eauto.
Qed.

End ParserRuns.

(** ** expression_evaluator.py: the operators *)

Module EvaluatorFacts.
Import TableService.

Lemma accept_binary (fuel : nat) (operator : string) (lhs rhs : ASTNode) :
  accept fuel (BinaryOpNode operator lhs rhs)
  = visit_binary_op operator (accept fuel lhs) (accept fuel rhs).
Proof. destruct fuel; reflexivity. Qed.

Lemma accept_unary (fuel : nat) (operator : string) (operand : ASTNode) :
  accept fuel (UnaryOpNode operator operand)
  = visit_unary_op operator (accept fuel operand).
Proof. destruct fuel; reflexivity. Qed.

Lemma accept_number (fuel : nat) (value : Z) :
  accept fuel (NumberNode value) = visit_number value.
Proof. destruct fuel; reflexivity. Qed.





Lemma truediv_no_EvaluationError (l r : pyval) :
  raises_EvaluationError (PyNum.truediv l r) = false.
Proof.
  unfold PyNum.truediv, PyNum.float_op, PyNum.to_float, PyNum.int_to_float.
  destruct l as [x|f], r as [y|g];
    repeat match goal with
           | |- context [if ?b then _ else _] => destruct b
           end; reflexivity.
Qed.

(** C4, as amended: when both operands evaluate, the node [/] raises the
    EvaluationError of a division by zero if and only if the divisor equals
    0; otherwise it is Python's [round(left / right, 3)]: for two integers
    the double nearest to the quotient, brought to the nearest multiple of
    1/1000, or an OverflowError when the quotient is beyond the doubles.
    The formula "=5/2" gives exactly 2.5 and "=5/0" the error of a division
    by zero. *)
Theorem division (fuel : nat) (lhs rhs : ASTNode) (self self1 self2 : t)
    (l r : pyval) :
  accept fuel lhs self = (Ok l, self1) ->
  accept fuel rhs self1 = (Ok r, self2) ->
  accept fuel (BinaryOpNode "/" lhs rhs) self
  = (if PyNum.eq r (PyInt 0) then Raise (EvaluationError "Ділення на нуль")
     else match PyNum.truediv l r with
          | Ok q => Ok (PyNum.round_3 q)
          | Raise e => Raise e
          | Halt h => Halt h
          end,
     self2)
  /\ (raises_EvaluationError (fst (accept fuel (BinaryOpNode "/" lhs rhs) self)) = true
      <-> PyNum.eq r (PyInt 0) = true)
  /\ (forall x y,
        y <> 0 ->
        PyNum.truediv (PyInt x) (PyInt y)
        = (let q := SFdiv PyNum.prec PyNum.emax (PyNum.exact x) (PyNum.exact y) in
           if PyNum.is_infinity q
           then Raise (OverflowError "integer division result too large for a float")
           else Ok (PyFloat q)))
  /\ (forall q, PyNum.round_3 (PyFloat q) = PyFloat (PyNum.round3 q))
  /\ cached_value_and_error (formula_in_A1 fuel "=5/2")
     = (Some (PyFloat (S754_finite false 5629499534213120 (-51))), None)
  /\ 5629499534213120 * 2 = 5 * 2 ^ 51
  /\ cached_value_and_error (formula_in_A1 fuel "=5/0")
     = (None, Some "Ділення на нуль").
Proof.
  intros Hl Hr.
  assert (Heq : accept fuel (BinaryOpNode "/" lhs rhs) self
                = (if PyNum.eq r (PyInt 0) then Raise (EvaluationError "Ділення на нуль")
                   else match PyNum.truediv l r with
                        | Ok q => Ok (PyNum.round_3 q)
                        | Raise e => Raise e
                        | Halt h => Halt h
                        end,
                   self2)).
  { rewrite accept_binary. unfold visit_binary_op. simpl.
    unfold bind at 1. rewrite Hl. unfold bind at 1. rewrite Hr.
    destruct (PyNum.eq r (PyInt 0)); [reflexivity|].
    unfold bind, lift, ret. destruct (PyNum.truediv l r); reflexivity. }
  split; [exact Heq|]. split; [|split; [|repeat split]].
  - rewrite Heq. simpl. destruct (PyNum.eq r (PyInt 0)); [tauto|].
    pose proof (truediv_no_EvaluationError l r) as Hno.
    destruct (PyNum.truediv l r); simpl in *; split; congruence.
  - intros x y Hy. unfold PyNum.truediv.
    destruct (Z.eqb_spec y 0) as [|_]; [contradiction|]. reflexivity.
  - destruct fuel; reflexivity.
  - destruct fuel; reflexivity.
Qed.

Lemma division_witness :
  accept 0 (BinaryOpNode "/" (NumberNode 1) (NumberNode 3)) new
  = (Ok (PyFloat (SFdiv PyNum.prec PyNum.emax (PyNum.exact 333) (PyNum.exact 1000))),
     new).
Proof.
  exact (proj1 (division 0 (NumberNode 1) (NumberNode 3) new new new
                  (PyInt 1) (PyInt 3) eq_refl eq_refl)).
Defined.

(** C4, as stated, fails.  The divisor of "=10^400/1" is 1, yet no quotient
    comes back: the quotient is beyond the doubles, and the evaluation ends
    in an EvaluationError.  The quotient of "=(10^20+1)/(16*10^20)" lies
    above 0.0625, so that to three decimals it is 0.063; the evaluator
    rounds the double nearest to it, which is 0.0625, to 0.062. *)
Lemma division_is_not_the_exact_quotient :
  let huge := BinaryOpNode "/" (BinaryOpNode "^" (NumberNode 10) (NumberNode 400))
                (NumberNode 1) in
  let close := BinaryOpNode "/" (NumberNode (10 ^ 20 + 1)) (NumberNode (16 * 10 ^ 20)) in
  fst (accept 0 (NumberNode 1) new) = Ok (PyInt 1)
  /\ fst (evaluate 0 huge None new)
     = Raise (EvaluationError
                "Помилка обчислення: integer division result too large for a float")
  /\ cached_value_and_error (formula_in_A1 0 "=10^400/1")
     = (None, Some "Помилка обчислення: integer division result too large for a float")
  /\ 62 * (16 * 10 ^ 20) + (16 * 10 ^ 20) / 2 < 1000 * (10 ^ 20 + 1)
  /\ fst (evaluate 0 close None new)
     = Ok (PyFloat (SFdiv PyNum.prec PyNum.emax (PyNum.exact 62) (PyNum.exact 1000))).
Proof. repeat split; vm_compute; reflexivity. Qed.

(** A power whose exponent evaluates below zero raises the EvaluationError
    of a negative power, and both operands are evaluated first; the formula
    "=2^-1" leaves that error in its cell. *)
Theorem negative_exponent (fuel : nat) (lhs rhs : ASTNode) (self self1 self2 : t)
    (l r : pyval) :
  accept fuel lhs self = (Ok l, self1) ->
  accept fuel rhs self1 = (Ok r, self2) ->
  PyNum.lt r (PyInt 0) = true ->
  accept fuel (BinaryOpNode "^" lhs rhs) self
  = (Raise (EvaluationError "Від'ємний степінь не підтримується"), self2)
  /\ cached_value_and_error (formula_in_A1 fuel "=2^-1")
     = (None, Some "Від'ємний степінь не підтримується").
Proof.
  intros Hl Hr Hlt. split; [|destruct fuel; reflexivity].
  rewrite accept_binary. unfold visit_binary_op. simpl.
  unfold bind at 1. rewrite Hl. unfold bind at 1. rewrite Hr. now rewrite Hlt.
Qed.

Lemma negative_exponent_witness :
  accept 0 (BinaryOpNode "^" (NumberNode 2) (UnaryOpNode "-" (NumberNode 1))) new
  = (Raise (EvaluationError "Від'ємний степінь не підтримується"), new).
Proof.
  exact (proj1 (negative_exponent 0 (NumberNode 2) (UnaryOpNode "-" (NumberNode 1))
                  new new new (PyInt 2) (PyInt (-1)) eq_refl eq_refl eq_refl)).
Defined.

(** ** table_service.py: cycles and resizing *)

Lemma visit_cell_ref_on_stack (provider : CellReference.t -> S pyval)
    (ref : CellReference.t) (self : t) :
  List.existsb (String.eqb (CellReference.to_string ref)) (_evaluation_stack self) = true ->
  visit_cell_ref provider ref self
  = (Raise (CircularReferenceError
              ("Виявлено циклічне посилання на клітинку " ++ CellReference.to_string ref)),
     self).
Proof.
  intros H. unfold visit_cell_ref, bind, stack_contains, raise. now rewrite H.
Qed.

(** An evaluation seeded with the reference that its tree is raises the
    circular-reference error at once. *)
Lemma evaluate_seeded_reference (fuel : nat) (ref : CellReference.t) (self : t) :
  evaluate fuel (CellRefNode ref) (Some ref) self
  = (Raise (CircularReferenceError
              ("Виявлено циклічне посилання на клітинку "
               ++ CellReference.to_string ref)),
     mk (table self) [CellReference.to_string ref]).
Proof.
  unfold evaluate.
  unfold bind at 1. unfold stack_clear. unfold bind at 1. unfold stack_add. simpl.
  unfold try_except.
  assert (accept fuel (CellRefNode ref)
          = visit_cell_ref
              (match fuel with
               | O => fun _ => halts OutOfFuel
               | Datatypes.S fuel' => _get_cell_value_for_evaluator (accept fuel')
               end) ref) as -> by (destruct fuel; reflexivity).
  rewrite visit_cell_ref_on_stack; [reflexivity|].
  simpl. now rewrite String.eqb_refl.
Qed.

(** What the value provider raises comes back from [visit_cell_ref] as a
    CellReferenceError, whatever it was. *)
Lemma visit_cell_ref_wraps (provider : CellReference.t -> S pyval)
    (ref : CellReference.t) (self self' : t) (e : exn) :
  List.existsb (String.eqb (CellReference.to_string ref)) (_evaluation_stack self) = false ->
  provider ref (mk (table self) (CellReference.to_string ref :: _evaluation_stack self))
  = (Raise e, self') ->
  fst (visit_cell_ref provider ref self)
  = Raise (CellReferenceError
             ("Помилка отримання значення клітинки " ++ CellReference.to_string ref
              ++ ": " ++ exn_str e)).
Proof.
  intros Hstack Hp. unfold visit_cell_ref, bind, stack_contains. rewrite Hstack.
  unfold stack_add. rewrite Hstack. unfold try_finally, try_except. now rewrite Hp.
Qed.

(** C1 fails.  The reference to a cell on the evaluation stack raises the
    circular-reference error, but an exception that the value provider
    raises, the circular-reference error among them, comes back from
    [visit_cell_ref] as a CellReferenceError.  On the table where A1 holds
    "=B1" and B1 holds "=A1" the evaluation of A1 ends in a
    CellReferenceError, and neither cell holds the text of a
    circular-reference error after the pass. *)
Theorem cycle_through_provider_is_wrapped (fuel : nat) :
  (forall provider ref self self' message,
     List.existsb (String.eqb (CellReference.to_string ref)) (_evaluation_stack self)
     = false ->
     provider ref (mk (table self) (CellReference.to_string ref :: _evaluation_stack self))
     = (Raise (CircularReferenceError message), self') ->
     fst (visit_cell_ref provider ref self)
     = Raise (CellReferenceError
                ("Помилка отримання значення клітинки " ++ CellReference.to_string ref
                 ++ ": " ++ message)))
  /\ fst (evaluate (Datatypes.S fuel) (CellRefNode B1) (Some A1) two_cell_cycle)
     = Raise (CellReferenceError
                "Помилка отримання значення клітинки B1: Виявлено циклічне посилання на клітинку A1")
  /\ (let self := after (calculate_all (Datatypes.S fuel)) two_cell_cycle in
      Cell.error (cell_at self 0 0)
      = Some "Помилка отримання значення клітинки B1: Виявлено циклічне посилання на клітинку A1"
      /\ Cell.error (cell_at self 0 1)
         = Some "Помилка отримання значення клітинки A1: Клітинка A1 має помилку: Помилка отримання значення клітинки B1: Виявлено циклічне посилання на клітинку A1").
Proof.
  split.
  - intros provider ref self self' message Hstack Hp.
    exact (visit_cell_ref_wraps provider ref self self' _ Hstack Hp).
  - destruct fuel; repeat split; vm_compute; reflexivity.
Qed.

Lemma lookup_invalidated (k : Table.key) (d : list (Table.key * Cell.t)) :
  Table.lookup k (map (fun kc => (fst kc, Cell.invalidate (snd kc))) d)
  = option_map Cell.invalidate (Table.lookup k d).
Proof.
  induction d as [|[k' c] d IH]; simpl; [reflexivity|].
  now destruct (Table.key_eqb k k').
Qed.

(** A pass over a table whose cells hold no tree calculates nothing. *)
Lemma calculate_loop_without_trees (fuel : nat) (self : t) :
  (forall k c, Table.lookup k (Table.cells (table self)) = Some c -> Cell.ast c = None) ->
  forall entries, calculate_loop fuel entries self = (Ok tt, self).
Proof.
  intros Hnone. induction entries as [|[[row col] c] entries IH]; [reflexivity|].
  cbn [calculate_loop]. unfold bind at 1.
  destruct (Table.lookup (row, col) (Table.cells (table self))) as [cell|] eqn:E;
    [|exact IH].
  rewrite (Hnone _ _ E), andb_false_r. exact IH.
Qed.

(** C6 fails.  [resize_table] to sizes of one at least invalidates every
    cell that it keeps, which drops the tree of every formula, so that the
    evaluation pass that follows calculates nothing and changes nothing.
    On the table where A1 holds "=C3": after [resize_table 2 2] the cell C3
    is gone and so is the tree of A1; the pass skips A1 and leaves it
    without error and without value.  Had the tree been kept, the pass
    would have left the error of the missing cell. *)
Theorem resize_table_drops_the_trees (fuel : nat) :
  (forall self rows columns,
     1 <= rows -> 1 <= columns ->
     let resized := after (resize_table rows columns) self in
     (forall row col, Cell.ast (cell_at resized row col) = None)
     /\ calculate_all fuel resized = (Ok tt, resized))
  /\ (let before := table_with_C3 (Datatypes.S fuel) in
      let self := after (resize_table 2 2 ;;; calculate_all (Datatypes.S fuel)) before in
      let kept := after (on_table (Table.resize 2 2) ;;; calculate_all (Datatypes.S fuel))
                    before in
      cached_value_and_error (cell_at before 0 0) = (Some (PyInt 7), None)
      /\ Table.lookup (2, 2) (Table.cells (table self)) = None
      /\ Cell.expression (cell_at self 0 0) = "=C3"
      /\ Cell.ast (cell_at self 0 0) = None
      /\ cached_value_and_error (cell_at self 0 0) = (None, None)
      /\ Cell.get_display_value (cell_at self 0 0) = Ok "?"
      /\ cached_value_and_error (cell_at kept 0 0)
         = (None,
            Some "Помилка отримання значення клітинки C3: Індекс рядка 2 виходить за межі таблиці")).
Proof.
  split.
  - intros self rows columns Hrows Hcols. cbv zeta.
    assert (Hcells : exists d,
               after (resize_table rows columns) self
               = mk (Table.mk rows columns
                       (map (fun kc => (fst kc, Cell.invalidate (snd kc))) d))
                    (_evaluation_stack self)).
    { unfold after, resize_table, bind, on_table, Table.resize.
      destruct (Z.ltb_spec rows 1); [lia|]. destruct (Z.ltb_spec columns 1); [lia|].
      cbn [orb fst snd table Table.invalidate_all Table.rows Table.columns Table.cells].
      eexists. reflexivity. }
    destruct Hcells as [d ->].
    assert (Hnone : forall k c,
               Table.lookup k (map (fun kc => (fst kc, Cell.invalidate (snd kc))) d) = Some c ->
               Cell.ast c = None).
    { intros k c. rewrite lookup_invalidated.
      destruct (Table.lookup k d); [|discriminate]. now intros [= <-]. }
    split.
    + intros row col. unfold cell_at. cbn [table Table.cells].
      destruct (Table.lookup (row, col) _) as [c|] eqn:E; [|reflexivity].
      exact (Hnone _ _ E).
    + unfold calculate_all. now apply calculate_loop_without_trees.
  - destruct fuel; repeat split; vm_compute; reflexivity.
Qed.

End EvaluatorFacts.

(** ** table.py: reading and writing cells *)

Module TableFacts.
Import Table.

Lemma key_eqb_eq (a b : key) : key_eqb a b = true <-> a = b.
Proof.
  unfold key_eqb. destruct a as [r c], b as [r' c']. simpl.
  rewrite andb_true_iff, !Z.eqb_eq. split; [intros [-> ->]; reflexivity|].
  intros [= -> ->]. auto.
Qed.

Lemma key_eqb_refl (a : key) : key_eqb a a = true.
Proof. now apply key_eqb_eq. Qed.

Lemma key_eqb_neq (a b : key) : a <> b -> key_eqb a b = false.
Proof.
  intros H. destruct (key_eqb a b) eqn:E; [|reflexivity].
  now apply key_eqb_eq in E.
Qed.

Lemma lookup_app (k : key) (d e : list (key * Cell.t)) :
  lookup k (d ++ e) = match lookup k d with Some c => Some c | None => lookup k e end.
Proof.
  induction d as [|[k' c] d IH]; simpl; [reflexivity|].
  now destruct (key_eqb k k').
Qed.

Lemma lookup_None_iff (k : key) (d : list (key * Cell.t)) :
  lookup k d = None <-> ~ In k (map fst d).
Proof.
  induction d as [|[k' c] d IH]; simpl; [tauto|].
  destruct (key_eqb k k') eqn:E.
  - apply key_eqb_eq in E. subst. split; [discriminate|tauto].
  - rewrite IH. split; [|tauto]. intros H [Heq|Hin]; [|tauto].
    subst. now rewrite key_eqb_refl in E.
Qed.

Lemma lookup_In (k : key) (c : Cell.t) (d : list (key * Cell.t)) :
  NoDup (map fst d) -> In (k, c) d -> lookup k d = Some c.
Proof.
  induction d as [|[k' c'] d IH]; simpl; [tauto|].
  intros Hnd [Heq|Hin].
  - injection Heq as -> ->. now rewrite key_eqb_refl.
  - inversion Hnd as [|? ? Hnotin Hnd']; subst.
    destruct (key_eqb k k') eqn:E.
    + apply key_eqb_eq in E. subst. exfalso. apply Hnotin.
      change k' with (fst (k', c)). now apply in_map.
    + now apply IH.
Qed.

Lemma lookup_Some_In (k : key) (c : Cell.t) (d : list (key * Cell.t)) :
  lookup k d = Some c -> In (k, c) d.
Proof.
  induction d as [|[k' c'] d IH]; simpl; [discriminate|].
  destruct (key_eqb k k') eqn:E.
  - apply key_eqb_eq in E. intros [= ->]. subst. now left.
  - intros H. right. now apply IH.
Qed.

Lemma cell_of_app_new (k k' : key) (d : list (key * Cell.t)) :
  lookup k d = None ->
  cell_of (d ++ [(k, Cell.new "")]) k' = cell_of d k'.
Proof.
  intros Hk. unfold cell_of. rewrite lookup_app.
  destruct (lookup k' d) as [c|] eqn:E; [reflexivity|].
  simpl. now destruct (key_eqb k' k).
Qed.

Lemma lookup_update (k k' : key) (f : Cell.t -> Cell.t) (d : list (key * Cell.t)) :
  lookup k' (update k f d)
  = if key_eqb k' k then option_map f (lookup k d) else lookup k' d.
Proof.
  induction d as [|[k0 c] d IH]; simpl.
  - now destruct (key_eqb k' k).
  - destruct (key_eqb k k0) eqn:E; simpl.
    + apply key_eqb_eq in E. subst k0.
      destruct (key_eqb k' k); reflexivity.
    + destruct (key_eqb k' k0) eqn:E'.
      * apply key_eqb_eq in E'. subst k0.
        destruct (key_eqb k' k) eqn:E2; [|reflexivity].
        apply key_eqb_eq in E2. subst. now rewrite key_eqb_refl in E.
      * exact IH.
Qed.

Lemma cell_of_update (k k' : key) (f : Cell.t -> Cell.t) (d : list (key * Cell.t)) :
  cell_of (update k f d) k'
  = if key_eqb k' k
    then match lookup k d with Some c => f c | None => Cell.new "" end
    else cell_of d k'.
Proof.
  unfold cell_of. rewrite lookup_update.
  destruct (key_eqb k' k); [|reflexivity]. now destruct (lookup k d).
Qed.

Lemma map_fst_update (k : key) (f : Cell.t -> Cell.t) (d : list (key * Cell.t)) :
  map fst (update k f d) = map fst d.
Proof.
  induction d as [|[k0 c] d IH]; simpl; [reflexivity|].
  destruct (key_eqb k k0); simpl; congruence.
Qed.

(** A cell that is not empty is stored in the table. *)
Lemma cell_of_not_empty (d : list (key * Cell.t)) (k : key) :
  Cell.is_empty (cell_of d k) = false -> lookup k d = Some (cell_of d k).
Proof.
  unfold cell_of. destruct (lookup k d); [reflexivity|]. discriminate.
Qed.

(** [get_cell]: the answer depends on the sizes only; the cell returned is
    the one of the position; no cell changes. *)
Lemma get_cell_spec (row col : Z) (self : t) :
  let r := get_cell row col self in
  rows (snd r) = rows self /\ columns (snd r) = columns self
  /\ (forall k, cell_of (cells (snd r)) k = cell_of (cells self) k)
  /\ (if (0 <=? row) && (row <? rows self)
      then if (0 <=? col) && (col <? columns self)
           then fst r = Ok (cell_of (cells self) (row, col))
                /\ lookup (row, col) (cells (snd r)) = Some (cell_of (cells self) (row, col))
           else fst r = Raise (IndexError ("Індекс стовпчика " ++ PyInt.str col
                                           ++ " виходить за межі таблиці"))
      else fst r = Raise (IndexError ("Індекс рядка " ++ PyInt.str row
                                      ++ " виходить за межі таблиці"))).
Proof.
  unfold get_cell, bind, _validate_indices, cell_of.
  destruct ((0 <=? row) && (row <? rows self)); simpl; [|auto].
  destruct ((0 <=? col) && (col <? columns self)); simpl; [|auto].
  destruct (lookup (row, col) (cells self)) as [c|] eqn:E; simpl.
  - rewrite E. auto.
  - repeat split; auto.
    + intros k. now apply (cell_of_app_new (row, col) k).
    + rewrite lookup_app, E. simpl. now rewrite key_eqb_refl.
Qed.

End TableFacts.

(** ** table.py, table_service.py: the invariant of the table *)

Module InvariantFacts.
Import TableFacts TableService.

Local Open Scope list_scope.

Lemma well_formed_positions (table : Table.t) :
  well_formed table
  <-> 1 <= Table.rows table /\ 1 <= Table.columns table
      /\ NoDup (positions table)
      /\ forall k, In k (positions table) ->
           0 <= fst k < Table.rows table /\ 0 <= snd k < Table.columns table.
Proof.
  unfold well_formed, positions. split; intros (Hr & Hc & Hnd & Hin);
    repeat split; try assumption.
  - apply in_map_iff in H as ([k' c] & <- & H). apply (Hin _ _ H).
  - apply in_map_iff in H as ([k' c] & <- & H). apply (Hin _ _ H).
  - apply in_map_iff in H as ([k' c] & <- & H). apply (Hin _ _ H).
  - apply in_map_iff in H as ([k' c] & <- & H). apply (Hin _ _ H).
  - apply (Hin k). change k with (fst (k, c)). now apply in_map.
  - apply (Hin k). change k with (fst (k, c)). now apply in_map.
  - apply (Hin k). change k with (fst (k, c)). now apply in_map.
  - apply (Hin k). change k with (fst (k, c)). now apply in_map.
Qed.

(** A table of the same sizes with cells at the same positions. *)
Lemma well_formed_same (table table' : Table.t) :
  Table.rows table' = Table.rows table ->
  Table.columns table' = Table.columns table ->
  positions table' = positions table ->
  well_formed table -> well_formed table'.
Proof.
  intros Hr Hc Hp H. apply well_formed_positions in H.
  apply well_formed_positions. now rewrite Hr, Hc, Hp.
Qed.

Lemma get_cell_invariant (row col : Z) (table : Table.t) :
  well_formed table -> well_formed (snd (Table.get_cell row col table)).
Proof.
  intros H. unfold Table.get_cell, bind, Table._validate_indices.
  destruct ((0 <=? row) && (row <? Table.rows table)) eqn:Hrow; simpl; [|exact H].
  destruct ((0 <=? col) && (col <? Table.columns table)) eqn:Hcol; simpl; [|exact H].
  destruct (Table.lookup (row, col) (Table.cells table)) eqn:E; simpl; [exact H|].
  apply andb_true_iff in Hrow as [Hr0 Hr1], Hcol as [Hc0 Hc1].
  apply Z.leb_le in Hr0, Hc0. apply Z.ltb_lt in Hr1, Hc1.
  apply well_formed_positions in H as (Hr & Hc & Hnd & Hin).
  apply well_formed_positions. unfold positions in *. simpl.
  rewrite map_app. simpl. repeat split; try assumption.
  - apply NoDup_app; repeat split.
    + exact Hnd.
    + constructor; [intros []|constructor].
    + intros k Hk [<-|[]]. now apply lookup_None_iff in E.
  - apply in_app_or in H as [H|[<-|[]]]; [apply (Hin _ H)|simpl; lia].
  - apply in_app_or in H as [H|[<-|[]]]; [apply (Hin _ H)|simpl; lia].
  - apply in_app_or in H as [H|[<-|[]]]; [apply (Hin _ H)|simpl; lia].
  - apply in_app_or in H as [H|[<-|[]]]; [apply (Hin _ H)|simpl; lia].
Qed.

Lemma modify_invariant (row col : Z) (f : Cell.t -> Cell.t) (table : Table.t) :
  well_formed table -> well_formed (snd (Table.modify row col f table)).
Proof.
  apply well_formed_same; try reflexivity.
  unfold positions. simpl. apply map_fst_update.
Qed.

Lemma invalidate_all_invariant (table : Table.t) :
  well_formed table -> well_formed (snd (Table.invalidate_all table)).
Proof.
  apply well_formed_same; try reflexivity.
  unfold positions. simpl. rewrite map_map. reflexivity.
Qed.

Lemma NoDup_positions_filter (p : Table.key * Cell.t -> bool)
    (d : list (Table.key * Cell.t)) :
  NoDup (map fst d) -> NoDup (map fst (filter p d)).
Proof.
  induction d as [|[k c] d IH]; simpl; intros Hnd; [constructor|].
  inversion Hnd as [|? ? Hnotin Hnd']; subst.
  destruct (p (k, c)); simpl; auto. constructor; auto.
  intros Hk. apply Hnotin. apply in_map_iff in Hk as ([k' c'] & Heq & Hk').
  apply filter_In in Hk' as [Hk' _]. simpl in Heq. subst k'.
  change k with (fst (k, c')). now apply in_map.
Qed.

(** [resize] to sizes of one at least returns, keeps the invariant, drops
    the cells beyond the new sizes and leaves the others as they were. *)
Lemma resize_spec (rows columns : Z) (table : Table.t) :
  1 <= rows -> 1 <= columns -> well_formed table ->
  let r := Table.resize rows columns table in
  fst r = Ok tt
  /\ well_formed (snd r)
  /\ Table.rows (snd r) = rows /\ Table.columns (snd r) = columns
  /\ forall k,
       Table.lookup k (Table.cells (snd r))
       = if (fst k <? rows) && (snd k <? columns)
         then Table.lookup k (Table.cells table)
         else None.
Proof.
  intros Hrows Hcols (Hr & Hc & Hnd & Hin). unfold Table.resize.
  destruct (Z.ltb_spec rows 1); [lia|]. destruct (Z.ltb_spec columns 1); [lia|].
  cbn [orb fst snd Table.rows Table.columns Table.cells].
  split; [reflexivity|].
  destruct ((rows <? Table.rows table) || (columns <? Table.columns table)) eqn:Hshrink.
  - split; [|split; [reflexivity|split; [reflexivity|]]].
    + repeat split; try assumption; cbn [Table.rows Table.columns Table.cells].
      * now apply NoDup_positions_filter.
      * apply filter_In in H1 as [H1 _]. apply (Hin _ _ H1).
      * apply filter_In in H1 as [_ H1]. cbn [fst] in H1.
        apply negb_true_iff, orb_false_iff in H1 as [H1 _].
        apply Z.leb_gt in H1. exact H1.
      * apply filter_In in H1 as [H1 _]. apply (Hin _ _ H1).
      * apply filter_In in H1 as [_ H1]. cbn [fst] in H1.
        apply negb_true_iff, orb_false_iff in H1 as [_ H1].
        apply Z.leb_gt in H1. exact H1.
    + intros k. clear Hnd Hin.
      induction (Table.cells table) as [|[k' c] d IH]; simpl.
      * now destruct (_ && _).
      * destruct (Table.key_eqb k k') eqn:E.
        -- apply key_eqb_eq in E. subst k'.
           destruct (Z.leb_spec rows (fst k)), (Z.leb_spec columns (snd k));
             destruct (Z.ltb_spec (fst k) rows), (Z.ltb_spec (snd k) columns);
             try lia; simpl; try (rewrite key_eqb_refl; reflexivity); exact IH.
        -- destruct (negb _); simpl; [rewrite E|]; exact IH.
  - apply orb_false_iff in Hshrink as [H1 H2].
    apply Z.ltb_ge in H1, H2.
    split; [|split; [reflexivity|split; [reflexivity|]]].
    + repeat split; try assumption; cbn [Table.rows Table.columns Table.cells];
        destruct (Hin _ _ H3); lia.
    + intros k.
      destruct ((fst k <? rows) && (snd k <? columns)) eqn:E; [reflexivity|].
      destruct (Table.lookup k (Table.cells table)) as [c|] eqn:El; [|reflexivity].
      apply lookup_Some_In in El. destruct (Hin _ _ El).
      apply andb_false_iff in E as [E|E]; apply Z.ltb_ge in E; lia.
Qed.

(** *** The calls of the service *)

Lemma inv_ret {A : Type} (a : A) : keeps_invariant (ret a).
Proof. intros s H. exact H. Qed.

Lemma inv_raise {A : Type} (e : exn) : keeps_invariant (@raise t A e).
Proof. intros s H. exact H. Qed.

Lemma inv_halts {A : Type} (h : halt) : keeps_invariant (@halts t A h).
Proof. intros s H. exact H. Qed.

Lemma inv_lift {A : Type} (o : outcome A) : keeps_invariant (lift o).
Proof. intros s H. exact H. Qed.

Lemma inv_bind {A B : Type} (m : S A) (k : A -> S B) :
  keeps_invariant m -> (forall a, keeps_invariant (k a)) -> keeps_invariant (bind m k).
Proof.
  intros Hm Hk s H. unfold bind. specialize (Hm s H).
  destruct (m s) as [[a|e|h] s1]; simpl in *; auto. now apply Hk.
Qed.

Lemma inv_try_except {A : Type} (m : S A) (handler : exn -> S A) :
  keeps_invariant m -> (forall e, keeps_invariant (handler e)) ->
  keeps_invariant (try_except m handler).
Proof.
  intros Hm Hh s H. unfold try_except. specialize (Hm s H).
  destruct (m s) as [[a|e|h] s1]; simpl in *; auto. now apply Hh.
Qed.

Lemma inv_try_finally {A : Type} (m : S A) (final : S unit) :
  keeps_invariant m -> keeps_invariant final -> keeps_invariant (try_finally m final).
Proof.
  intros Hm Hf s H. unfold try_finally. specialize (Hm s H).
  destruct (m s) as [r s1]. specialize (Hf s1 Hm).
  destruct (final s1) as [[u|e|h] s2]; exact Hf.
Qed.

Lemma inv_on_table {A : Type} (m : M Table.t A) :
  (forall table, well_formed table -> well_formed (snd (m table))) ->
  keeps_invariant (on_table m).
Proof.
  intros Hm s H. unfold on_table. specialize (Hm (table s) H).
  now destruct (m (table s)).
Qed.

Lemma inv_get_cell (row col : Z) : keeps_invariant (on_table (Table.get_cell row col)).
Proof. apply inv_on_table. apply get_cell_invariant. Qed.

Lemma inv_modify (row col : Z) (f : Cell.t -> Cell.t) : keeps_invariant (modify row col f).
Proof. apply inv_on_table. apply modify_invariant. Qed.

Ltac inv_step :=
  match goal with
  | |- keeps_invariant (bind _ _) => apply inv_bind; [|intros ?]
  | |- keeps_invariant (try_except _ _) => apply inv_try_except; [|intros ?]
  | |- keeps_invariant (try_finally _ _) => apply inv_try_finally
  | |- keeps_invariant (ret _) => apply inv_ret
  | |- keeps_invariant (raise _) => apply inv_raise
  | |- keeps_invariant (halts _) => apply inv_halts
  | |- keeps_invariant (lift _) => apply inv_lift
  | |- keeps_invariant (modify _ _ _) => apply inv_modify
  | |- keeps_invariant (on_table (Table.get_cell _ _)) => apply inv_get_cell
  | |- keeps_invariant (stack_contains _) => intros ? ?; assumption
  | |- keeps_invariant (stack_add _) => intros ? ?; assumption
  | |- keeps_invariant (stack_discard _) => intros ? ?; assumption
  | |- keeps_invariant stack_clear => intros ? ?; assumption
  | |- keeps_invariant (if ?b then _ else _) => destruct b
  | |- keeps_invariant (match ?x with _ => _ end) => destruct x
  | |- keeps_invariant _ => assumption
  end.

Lemma inv_provider (accept : ASTNode -> S pyval) (reference : CellReference.t) :
  (forall ast, keeps_invariant (accept ast)) ->
  keeps_invariant (_get_cell_value_for_evaluator accept reference).
Proof.
  intros Hacc. unfold _get_cell_value_for_evaluator, Table.get_cell_by_reference.
  destruct (CellReference.to_indices reference) as [row col].
  apply inv_bind; [apply inv_get_cell|]. intros c.
  repeat match goal with
         | |- keeps_invariant (match ?x with _ => _ end) => destruct x
         end; auto using inv_ret, inv_raise.
Qed.

Lemma inv_visit_cell_ref (provider : CellReference.t -> S pyval)
    (reference : CellReference.t) :
  (forall ref, keeps_invariant (provider ref)) ->
  keeps_invariant (visit_cell_ref provider reference).
Proof. intros Hp. unfold visit_cell_ref. repeat inv_step. apply Hp. Qed.

Lemma inv_visit_unary_op (operator : string) (operand : S pyval) :
  keeps_invariant operand -> keeps_invariant (visit_unary_op operator operand).
Proof. intros Ho. unfold visit_unary_op. repeat inv_step. Qed.

Lemma inv_visit_binary_op (operator : string) (lhs rhs : S pyval) :
  keeps_invariant lhs -> keeps_invariant rhs ->
  keeps_invariant (visit_binary_op operator lhs rhs).
Proof. intros Hl Hr. unfold visit_binary_op. repeat inv_step. Qed.

Lemma inv_accept (fuel : nat) : forall node, keeps_invariant (accept fuel node).
Proof.
  induction fuel as [|fuel IH]; induction node as [v|ref|op operand IHo|op lhs IHl rhs IHr].
  - apply inv_ret.
  - apply inv_visit_cell_ref. intros r. apply inv_halts.
  - now apply inv_visit_unary_op.
  - now apply inv_visit_binary_op.
  - apply inv_ret.
  - apply inv_visit_cell_ref. intros r. now apply inv_provider.
  - now apply inv_visit_unary_op.
  - now apply inv_visit_binary_op.
Qed.

Lemma inv_evaluate (fuel : nat) (ast : ASTNode) (current : option CellReference.t) :
  keeps_invariant (evaluate fuel ast current).
Proof. unfold evaluate. repeat inv_step. apply inv_accept. Qed.

Lemma inv_calculate_cell (fuel : nat) (row col : Z) :
  keeps_invariant (_calculate_cell fuel row col).
Proof. unfold _calculate_cell. repeat inv_step. apply inv_evaluate. Qed.

Lemma inv_calculate_loop (fuel : nat) (entries : list (Z * Z * Cell.t)) :
  keeps_invariant (calculate_loop fuel entries).
Proof.
  induction entries as [|[[row col] c] entries IH]; [apply inv_ret|].
  cbn [calculate_loop]. apply inv_bind; [|intros _; exact IH].
  intros s H. destruct (Table.lookup _ _); [|exact H].
  destruct (_ && _); [|exact H]. now apply inv_calculate_cell.
Qed.

Lemma inv_calculate_all (fuel : nat) : keeps_invariant (calculate_all fuel).
Proof. intros s H. unfold calculate_all. now apply inv_calculate_loop. Qed.

Lemma inv_set_cell_expression (row col : Z) (expression : string) :
  keeps_invariant (set_cell_expression row col expression).
Proof. unfold set_cell_expression. repeat inv_step. Qed.

Lemma inv_load_loop (cells : list (Z * Z * string)) : keeps_invariant (load_loop cells).
Proof.
  induction cells as [|[[row col] expression] cells IH]; [apply inv_ret|].
  cbn [load_loop]. apply inv_bind; [apply inv_set_cell_expression|intros _; exact IH].
Qed.

(** The invariant of the table, sizes of one at least, one cell for a
    position and every position within the sizes, holds of a new service
    and is kept by every call of the service: reading a cell, assigning an
    expression, an evaluation pass, resizing, clearing, and loading a
    snapshot into any table, however the call ends. *)
Theorem table_invariant (self : t) :
  well_formed (table new)
  /\ (well_formed (table self) ->
      (forall row col, well_formed (table (after (get_cell row col) self)))
      /\ (forall row col expression,
            well_formed (table (after (set_cell_expression row col expression) self)))
      /\ (forall fuel, well_formed (table (after (calculate_all fuel) self)))
      /\ (forall rows columns,
            well_formed (table (after (resize_table rows columns) self)))
      /\ well_formed (table (after clear_all self))
      /\ (forall rows columns,
            well_formed (table (after (create_table rows columns) self)))
      /\ (forall fuel data,
            well_formed (table (after (load_table_data fuel data) self)))).
Proof.
  split.
  - unfold new, well_formed. simpl. repeat split; try lia; [constructor|contradiction..].
  - intros H. unfold after. repeat match goal with |- _ /\ _ => split end.
    + intros row col. now apply inv_get_cell.
    + intros row col expression. now apply inv_set_cell_expression.
    + intros fuel. now apply inv_calculate_all.
    + intros rows columns. unfold resize_table, bind, on_table.
      destruct (Z_lt_le_dec rows 1) as [Hr|Hr];
        [|destruct (Z_lt_le_dec columns 1) as [Hc|Hc]].
      * unfold Table.resize. destruct (Z.ltb_spec rows 1); [|lia]. exact H.
      * unfold Table.resize. destruct (Z.ltb_spec columns 1); [|lia].
        rewrite orb_true_r. exact H.
      * destruct (resize_spec rows columns (table self) Hr Hc H) as (Hok & Hwf & _).
        cbv zeta in Hok, Hwf.
        destruct (Table.resize rows columns (table self)) as [o t1].
        cbn [fst snd] in *. subst o. cbn [table].
        now apply invalidate_all_invariant.
    + unfold clear_all, on_table, Table.clear_all. cbn [fst snd table].
      destruct H as (Hr & Hc & _). repeat split; try assumption;
        try constructor; contradiction.
    + intros rows columns. unfold create_table, Table.new.
      destruct (Z.ltb_spec rows 1); [exact H|].
      destruct (Z.ltb_spec columns 1); [exact H|].
      cbn [orb snd table]. repeat split; try assumption; try constructor; contradiction.
    + intros fuel data. unfold load_table_data.
      assert (Hcreate : keeps_invariant
                          (create_table (snap_rows data) (snap_columns data))).
      { intros s Hs. unfold create_table, Table.new.
        destruct (Z.ltb_spec (snap_rows data) 1); [exact Hs|].
        destruct (Z.ltb_spec (snap_columns data) 1); [exact Hs|].
        cbn [orb snd table]. repeat split; try assumption; try constructor; contradiction. }
      apply (inv_bind _ _ Hcreate); [|exact H]. intros _.
      apply inv_bind; [apply inv_load_loop|]. intros _. apply inv_calculate_all.
Qed.

Lemma table_invariant_witness :
  well_formed (table (after (set_cell_expression 0 0 "=B1+1") new)).
Proof.
  exact (proj1 (proj2 (proj2 (table_invariant new)
                         (proj1 (table_invariant new)))) 0 0 "=B1+1").
Defined.

(** [Table.resize] to sizes of one at least returns and keeps the
    invariant: the table has the new sizes, a cell within them is the cell
    that was there, and no cell is stored beyond them. *)
Theorem resize_prunes (rows columns : Z) (table : Table.t) :
  1 <= rows -> 1 <= columns -> well_formed table ->
  let r := Table.resize rows columns table in
  fst r = Ok tt
  /\ well_formed (snd r)
  /\ Table.rows (snd r) = rows /\ Table.columns (snd r) = columns
  /\ forall k,
       Table.lookup k (Table.cells (snd r))
       = if (fst k <? rows) && (snd k <? columns)
         then Table.lookup k (Table.cells table)
         else None.
Proof. apply resize_spec. Qed.

Lemma resize_prunes_witness :
  let table := TableService.table (table_with_C3 1) in
  let r := Table.resize 2 2 table in
  fst r = Ok tt
  /\ well_formed (snd r)
  /\ Table.rows (snd r) = 2 /\ Table.columns (snd r) = 2
  /\ forall k,
       Table.lookup k (Table.cells (snd r))
       = if (fst k <? 2) && (snd k <? 2)
         then Table.lookup k (Table.cells table)
         else None.
Proof.
  apply (resize_prunes 2 2 (TableService.table (table_with_C3 1))); [lia|lia|].
  split; [|split; [|split]].
  - vm_compute. discriminate.
  - vm_compute. discriminate.
  - vm_compute. repeat constructor; simpl; intuition discriminate.
  - intros k c Hin. vm_compute in Hin.
    destruct Hin as [H|[H|[]]]; injection H as <- <-; vm_compute;
      repeat split; discriminate.
Defined.

End InvariantFacts.

(** ** The evaluator reads a table through its cells *)

Module SimFacts.
Import TableFacts TableService.

Lemma call_sim_ret {A : Type} (R : A -> A -> Prop) (a a' : A) :
  R a a' -> call_sim R (ret a) (ret a').
Proof. intros H s s' Hs. simpl. auto. Qed.

Lemma call_sim_raise {A : Type} (R : A -> A -> Prop) (e : exn) :
  call_sim R (raise e) (raise e).
Proof. intros s s' Hs. simpl. auto. Qed.

Lemma call_sim_halts {A : Type} (R : A -> A -> Prop) (h : halt) :
  call_sim R (halts h) (halts h).
Proof. intros s s' Hs. simpl. auto. Qed.

Lemma call_sim_lift {A : Type} (o : outcome A) : call_sim eq (lift o) (lift o).
Proof. intros s s' Hs. simpl. split; [assumption|]. now destruct o. Qed.

Lemma call_sim_bind {A B : Type} (R : A -> A -> Prop) (Q : B -> B -> Prop)
    (m m' : S A) (k k' : A -> S B) :
  call_sim R m m' ->
  (forall a a', R a a' -> call_sim Q (k a) (k' a')) ->
  call_sim Q (bind m k) (bind m' k').
Proof.
  intros Hm Hk s s' Hs. unfold bind.
  destruct (Hm s s' Hs) as [Hs1 Hr].
  destruct (m s) as [[a|e|h] s1], (m' s') as [[a'|e'|h'] s1'];
    simpl in *; try contradiction; auto.
  now apply Hk.
Qed.

Lemma call_sim_try_except {A : Type} (R : A -> A -> Prop)
    (m m' : S A) (handler handler' : exn -> S A) :
  call_sim R m m' ->
  (forall e, call_sim R (handler e) (handler' e)) ->
  call_sim R (try_except m handler) (try_except m' handler').
Proof.
  intros Hm Hh s s' Hs. unfold try_except.
  destruct (Hm s s' Hs) as [Hs1 Hr].
  destruct (m s) as [[a|e|h] s1], (m' s') as [[a'|e'|h'] s1'];
    simpl in *; try contradiction; auto.
  subst e'. now apply Hh.
Qed.

Lemma call_sim_try_finally {A : Type} (R : A -> A -> Prop)
    (m m' : S A) (final final' : S unit) :
  call_sim R m m' ->
  call_sim eq final final' ->
  call_sim R (try_finally m final) (try_finally m' final').
Proof.
  intros Hm Hf s s' Hs. unfold try_finally.
  destruct (Hm s s' Hs) as [Hs1 Hr].
  destruct (m s) as [r s1], (m' s') as [r' s1']. simpl in *.
  destruct (Hf s1 s1' Hs1) as [Hs2 Hr2].
  destruct (final s1) as [[u|e|h] s2], (final' s1') as [[u'|e'|h'] s2'];
    simpl in *; try contradiction; auto.
Qed.

Lemma call_sim_stack_contains (ref_str : string) :
  call_sim eq (stack_contains ref_str) (stack_contains ref_str).
Proof.
  intros s s' Hs. simpl. split; [assumption|].
  destruct Hs as (_ & _ & -> & _). reflexivity.
Qed.

Lemma call_sim_stack_add (ref_str : string) :
  call_sim eq (stack_add ref_str) (stack_add ref_str).
Proof.
  intros s s' (Hr & Hc & Hst & Hcells). simpl. split; [|reflexivity].
  unfold state_sim. simpl. rewrite Hst. auto.
Qed.

Lemma call_sim_stack_discard (ref_str : string) :
  call_sim eq (stack_discard ref_str) (stack_discard ref_str).
Proof.
  intros s s' (Hr & Hc & Hst & Hcells). simpl. split; [|reflexivity].
  unfold state_sim. simpl. rewrite Hst. auto.
Qed.

Lemma call_sim_stack_clear : call_sim eq stack_clear stack_clear.
Proof.
  intros s s' (Hr & Hc & Hst & Hcells). simpl. split; [|reflexivity].
  unfold state_sim. simpl. auto.
Qed.

Lemma call_sim_get_cell (row col : Z) :
  call_sim cell_sim (on_table (Table.get_cell row col))
    (on_table (Table.get_cell row col)).
Proof.
  intros s s' (Hr & Hc & Hst & Hcells). unfold on_table.
  pose proof (get_cell_spec row col (table s)) as H.
  pose proof (get_cell_spec row col (table s')) as H'.
  destruct (Table.get_cell row col (table s)) as [r t1].
  destruct (Table.get_cell row col (table s')) as [r' t1'].
  simpl in *. destruct H as (Hr1 & Hc1 & Hk1 & Hres), H' as (Hr1' & Hc1' & Hk1' & Hres').
  split.
  - unfold state_sim. simpl. repeat split; try congruence;
      rewrite Hk1, Hk1'; apply Hcells.
  - rewrite <- Hr, <- Hc in Hres'.
    destruct ((0 <=? row) && (row <? Table.rows (table s)));
      [|rewrite Hres, Hres'; reflexivity].
    destruct ((0 <=? col) && (col <? Table.columns (table s)));
      [|rewrite Hres, Hres'; reflexivity].
    destruct Hres as [-> _], Hres' as [-> _]. apply Hcells.
Qed.

Lemma call_sim_get_cell_by_reference (reference : CellReference.t) :
  call_sim cell_sim (on_table (Table.get_cell_by_reference reference))
    (on_table (Table.get_cell_by_reference reference)).
Proof.
  unfold Table.get_cell_by_reference.
  destruct (CellReference.to_indices reference) as [row col].
  apply call_sim_get_cell.
Qed.

Lemma cell_sim_is_formula (c c' : Cell.t) :
  cell_sim c c' -> Cell.is_empty c = false ->
  Cell.is_formula c = Cell.is_formula c' /\ Cell.is_literal c = Cell.is_literal c'.
Proof.
  intros (He & _ & _ & Hx) Hne. specialize (Hx Hne).
  unfold Cell.is_literal, Cell.is_formula. rewrite <- He, Hx. auto.
Qed.

Lemma call_sim_provider (accept : ASTNode -> S pyval) (reference : CellReference.t) :
  (forall ast, call_sim eq (accept ast) (accept ast)) ->
  call_sim eq (_get_cell_value_for_evaluator accept reference)
    (_get_cell_value_for_evaluator accept reference).
Proof.
  intros Hacc. unfold _get_cell_value_for_evaluator.
  eapply call_sim_bind; [apply call_sim_get_cell_by_reference|].
  intros c c' Hsim. pose proof Hsim as (He & Herr & Hast & Hx).
  rewrite <- Herr. destruct (Cell.error c); [apply call_sim_raise|].
  rewrite <- He. destruct (Cell.is_empty c) eqn:Hempty; [now apply call_sim_ret|].
  destruct (cell_sim_is_formula c c' Hsim Hempty) as [<- <-].
  rewrite <- (Hx eq_refl), <- Hast.
  destruct (Cell.is_literal c).
  - destruct (PyInt.int _); [now apply call_sim_ret|apply call_sim_raise].
  - destruct (Cell.is_formula c); [|apply call_sim_raise].
    destruct (Cell.ast c); [apply Hacc|apply call_sim_raise].
Qed.

Lemma call_sim_visit_cell_ref (provider : CellReference.t -> S pyval)
    (reference : CellReference.t) :
  (forall ref, call_sim eq (provider ref) (provider ref)) ->
  call_sim eq (visit_cell_ref provider reference) (visit_cell_ref provider reference).
Proof.
  intros Hp. unfold visit_cell_ref.
  eapply call_sim_bind; [apply call_sim_stack_contains|].
  intros seen ? <-. destruct seen; [apply call_sim_raise|].
  eapply call_sim_bind; [apply call_sim_stack_add|]. intros _ _ _.
  apply call_sim_try_finally; [|apply call_sim_stack_discard].
  apply call_sim_try_except; [apply Hp|]. intros e. apply call_sim_raise.
Qed.

Lemma call_sim_visit_unary_op (operator : string) (operand : S pyval) :
  call_sim eq operand operand ->
  call_sim eq (visit_unary_op operator operand) (visit_unary_op operator operand).
Proof.
  intros Ho. unfold visit_unary_op.
  eapply call_sim_bind; [exact Ho|]. intros v ? <-.
  repeat match goal with
         | |- context [if ?b then _ else _] => destruct b
         end; (now apply call_sim_ret) || apply call_sim_raise.
Qed.

Ltac call_sim_step :=
  match goal with
  | |- call_sim _ (bind _ _) (bind _ _) =>
      eapply call_sim_bind;
      [first [eassumption | apply call_sim_lift]|]; intros ? ? <-
  | |- call_sim _ (ret _) (ret _) => now apply call_sim_ret
  | |- call_sim _ (raise _) (raise _) => apply call_sim_raise
  | |- call_sim _ (lift _) (lift _) => apply call_sim_lift
  | |- call_sim _ (if ?b then _ else _) (if ?b then _ else _) => destruct b
  end.

Lemma call_sim_visit_binary_op (operator : string) (lhs rhs : S pyval) :
  call_sim eq lhs lhs -> call_sim eq rhs rhs ->
  call_sim eq (visit_binary_op operator lhs rhs) (visit_binary_op operator lhs rhs).
Proof.
  intros Hl Hr. unfold visit_binary_op.
  repeat match goal with
         | |- context [String.eqb operator ?x] => destruct (String.eqb operator x)
         end; repeat call_sim_step.
Qed.

(** The evaluator ends alike from states alike. *)
Lemma call_sim_accept (fuel : nat) :
  forall node, call_sim eq (accept fuel node) (accept fuel node).
Proof.
  induction fuel as [|fuel IH]; induction node as [v|ref|op operand IHo|op lhs IHl rhs IHr].
  - now apply call_sim_ret.
  - apply call_sim_visit_cell_ref. intros r. apply call_sim_halts.
  - now apply call_sim_visit_unary_op.
  - now apply call_sim_visit_binary_op.
  - now apply call_sim_ret.
  - apply call_sim_visit_cell_ref. intros r. now apply call_sim_provider.
  - now apply call_sim_visit_unary_op.
  - now apply call_sim_visit_binary_op.
Qed.

End SimFacts.

(** ** The evaluator leaves the cells as they were *)

Module FrameFacts.
Import TableFacts SimFacts TableService.

Lemma keeps_ret {A : Type} (a : A) : keeps_cells (ret a).
Proof. intros s. simpl. auto. Qed.

Lemma keeps_raise {A : Type} (e : exn) : keeps_cells (@raise t A e).
Proof. intros s. simpl. auto. Qed.

Lemma keeps_halts {A : Type} (h : halt) : keeps_cells (@halts t A h).
Proof. intros s. simpl. auto. Qed.

Lemma keeps_lift {A : Type} (o : outcome A) : keeps_cells (lift o).
Proof. intros s. simpl. auto. Qed.

Lemma keeps_trans (s1 s2 s3 : t) :
  (Table.rows (table s2) = Table.rows (table s1)
   /\ Table.columns (table s2) = Table.columns (table s1)
   /\ forall k, cell_of (Table.cells (table s2)) k = cell_of (Table.cells (table s1)) k) ->
  (Table.rows (table s3) = Table.rows (table s2)
   /\ Table.columns (table s3) = Table.columns (table s2)
   /\ forall k, cell_of (Table.cells (table s3)) k = cell_of (Table.cells (table s2)) k) ->
  Table.rows (table s3) = Table.rows (table s1)
  /\ Table.columns (table s3) = Table.columns (table s1)
  /\ forall k, cell_of (Table.cells (table s3)) k = cell_of (Table.cells (table s1)) k.
Proof.
  intros (Hr & Hc & Hk) (Hr' & Hc' & Hk'). repeat split; congruence.
Qed.

Lemma keeps_bind {A B : Type} (m : S A) (k : A -> S B) :
  keeps_cells m -> (forall a, keeps_cells (k a)) -> keeps_cells (bind m k).
Proof.
  intros Hm Hk s. unfold bind. specialize (Hm s).
  destruct (m s) as [[a|e|h] s1]; simpl in *; auto.
  apply (keeps_trans s s1); [exact Hm|apply Hk].
Qed.

Lemma keeps_try_except {A : Type} (m : S A) (handler : exn -> S A) :
  keeps_cells m -> (forall e, keeps_cells (handler e)) ->
  keeps_cells (try_except m handler).
Proof.
  intros Hm Hh s. unfold try_except. specialize (Hm s).
  destruct (m s) as [[a|e|h] s1]; simpl in *; auto.
  apply (keeps_trans s s1); [exact Hm|apply Hh].
Qed.

Lemma keeps_try_finally {A : Type} (m : S A) (final : S unit) :
  keeps_cells m -> keeps_cells final -> keeps_cells (try_finally m final).
Proof.
  intros Hm Hf s. unfold try_finally. specialize (Hm s).
  destruct (m s) as [r s1]. specialize (Hf s1).
  destruct (final s1) as [[u|e|h] s2]; simpl in *;
    apply (keeps_trans s s1); assumption.
Qed.

Lemma keeps_stack_contains (x : string) : keeps_cells (stack_contains x).
Proof. intros s. simpl. auto. Qed.

Lemma keeps_stack_add (x : string) : keeps_cells (stack_add x).
Proof. intros s. simpl. auto. Qed.

Lemma keeps_stack_discard (x : string) : keeps_cells (stack_discard x).
Proof. intros s. simpl. auto. Qed.

Lemma keeps_stack_clear : keeps_cells stack_clear.
Proof. intros s. simpl. auto. Qed.

Lemma keeps_get_cell (row col : Z) : keeps_cells (on_table (Table.get_cell row col)).
Proof.
  intros s. unfold on_table.
  pose proof (get_cell_spec row col (table s)) as H.
  destruct (Table.get_cell row col (table s)) as [r t1]. simpl in *. tauto.
Qed.

Lemma keeps_provider (accept : ASTNode -> S pyval) (reference : CellReference.t) :
  (forall ast, keeps_cells (accept ast)) ->
  keeps_cells (_get_cell_value_for_evaluator accept reference).
Proof.
  intros Hacc. unfold _get_cell_value_for_evaluator, Table.get_cell_by_reference.
  destruct (CellReference.to_indices reference) as [row col].
  apply keeps_bind; [apply keeps_get_cell|]. intros c.
  repeat match goal with
         | |- keeps_cells (match ?x with _ => _ end) => destruct x
         end; auto using keeps_ret, keeps_raise.
Qed.

Lemma keeps_visit_cell_ref (provider : CellReference.t -> S pyval)
    (reference : CellReference.t) :
  (forall ref, keeps_cells (provider ref)) ->
  keeps_cells (visit_cell_ref provider reference).
Proof.
  intros Hp. unfold visit_cell_ref.
  apply keeps_bind; [apply keeps_stack_contains|]. intros [|]; [apply keeps_raise|].
  apply keeps_bind; [apply keeps_stack_add|]. intros _.
  apply keeps_try_finally; [|apply keeps_stack_discard].
  apply keeps_try_except; [apply Hp|]. intros e. apply keeps_raise.
Qed.

Ltac keeps_step :=
  match goal with
  | |- keeps_cells (bind _ _) => apply keeps_bind; [|intros ?]
  | |- keeps_cells (ret _) => apply keeps_ret
  | |- keeps_cells (raise _) => apply keeps_raise
  | |- keeps_cells (lift _) => apply keeps_lift
  | |- keeps_cells (if ?b then _ else _) => destruct b
  | |- keeps_cells _ => assumption
  end.

Lemma keeps_visit_unary_op (operator : string) (operand : S pyval) :
  keeps_cells operand -> keeps_cells (visit_unary_op operator operand).
Proof. intros Ho. unfold visit_unary_op. repeat keeps_step. Qed.

Lemma keeps_visit_binary_op (operator : string) (lhs rhs : S pyval) :
  keeps_cells lhs -> keeps_cells rhs ->
  keeps_cells (visit_binary_op operator lhs rhs).
Proof. intros Hl Hr. unfold visit_binary_op. repeat keeps_step. Qed.

Lemma keeps_accept (fuel : nat) : forall node, keeps_cells (accept fuel node).
Proof.
  induction fuel as [|fuel IH]; induction node as [v|ref|op operand IHo|op lhs IHl rhs IHr].
  - apply keeps_ret.
  - apply keeps_visit_cell_ref. intros r. apply keeps_halts.
  - now apply keeps_visit_unary_op.
  - now apply keeps_visit_binary_op.
  - apply keeps_ret.
  - apply keeps_visit_cell_ref. intros r. now apply keeps_provider.
  - now apply keeps_visit_unary_op.
  - now apply keeps_visit_binary_op.
Qed.

Lemma keeps_evaluate (fuel : nat) (ast : ASTNode) (current : option CellReference.t) :
  keeps_cells (evaluate fuel ast current).
Proof.
  unfold evaluate.
  apply keeps_bind; [apply keeps_stack_clear|]. intros _.
  apply keeps_bind; [destruct current; [apply keeps_stack_add|apply keeps_ret]|].
  intros _. apply keeps_try_except; [apply keeps_accept|].
  intros e. destruct (_ || _); apply keeps_raise.
Qed.

Lemma call_sim_evaluate (fuel : nat) (ast : ASTNode) (current : option CellReference.t) :
  call_sim eq (evaluate fuel ast current) (evaluate fuel ast current).
Proof.
  unfold evaluate.
  eapply call_sim_bind; [apply call_sim_stack_clear|]. intros _ _ _.
  eapply call_sim_bind;
    [destruct current; [apply call_sim_stack_add|now apply call_sim_ret]|].
  intros _ _ _. apply call_sim_try_except; [apply call_sim_accept|].
  intros e. destruct (_ || _); apply call_sim_raise.
Qed.

(** An evaluation clears the stack first: the stack it starts from does not
    matter. *)
Lemma evaluate_clears (fuel : nat) (ast : ASTNode) (current : option CellReference.t)
    (s : t) :
  evaluate fuel ast current s = evaluate fuel ast current (mk (table s) nil).
Proof. reflexivity. Qed.

Lemma evaluate_table_sim (fuel : nat) (ast : ASTNode) (current : option CellReference.t)
    (s s' : t) :
  table_sim s s' ->
  fst (evaluate fuel ast current s) = fst (evaluate fuel ast current s')
  /\ state_sim (snd (evaluate fuel ast current s)) (snd (evaluate fuel ast current s')).
Proof.
  intros Hs. rewrite (evaluate_clears fuel ast current s), (evaluate_clears fuel ast current s').
  destruct (call_sim_evaluate fuel ast current _ _ Hs) as [Hst Hr].
  split; [|exact Hst].
  destruct (fst (evaluate fuel ast current (mk (table s) nil))),
    (fst (evaluate fuel ast current (mk (table s') nil))); try contradiction; congruence.
Qed.

End FrameFacts.

(** ** table_service.py: one cell of an evaluation pass *)

Module PassFacts.
Import TableFacts SimFacts FrameFacts TableService.

Lemma update_update (k : Table.key) (f g : Cell.t -> Cell.t)
    (d : list (Table.key * Cell.t)) :
  Table.update k g (Table.update k f d) = Table.update k (fun c => g (f c)) d.
Proof.
  induction d as [|[k0 c] d IH]; simpl; [reflexivity|].
  destruct (Table.key_eqb k k0) eqn:E; simpl; rewrite E; [reflexivity|].
  now rewrite IH.
Qed.

(** [_calculate_cell] by cases on what the evaluation gives. *)
Lemma calculate_cell_unfold (fuel : nat) (row col : Z) (s : t) :
  _calculate_cell fuel row col s
  = match on_table (Table.get_cell row col) s with
    | (Ok cell, s1) =>
        match Cell.ast cell with
        | None => (Ok tt, s1)
        | Some ast =>
            if Cell.is_empty cell then (Ok tt, s1)
            else
              match CellReference.from_indices row col with
              | Ok ref =>
                  match evaluate fuel ast (Some ref) s1 with
                  | (Ok v, s2) => (Ok tt, write_result row col (Some v) None s2)
                  | (Raise e, s2) =>
                      (Ok tt, write_result row col None (Some (calculation_error e)) s2)
                  | (Halt h, s2) => (Halt h, s2)
                  end
              | Raise e =>
                  (Ok tt, write_result row col None (Some (calculation_error e)) s1)
              | Halt h => (Halt h, s1)
              end
        end
    | (Raise e, s1) => (Raise e, s1)
    | (Halt h, s1) => (Halt h, s1)
    end.
Proof.
  unfold _calculate_cell. unfold bind at 1.
  destruct (on_table (Table.get_cell row col) s) as [[cell|e|h] s1]; try reflexivity.
  destruct (Cell.ast cell) as [ast|]; [|reflexivity].
  destruct (Cell.is_empty cell); [reflexivity|].
  unfold try_except, bind at 1, lift.
  destruct (CellReference.from_indices row col) as [ref|e|h]; simpl.
  - unfold bind at 1.
    destruct (evaluate fuel ast (Some ref) s1) as [[v|e|h] s2]; simpl.
    + unfold bind, modify, on_table, Table.modify, write_result. simpl.
      now rewrite update_update.
    + unfold bind, modify, on_table, Table.modify, write_result, calculation_error. simpl.
      now rewrite update_update.
    + reflexivity.
  - unfold bind, modify, on_table, Table.modify, write_result, calculation_error. simpl.
    now rewrite update_update.
  - reflexivity.
Qed.

Lemma cell_of_write_result (row col : Z) (value : option pyval) (error : option string)
    (s : t) (k : Table.key) :
  cell_of (Table.cells (table (write_result row col value error s))) k
  = if Table.key_eqb k (row, col)
    then match Table.lookup (row, col) (Table.cells (table s)) with
         | Some c => calculated value error c
         | None => Cell.new ""
         end
    else cell_of (Table.cells (table s)) k.
Proof. unfold write_result. simpl. apply cell_of_update. Qed.

Lemma empty_not_formula (c : Cell.t) : Cell.is_empty c = true -> Cell.is_formula c = false.
Proof.
  unfold Cell.is_empty, Cell.is_formula.
  destruct (PyStr.strip (Cell.expression c)); [reflexivity|discriminate].
Qed.

Lemma pending_not_empty (c : Cell.t) : pending c = true -> Cell.is_empty c = false.
Proof.
  unfold pending. intros H. apply andb_true_iff in H as [Hf _].
  destruct (Cell.is_empty c) eqn:E; [|reflexivity].
  now rewrite (empty_not_formula c E) in Hf.
Qed.



Ltac split_all := repeat match goal with |- _ /\ _ => split end.

(** What one call of [_calculate_cell] does to two tables alike: the same
    outcome, the other cells untouched, and the cell itself either
    untouched or written with the same value and error. *)
Lemma calculate_cell_sim (fuel : nat) (row col : Z) (s s' : t) :
  table_sim s s' ->
  let r := _calculate_cell fuel row col s in
  let r' := _calculate_cell fuel row col s' in
  fst r = fst r'
  /\ Table.rows (table (snd r)) = Table.rows (table s)
  /\ Table.columns (table (snd r)) = Table.columns (table s)
  /\ Table.rows (table (snd r')) = Table.rows (table s')
  /\ Table.columns (table (snd r')) = Table.columns (table s')
  /\ (forall k, k <> (row, col) ->
        cell_of (Table.cells (table (snd r))) k = cell_of (Table.cells (table s)) k
        /\ cell_of (Table.cells (table (snd r'))) k = cell_of (Table.cells (table s')) k)
  /\ ((cell_of (Table.cells (table (snd r))) (row, col)
       = cell_of (Table.cells (table s)) (row, col)
       /\ cell_of (Table.cells (table (snd r'))) (row, col)
          = cell_of (Table.cells (table s')) (row, col)
       /\ (fst r = Ok tt -> pending (cell_of (Table.cells (table s)) (row, col)) = false))
      \/ exists value error,
           cell_of (Table.cells (table (snd r))) (row, col)
           = calculated value error (cell_of (Table.cells (table s)) (row, col))
           /\ cell_of (Table.cells (table (snd r'))) (row, col)
              = calculated value error (cell_of (Table.cells (table s')) (row, col))).
Proof.
  intros Hsim. cbv zeta. rewrite !calculate_cell_unfold.
  pose proof Hsim as (Hr & Hc & _ & Hcells). simpl in Hr, Hc, Hcells.
  unfold on_table.
  pose proof (get_cell_spec row col (table s)) as H.
  pose proof (get_cell_spec row col (table s')) as H'.
  destruct (Table.get_cell row col (table s)) as [g t1].
  destruct (Table.get_cell row col (table s')) as [g' t1'].
  simpl in H, H'. destruct H as (Hr1 & Hc1 & Hk1 & Hres), H' as (Hr1' & Hc1' & Hk1' & Hres').
  rewrite <- Hr, <- Hc in Hres'.
  destruct ((0 <=? row) && (row <? Table.rows (table s))).
  2:{ rewrite Hres, Hres'. cbn [fst snd table]. split_all; auto.
      left. split_all; auto. discriminate. }
  destruct ((0 <=? col) && (col <? Table.columns (table s))).
  2:{ rewrite Hres, Hres'. cbn [fst snd table]. split_all; auto.
      left. split_all; auto. discriminate. }
  destruct Hres as [-> Hl1], Hres' as [-> Hl1'].
  set (c := cell_of (Table.cells (table s)) (row, col)) in *.
  set (c' := cell_of (Table.cells (table s')) (row, col)) in *.
  pose proof (Hcells (row, col)) as Hcc. fold c c' in Hcc.
  pose proof Hcc as (He & Herr & Hast & Hx).
  assert (Hskip : forall (u u' : t),
             table u = t1 -> table u' = t1' ->
             fst (Ok tt, u) = fst (Ok tt, u')
             /\ Table.rows (table (snd (Ok tt, u))) = Table.rows (table s)
             /\ Table.columns (table (snd (Ok tt, u))) = Table.columns (table s)
             /\ Table.rows (table (snd (Ok tt, u'))) = Table.rows (table s')
             /\ Table.columns (table (snd (Ok tt, u'))) = Table.columns (table s')
             /\ (forall k, k <> (row, col) ->
                   cell_of (Table.cells (table (snd (Ok tt, u)))) k
                   = cell_of (Table.cells (table s)) k
                   /\ cell_of (Table.cells (table (snd (Ok tt, u')))) k
                      = cell_of (Table.cells (table s')) k)
             /\ cell_of (Table.cells (table (snd (Ok tt, u)))) (row, col) = c
             /\ cell_of (Table.cells (table (snd (Ok tt, u')))) (row, col) = c').
  { intros u u' Hu Hu'. cbn [fst snd]. rewrite Hu, Hu'. split_all; auto. }
  rewrite <- Hast. destruct (Cell.ast c) as [ast|] eqn:Hc_ast.
  2:{ destruct (Hskip (TableService.mk t1 (_evaluation_stack s))
                  (TableService.mk t1' (_evaluation_stack s')) eq_refl eq_refl)
        as (? & ? & ? & ? & ? & ? & ? & ?).
      split_all; auto. left. split_all; auto.
      intros _. unfold pending. rewrite Hc_ast. apply andb_false_r. }
  rewrite <- He. destruct (Cell.is_empty c) eqn:Hc_empty.
  { destruct (Hskip (TableService.mk t1 (_evaluation_stack s))
                (TableService.mk t1' (_evaluation_stack s')) eq_refl eq_refl)
      as (? & ? & ? & ? & ? & ? & ? & ?).
    split_all; auto. left. split_all; auto.
    intros _. unfold pending. now rewrite (empty_not_formula c Hc_empty). }
  assert (Hwrite : forall value error (u u' : t),
             (Table.rows (table u) = Table.rows t1
              /\ Table.columns (table u) = Table.columns t1
              /\ forall k, cell_of (Table.cells (table u)) k = cell_of (Table.cells t1) k) ->
             (Table.rows (table u') = Table.rows t1'
              /\ Table.columns (table u') = Table.columns t1'
              /\ forall k, cell_of (Table.cells (table u')) k = cell_of (Table.cells t1') k) ->
             let w := write_result row col value error u in
             let w' := write_result row col value error u' in
             Table.rows (table w) = Table.rows (table s)
             /\ Table.columns (table w) = Table.columns (table s)
             /\ Table.rows (table w') = Table.rows (table s')
             /\ Table.columns (table w') = Table.columns (table s')
             /\ (forall k, k <> (row, col) ->
                   cell_of (Table.cells (table w)) k = cell_of (Table.cells (table s)) k
                   /\ cell_of (Table.cells (table w')) k = cell_of (Table.cells (table s')) k)
             /\ cell_of (Table.cells (table w)) (row, col) = calculated value error c
             /\ cell_of (Table.cells (table w')) (row, col) = calculated value error c').
  { intros value error u u' (Hur & Huc & Huk) (Hur' & Huc' & Huk'). cbv zeta.
    assert (Hp : Table.lookup (row, col) (Table.cells (table u)) = Some c).
    { pose proof (Huk (row, col)) as Hu. rewrite Hk1 in Hu. fold c in Hu.
      rewrite <- Hu. apply cell_of_not_empty. now rewrite Hu. }
    assert (Hp' : Table.lookup (row, col) (Table.cells (table u')) = Some c').
    { pose proof (Huk' (row, col)) as Hu. rewrite Hk1' in Hu. fold c' in Hu.
      rewrite <- Hu. apply cell_of_not_empty. rewrite Hu. congruence. }
    split_all; try (simpl; congruence).
    - intros k Hk. split.
      + rewrite cell_of_write_result, key_eqb_neq by assumption. now rewrite Huk, Hk1.
      + rewrite cell_of_write_result, key_eqb_neq by assumption. now rewrite Huk', Hk1'.
    - now rewrite cell_of_write_result, key_eqb_refl, Hp.
    - now rewrite cell_of_write_result, key_eqb_refl, Hp'. }
  destruct (CellReference.from_indices row col) as [ref|e|h].
  - assert (Hts : table_sim (TableService.mk t1 (_evaluation_stack s))
                    (TableService.mk t1' (_evaluation_stack s'))).
    { unfold table_sim, state_sim. simpl. repeat split; try congruence;
        rewrite Hk1, Hk1'; apply Hcells. }
    destruct (evaluate_table_sim fuel ast (Some ref) _ _ Hts) as [Hres _].
    pose proof (keeps_evaluate fuel ast (Some ref)
                  (TableService.mk t1 (_evaluation_stack s))) as Hkeep.
    pose proof (keeps_evaluate fuel ast (Some ref)
                  (TableService.mk t1' (_evaluation_stack s'))) as Hkeep'.
    destruct (evaluate fuel ast (Some ref) (TableService.mk t1 (_evaluation_stack s)))
      as [o s2].
    destruct (evaluate fuel ast (Some ref) (TableService.mk t1' (_evaluation_stack s')))
      as [o' s2'].
    simpl in Hres, Hkeep, Hkeep'. subst o'.
    destruct o as [v|e|h].
    + destruct (Hwrite (Some v) None s2 s2' Hkeep Hkeep') as (? & ? & ? & ? & ? & ? & ?).
      cbn [fst snd]. split_all; try assumption; try reflexivity. right. eauto.
    + destruct (Hwrite None (Some (calculation_error e)) s2 s2' Hkeep Hkeep')
        as (? & ? & ? & ? & ? & ? & ?).
      cbn [fst snd]. split_all; try assumption; try reflexivity. right. eauto.
    + destruct Hkeep as (? & ? & Hk2), Hkeep' as (? & ? & Hk2').
      cbn [fst snd]. split_all; try congruence.
      * intros k _. now rewrite Hk2, Hk1, Hk2', Hk1'.
      * left. split_all; [now rewrite Hk2, Hk1|now rewrite Hk2', Hk1'|discriminate].
  - destruct (Hwrite None (Some (calculation_error e))
                (TableService.mk t1 (_evaluation_stack s))
                (TableService.mk t1' (_evaluation_stack s')))
      as (? & ? & ? & ? & ? & ? & ?); [simpl; auto..|].
    cbn [fst snd]. split_all; try assumption; try reflexivity. right. eauto.
  - cbn [fst snd table]. split_all; auto. left. split_all; auto. discriminate.
Qed.


Lemma table_sim_intro (s s' : t) :
  Table.rows (table s) = Table.rows (table s') ->
  Table.columns (table s) = Table.columns (table s') ->
  (forall k, cell_sim (cell_of (Table.cells (table s)) k)
               (cell_of (Table.cells (table s')) k)) ->
  table_sim s s'.
Proof. intros Hr Hc Hk. unfold table_sim, state_sim. simpl. auto. Qed.


(** The test of the loop of [calculate_all], read on the cell of the
    position. *)
Lemma loop_test (fuel : nat) (row col : Z) (s : t) :
  match Table.lookup (row, col) (Table.cells (table s)) with
  | Some cell =>
      if Cell.is_formula cell
         && match Cell.ast cell with Some _ => true | None => false end
      then _calculate_cell fuel row col s
      else (Ok tt, s)
  | None => (Ok tt, s)
  end
  = if pending (cell_of (Table.cells (table s)) (row, col))
    then _calculate_cell fuel row col s
    else (Ok tt, s).
Proof.
  unfold cell_of, pending.
  now destruct (Table.lookup (row, col) (Table.cells (table s))).
Qed.

Lemma calculate_loop_cons (fuel : nat) (row col : Z) (c : Cell.t)
    (entries : list (Z * Z * Cell.t)) (s : t) :
  calculate_loop fuel ((row, col, c) :: entries) s
  = match (if pending (cell_of (Table.cells (table s)) (row, col))
           then _calculate_cell fuel row col s
           else (Ok tt, s)) with
    | (Ok _, s1) => calculate_loop fuel entries s1
    | (Raise e, s1) => (Raise e, s1)
    | (Halt h, s1) => (Halt h, s1)
    end.
Proof. cbn [calculate_loop]. unfold bind. now rewrite loop_test. Qed.


End PassFacts.

(** ** table_service.py: the fuel that an evaluation pass needs *)

Module FuelFacts.
Import TableFacts SimFacts FrameFacts PassFacts TableService.

Lemma stack_ret {A : Type} (a : A) : keeps_stack (ret a).
Proof. intros s. reflexivity. Qed.

Lemma stack_raise {A : Type} (e : exn) : keeps_stack (@raise t A e).
Proof. intros s. reflexivity. Qed.

Lemma stack_halts {A : Type} (h : halt) : keeps_stack (@halts t A h).
Proof. intros s. reflexivity. Qed.

Lemma stack_lift {A : Type} (o : outcome A) : keeps_stack (lift o).
Proof. intros s. reflexivity. Qed.

Lemma stack_on_table {A : Type} (m : M Table.t A) : keeps_stack (on_table m).
Proof. intros s. unfold on_table. now destruct (m (table s)). Qed.

Lemma stack_bind {A B : Type} (m : S A) (k : A -> S B) :
  keeps_stack m -> (forall a, keeps_stack (k a)) -> keeps_stack (bind m k).
Proof.
  intros Hm Hk s. unfold bind. specialize (Hm s).
  destruct (m s) as [[a|e|h] s1]; simpl in *; auto.
  now rewrite Hk.
Qed.

Lemma stack_provider (accept : ASTNode -> S pyval) (reference : CellReference.t) :
  (forall ast, keeps_stack (accept ast)) ->
  keeps_stack (_get_cell_value_for_evaluator accept reference).
Proof.
  intros Hacc. unfold _get_cell_value_for_evaluator.
  apply stack_bind; [apply stack_on_table|]. intros c.
  repeat match goal with
         | |- keeps_stack (match ?x with _ => _ end) => destruct x
         end; auto using stack_ret, stack_raise.
Qed.

(** Discarding what was added to a stack that did not hold it gives the
    stack back. *)
Lemma discard_added (x : string) (stack : list string) :
  on_stack stack x = false ->
  filter (fun s => negb (String.eqb x s)) (x :: stack) = stack.
Proof.
  intros H. simpl. rewrite String.eqb_refl. simpl.
  induction stack as [|y stack IH]; [reflexivity|].
  simpl in *. apply orb_false_iff in H as [-> H]. simpl. now rewrite IH.
Qed.

Lemma stack_visit_cell_ref (provider : CellReference.t -> S pyval)
    (reference : CellReference.t) :
  (forall ref, keeps_stack (provider ref)) ->
  keeps_stack (visit_cell_ref provider reference).
Proof.
  intros Hp s. unfold visit_cell_ref, bind, stack_contains. cbn [fst snd].
  destruct (List.existsb _ (_evaluation_stack s)) eqn:E; [reflexivity|].
  unfold stack_add. rewrite E. unfold try_finally, try_except.
  match goal with
  | |- context [provider reference ?s1] =>
      pose proof (Hp reference s1) as H; destruct (provider reference s1) as [[v|e|h] s2]
  end; simpl in *; rewrite H; now apply discard_added.
Qed.

Ltac stack_step :=
  match goal with
  | |- keeps_stack (bind _ _) => apply stack_bind; [|intros ?]
  | |- keeps_stack (ret _) => apply stack_ret
  | |- keeps_stack (raise _) => apply stack_raise
  | |- keeps_stack (lift _) => apply stack_lift
  | |- keeps_stack (if ?b then _ else _) => destruct b
  | |- keeps_stack _ => assumption
  end.

Lemma stack_visit_unary_op (operator : string) (operand : S pyval) :
  keeps_stack operand -> keeps_stack (visit_unary_op operator operand).
Proof. intros Ho. unfold visit_unary_op. repeat stack_step. Qed.

Lemma stack_visit_binary_op (operator : string) (lhs rhs : S pyval) :
  keeps_stack lhs -> keeps_stack rhs ->
  keeps_stack (visit_binary_op operator lhs rhs).
Proof. intros Hl Hr. unfold visit_binary_op. repeat stack_step. Qed.

(** The evaluator leaves the stack as it found it: what [visit_cell_ref]
    adds, its [finally] discards. *)
Lemma stack_accept (fuel : nat) : forall node, keeps_stack (accept fuel node).
Proof.
  induction fuel as [|fuel IH]; induction node as [v|ref|op operand IHo|op lhs IHl rhs IHr].
  - apply stack_ret.
  - apply stack_visit_cell_ref. intros r. apply stack_halts.
  - now apply stack_visit_unary_op.
  - now apply stack_visit_binary_op.
  - apply stack_ret.
  - apply stack_visit_cell_ref. intros r. now apply stack_provider.
  - now apply stack_visit_unary_op.
  - now apply stack_visit_binary_op.
Qed.

(** *** Counting the references that are not on the stack *)

Lemma filter_without (x : string) (p : string -> bool) (l : list string) :
  NoDup l -> In x l -> p x = true ->
  Datatypes.S (List.length (filter (fun y => p y && negb (String.eqb x y)) l))
  = List.length (filter p l).
Proof.
  intros Hnd Hin Hp. induction Hnd as [|a l Hna Hnd IH]; [destruct Hin|].
  simpl. destruct Hin as [->|Hin].
  - rewrite Hp, String.eqb_refl. simpl. f_equal. f_equal.
    apply filter_ext_in. intros y Hy.
    destruct (String.eqb_spec x y) as [->|_]; [contradiction|].
    now rewrite andb_true_r.
  - destruct (String.eqb_spec x a) as [->|_]; [contradiction|].
    rewrite andb_true_r. destruct (p a); simpl; now rewrite <- IH.
Qed.

Lemma unvisited_push (universe stack : list string) (x : string) :
  In x universe -> on_stack stack x = false ->
  (Datatypes.S (unvisited universe (x :: stack)) <= unvisited universe stack)%nat.
Proof.
  intros Hin Hx. unfold unvisited.
  rewrite <- (filter_without x (fun y => negb (on_stack stack y))
                (nodup string_dec universe)).
  - apply Nat.eq_le_incl. f_equal. f_equal. apply filter_ext. intros y.
    unfold on_stack. simpl. rewrite (String.eqb_sym y x).
    now destruct (String.eqb x y), (List.existsb _ stack).
  - apply NoDup_nodup.
  - now apply nodup_In.
  - now rewrite Hx.
Qed.

Lemma length_nodup (l : list string) :
  (List.length (nodup string_dec l) <= List.length l)%nat.
Proof.
  induction l as [|a l IH]; simpl; [lia|].
  destruct (in_dec string_dec a l); simpl; lia.
Qed.

Lemma unvisited_le (universe stack : list string) :
  (unvisited universe stack <= List.length universe)%nat.
Proof.
  unfold unvisited.
  eapply Nat.le_trans; [|apply length_nodup].
  rewrite <- (filter_length (fun x => negb (on_stack stack x))
                (nodup string_dec universe)).
  apply Nat.le_add_r.
Qed.

(** *** The evaluator within its fuel *)

Section Universe.

Variable universe : list string.

Lemma covered_kept {A : Type} (m : S A) (s : t) :
  keeps_cells m -> covered universe s -> covered universe (snd (m s)).
Proof.
  intros Hm Hcov k ast. destruct (Hm s) as (_ & _ & ->). apply Hcov.
Qed.

Lemma ends_Ok {A : Type} (a : A) : ends (Ok a).
Proof. intros h H. discriminate H. Qed.

Lemma ends_Raise {A : Type} (e : exn) : ends (@Raise A e).
Proof. intros h H. discriminate H. Qed.

Lemma ends_Halt {A B : Type} (h : halt) : ends (@Halt A h) -> ends (@Halt B h).
Proof. intros H h' [= <-]. now apply H. Qed.

Lemma fuelled_ret (fuel : nat) {A : Type} (a : A) : fuelled universe fuel (ret a).
Proof. intros s _ _. apply ends_Ok. Qed.

Lemma fuelled_raise (fuel : nat) {A : Type} (e : exn) :
  fuelled universe fuel (@raise t A e).
Proof. intros s _ _. apply ends_Raise. Qed.

Lemma fuelled_lift (fuel : nat) {A : Type} (o : outcome A) :
  ends o -> fuelled universe fuel (lift o).
Proof. intros Ho s _ _. exact Ho. Qed.

Lemma fuelled_bind (fuel : nat) {A B : Type} (m : S A) (k : A -> S B) :
  fuelled universe fuel m -> keeps_cells m -> keeps_stack m ->
  (forall a, fuelled universe fuel (k a)) ->
  fuelled universe fuel (bind m k).
Proof.
  intros Hm Hcells Hstack Hk s Hcov Hfuel. unfold bind.
  specialize (Hm s Hcov Hfuel). pose proof (covered_kept m s Hcells Hcov) as Hcov1.
  specialize (Hstack s).
  destruct (m s) as [[a|e|h] s1]; cbn [fst snd] in *;
    [|apply ends_Raise|exact (ends_Halt h Hm)].
  apply Hk; [exact Hcov1|now rewrite Hstack].
Qed.

(** The arithmetic of the evaluator is modelled but for the power of a
    [float]. *)
Lemma arithmetic_ends (a b : pyval) :
  ends (PyNum.add a b) /\ ends (PyNum.sub a b) /\ ends (PyNum.mul a b)
  /\ ends (PyNum.truediv a b) /\ ends (PyNum.pow a b).
Proof.
  unfold PyNum.add, PyNum.sub, PyNum.mul, PyNum.truediv, PyNum.pow, PyNum.float_op,
    PyNum.to_float, PyNum.int_to_float.
  destruct a, b;
    repeat match goal with
           | |- context [if ?c then _ else _] => destruct c
           end; repeat split; intros h H; congruence.
Qed.

Ltac fuelled_step :=
  match goal with
  | |- fuelled _ _ (bind (lift _) _) =>
      apply fuelled_bind;
      [apply fuelled_lift, arithmetic_ends
      |apply keeps_lift|apply stack_lift|intros ?]
  | |- fuelled _ _ (bind _ _) =>
      apply fuelled_bind; [assumption|assumption|assumption|intros ?]
  | |- fuelled _ _ (ret _) => apply fuelled_ret
  | |- fuelled _ _ (raise _) => apply fuelled_raise
  | |- fuelled _ _ (lift _) => apply fuelled_lift, arithmetic_ends
  | |- fuelled _ _ (if ?b then _ else _) => destruct b
  end.

Lemma fuelled_visit_unary_op (fuel : nat) (operator : string) (operand : S pyval) :
  fuelled universe fuel operand -> keeps_cells operand -> keeps_stack operand ->
  fuelled universe fuel (visit_unary_op operator operand).
Proof. intros Ho Hc Hs. unfold visit_unary_op. repeat fuelled_step. Qed.

Lemma fuelled_visit_binary_op (fuel : nat) (operator : string) (lhs rhs : S pyval) :
  fuelled universe fuel lhs -> keeps_cells lhs -> keeps_stack lhs ->
  fuelled universe fuel rhs -> keeps_cells rhs -> keeps_stack rhs ->
  fuelled universe fuel (visit_binary_op operator lhs rhs).
Proof.
  intros Hl Hlc Hls Hr Hrc Hrs. unfold visit_binary_op. repeat fuelled_step.
Qed.

(** A reference that is not on the stack yet takes one unit of fuel. *)
Lemma fuelled_visit_cell_ref (fuel : nat) (provider : CellReference.t -> S pyval)
    (reference : CellReference.t) :
  In (CellReference.to_string reference) universe ->
  (forall fuel', fuel = Datatypes.S fuel' ->
     fuelled universe fuel' (provider reference)) ->
  fuelled universe fuel (visit_cell_ref provider reference).
Proof.
  intros Hin Hp s Hcov Hfuel. unfold visit_cell_ref, bind, stack_contains.
  destruct (List.existsb _ (_evaluation_stack s)) eqn:E; [apply ends_Raise|].
  pose proof (unvisited_push universe _ _ Hin E) as Hpush.
  destruct fuel as [|fuel']; [lia|].
  unfold stack_add. rewrite E. unfold try_finally, try_except.
  match goal with
  | |- context [provider reference ?s1] =>
      pose proof (Hp fuel' eq_refl s1) as H;
      destruct (provider reference s1) as [[v|e|h] s2]
  end; cbn [fst snd raise] in *; [apply ends_Ok|apply ends_Raise|].
  apply H; [exact Hcov|cbn [_evaluation_stack]; lia].
Qed.

Lemma fuelled_provider (fuel : nat) (accept : ASTNode -> S pyval)
    (reference : CellReference.t) :
  (forall ast, incl (references ast) universe -> fuelled universe fuel (accept ast)) ->
  fuelled universe fuel (_get_cell_value_for_evaluator accept reference).
Proof.
  intros Hacc s Hcov Hfuel.
  unfold _get_cell_value_for_evaluator, Table.get_cell_by_reference, bind.
  destruct (CellReference.to_indices reference) as [row col].
  pose proof (keeps_get_cell row col s) as Hkeep.
  pose proof (stack_on_table (Table.get_cell row col) s) as Hstack.
  unfold on_table in *.
  pose proof (get_cell_spec row col (table s)) as Hspec.
  destruct (Table.get_cell row col (table s)) as [r t1]. cbn [fst snd] in *.
  destruct Hspec as (_ & _ & _ & Hres).
  assert (Hcell : forall c, r = Ok c -> c = cell_of (Table.cells (table s)) (row, col)).
  { intros c ->.
    destruct ((0 <=? row) && (row <? Table.rows (table s))); [|discriminate].
    destruct ((0 <=? col) && (col <? Table.columns (table s))); [|discriminate].
    destruct Hres as [Hres _]. congruence. }
  destruct r as [c|e|h]; [|apply ends_Raise|].
  - specialize (Hcell c eq_refl).
    destruct (Cell.error c); [apply ends_Raise|].
    destruct (Cell.is_empty c); [apply ends_Ok|].
    destruct (Cell.is_literal c);
      [destruct (PyInt.int _); [apply ends_Ok|apply ends_Raise]|].
    destruct (Cell.is_formula c); [|apply ends_Raise].
    destruct (Cell.ast c) as [ast|] eqn:Hast; [|apply ends_Raise].
    apply Hacc.
    + apply (Hcov (row, col)). now rewrite <- Hcell.
    + intros k ast'. destruct Hkeep as (_ & _ & ->). apply Hcov.
    + exact Hfuel.
  - destruct ((0 <=? row) && (row <? Table.rows (table s)));
      [destruct ((0 <=? col) && (col <? Table.columns (table s)));
       [destruct Hres as [Hres _]|]|]; discriminate.
Qed.

(** The evaluator does not run out of fuel while the fuel is at least the
    number of references of the table that are not on the stack. *)
Lemma fuelled_accept (fuel : nat) :
  forall node, incl (references node) universe ->
    fuelled universe fuel (accept fuel node).
Proof.
  induction fuel as [|fuel IH];
    induction node as [v|ref|op operand IHo|op lhs IHl rhs IHr]; intros Hincl.
  - apply fuelled_ret.
  - apply fuelled_visit_cell_ref; [apply Hincl; now left|]. discriminate.
  - apply fuelled_visit_unary_op;
      [now apply IHo|exact (keeps_accept 0 operand)|exact (stack_accept 0 operand)].
  - simpl in Hincl.
    apply fuelled_visit_binary_op;
      [apply IHl|exact (keeps_accept 0 lhs)|exact (stack_accept 0 lhs)
      |apply IHr|exact (keeps_accept 0 rhs)|exact (stack_accept 0 rhs)];
      intros x Hx; apply Hincl, in_or_app; auto.
  - apply fuelled_ret.
  - apply fuelled_visit_cell_ref; [apply Hincl; now left|].
    intros fuel' Heq. injection Heq as <-. now apply fuelled_provider.
  - apply fuelled_visit_unary_op;
      [now apply IHo|exact (keeps_accept (Datatypes.S fuel) operand)
      |exact (stack_accept (Datatypes.S fuel) operand)].
  - simpl in Hincl.
    apply fuelled_visit_binary_op;
      [apply IHl|exact (keeps_accept (Datatypes.S fuel) lhs)
      |exact (stack_accept (Datatypes.S fuel) lhs)
      |apply IHr|exact (keeps_accept (Datatypes.S fuel) rhs)
      |exact (stack_accept (Datatypes.S fuel) rhs)];
      intros x Hx; apply Hincl, in_or_app; auto.
Qed.

Lemma evaluate_ends (fuel : nat) (ast : ASTNode) (current : option CellReference.t)
    (s : t) :
  covered universe s -> incl (references ast) universe ->
  (List.length universe <= fuel)%nat ->
  ends (fst (evaluate fuel ast current s)).
Proof.
  intros Hcov Hincl Hfuel. unfold evaluate, bind, stack_clear, try_except.
  assert (H : forall stack, ends (fst (accept fuel ast (mk (table s) stack)))).
  { intros stack. apply (fuelled_accept fuel ast Hincl).
    - exact Hcov.
    - simpl. pose proof (unvisited_le universe stack). lia. }
  destruct current as [ref|]; simpl;
    match goal with
    | |- context [accept fuel ast ?s1] =>
        let H1 := fresh in
        pose proof (H (_evaluation_stack s1)) as H1; simpl in H1;
        destruct (accept fuel ast s1) as [[v|e|h] s2]
    end; cbn [fst snd] in *; try apply ends_Ok; try assumption;
    destruct (_ || _); apply ends_Raise.
Qed.

Lemma from_indices_returns (row col : Z) (h : halt) :
  CellReference.from_indices row col <> Halt h.
Proof.
  unfold CellReference.from_indices, CellReference.make.
  destruct (_ || _); [discriminate|]. destruct (_ <? 1); discriminate.
Qed.

Lemma table_sim_refl (s : t) : table_sim s s.
Proof. apply table_sim_intro; try reflexivity. intros k. repeat split. Qed.

(** One cell of the pass, at a position of the table: it is calculated, and
    the trees stay. *)
Lemma calculate_cell_ends (fuel : nat) (row col : Z) (s : t) :
  covered universe s -> (List.length universe <= fuel)%nat ->
  0 <= row < Table.rows (table s) -> 0 <= col < Table.columns (table s) ->
  (fst (_calculate_cell fuel row col s) = Ok tt
   \/ fst (_calculate_cell fuel row col s) = Halt FloatPower)
  /\ covered universe (snd (_calculate_cell fuel row col s))
  /\ Table.rows (table (snd (_calculate_cell fuel row col s))) = Table.rows (table s)
  /\ Table.columns (table (snd (_calculate_cell fuel row col s)))
     = Table.columns (table s).
Proof.
  intros Hcov Hfuel Hrow Hcol.
  pose proof (calculate_cell_sim fuel row col s s (table_sim_refl s)) as H.
  cbv zeta in H. destruct H as (_ & Hrows & Hcols & _ & _ & Hother & Hself).
  split; [|split; [|split; assumption]].
  - rewrite calculate_cell_unfold.
    pose proof (keeps_get_cell row col s) as Hkeep.
    pose proof (get_cell_spec row col (table s)) as Hspec.
    unfold on_table in *.
    destruct (Table.get_cell row col (table s)) as [r t1]. cbn [fst snd] in *.
    destruct Hspec as (_ & _ & _ & Hres).
    assert ((0 <=? row) && (row <? Table.rows (table s)) = true) as Hr
      by (apply andb_true_iff; rewrite Z.leb_le, Z.ltb_lt; lia).
    assert ((0 <=? col) && (col <? Table.columns (table s)) = true) as Hc
      by (apply andb_true_iff; rewrite Z.leb_le, Z.ltb_lt; lia).
    rewrite Hr, Hc in Hres. destruct Hres as [-> _].
    destruct (Cell.ast _) as [ast|] eqn:Hast; [|now left].
    destruct (Cell.is_empty _); [now left|].
    destruct (CellReference.from_indices row col) as [ref|e|h] eqn:Href;
      [|now left|now destruct (from_indices_returns row col h)].
    match goal with
    | |- context [evaluate fuel ast ?cur ?s1] =>
        pose proof (evaluate_ends fuel ast cur s1) as H;
        destruct (evaluate fuel ast cur s1) as [[v|e|h] s2]
    end; [now left|now left|right].
    cbn [fst] in *. f_equal. apply H; [|now apply (Hcov (row, col))|exact Hfuel|reflexivity].
    intros k ast'. cbn [table]. destruct Hkeep as (_ & _ & ->). apply Hcov.
  - intros k ast.
    destruct (Z.eq_dec (fst k) row) as [Hkr|Hkr];
      [destruct (Z.eq_dec (snd k) col) as [Hkc|Hkc]|].
    + destruct k as [kr kc]. simpl in Hkr, Hkc. subst kr kc.
      destruct Hself as [(-> & _)|(value & error & -> & _)]; apply Hcov.
    + destruct (Hother k) as [-> _]; [|apply Hcov]. intros ->. now apply Hkc.
    + destruct (Hother k) as [-> _]; [|apply Hcov]. intros ->. now apply Hkr.
Qed.

Lemma calculate_loop_ends (fuel : nat) :
  forall (entries : list (Z * Z * Cell.t)) (s : t),
    covered universe s -> (List.length universe <= fuel)%nat ->
    (forall row col c, In (row, col, c) entries ->
       0 <= row < Table.rows (table s) /\ 0 <= col < Table.columns (table s)) ->
    fst (calculate_loop fuel entries s) = Ok tt
    \/ fst (calculate_loop fuel entries s) = Halt FloatPower.
Proof.
  induction entries as [|[[row col] c] entries IH]; intros s Hcov Hfuel Hin;
    [now left|].
  rewrite calculate_loop_cons.
  destruct (pending (cell_of (Table.cells (table s)) (row, col))).
  - destruct (Hin row col c (or_introl eq_refl)) as [Hrow Hcol].
    destruct (calculate_cell_ends fuel row col s Hcov Hfuel Hrow Hcol)
      as (Hr & Hcov1 & Hrows & Hcols).
    destruct (_calculate_cell fuel row col s) as [[u|e|h] s1]; cbn [fst snd] in *.
    + apply IH; [assumption..|]. intros row' col' c' H'.
      rewrite Hrows, Hcols. apply (Hin row' col' c'). now right.
    + destruct Hr; discriminate.
    + exact Hr.
  - apply IH; [assumption..|]. intros row' col' c' H'.
    apply (Hin row' col' c'). now right.
Qed.

End Universe.

Lemma covered_table (s : t) : covered (table_references (Table.cells (table s))) s.
Proof.
  intros k ast Hast x Hx. unfold cell_of in Hast.
  destruct (Table.lookup k (Table.cells (table s))) as [c|] eqn:E; [|discriminate].
  apply lookup_Some_In in E. apply in_flat_map. exists (k, c). simpl.
  rewrite Hast. auto.
Qed.

(** An evaluation pass ends when the fuel is at least the number of
    references in the trees of the table: every cell is calculated, unless
    the power of a [float] is met. *)
Lemma calculate_all_ends (fuel : nat) (s : t) :
  well_formed (table s) ->
  (List.length (table_references (Table.cells (table s))) <= fuel)%nat ->
  fst (calculate_all fuel s) = Ok tt \/ fst (calculate_all fuel s) = Halt FloatPower.
Proof.
  intros (_ & _ & _ & Hin) Hfuel. unfold calculate_all.
  apply (calculate_loop_ends (table_references (Table.cells (table s))));
    [apply covered_table|exact Hfuel|].
  intros row col c H. unfold Table.get_all_cells in H.
  apply in_map_iff in H as ([[r c0] x] & [= <- <- <-] & H).
  apply filter_In in H as [H _]. apply (Hin _ _ H).
Qed.



(** The evaluator reads the table and gives the stack back: whatever the
    tree and however the walk ends, the evaluation stack is the one it
    started from, what [visit_cell_ref] added being discarded by its
    [finally], and every cell of the table is as it was. *)
Theorem evaluator_restores_the_stack (fuel : nat) (node : ASTNode) (self : t) :
  _evaluation_stack (after (accept fuel node) self) = _evaluation_stack self
  /\ forall row col,
       cell_at (after (accept fuel node) self) row col = cell_at self row col.
Proof.
  split; [apply stack_accept|]. intros row col.
  destruct (keeps_accept fuel node self) as (_ & _ & H). apply (H (row, col)).
Qed.

End FuelFacts.

(** ** table_service.py: loading a snapshot *)

Module LoadFacts.
Import TableFacts SimFacts FrameFacts PassFacts TableService.

Local Open Scope list_scope.

Lemma update_app_new (k : Table.key) (f : Cell.t -> Cell.t) (c : Cell.t)
    (d : list (Table.key * Cell.t)) :
  Table.lookup k d = None ->
  Table.update k f (d ++ [(k, c)]) = d ++ [(k, f c)].
Proof.
  induction d as [|[k0 c0] d IH]; simpl.
  - intros _. now rewrite key_eqb_refl.
  - destruct (Table.key_eqb k k0); [discriminate|]. intros H. now rewrite IH.
Qed.

Lemma lookup_app_new (k : Table.key) (c : Cell.t) (d : list (Table.key * Cell.t)) :
  Table.lookup k d = None -> Table.lookup k (d ++ [(k, c)]) = Some c.
Proof. intros H. rewrite lookup_app, H. simpl. now rewrite key_eqb_refl. Qed.

Lemma not_empty_text (e : string) :
  Cell.is_empty (Cell.new e) = false -> String.eqb "" e = false.
Proof. destruct e; [discriminate|reflexivity]. Qed.

Lemma bind_ok {A B : Type} (m : S A) (k : A -> S B) (s s1 : t) (a : A) :
  m s = (Ok a, s1) -> bind m k s = k a s1.
Proof. intros H. unfold bind. now rewrite H. Qed.

Lemma get_cell_absent (row col R C : Z) (d : list (Table.key * Cell.t))
    (st : list string) :
  (0 <=? row) && (row <? R) = true ->
  (0 <=? col) && (col <? C) = true ->
  Table.lookup (row, col) d = None ->
  on_table (Table.get_cell row col) (mk (Table.mk R C d) st)
  = (Ok (Cell.new ""), mk (Table.mk R C (d ++ [((row, col), Cell.new "")])) st).
Proof.
  intros Hrow Hcol Habsent.
  unfold on_table, Table.get_cell, bind, Table._validate_indices.
  cbn [Table.rows Table.columns Table.cells table _evaluation_stack].
  rewrite Hrow, Hcol. cbn [negb Table.cells]. now rewrite Habsent.
Qed.

Lemma get_cell_present (row col R C : Z) (d : list (Table.key * Cell.t))
    (st : list string) (c : Cell.t) :
  (0 <=? row) && (row <? R) = true ->
  (0 <=? col) && (col <? C) = true ->
  Table.lookup (row, col) d = Some c ->
  on_table (Table.get_cell row col) (mk (Table.mk R C d) st)
  = (Ok c, mk (Table.mk R C d) st).
Proof.
  intros Hrow Hcol Hc.
  unfold on_table, Table.get_cell, bind, Table._validate_indices.
  cbn [Table.rows Table.columns Table.cells table _evaluation_stack].
  rewrite Hrow, Hcol. cbn [negb Table.cells]. now rewrite Hc.
Qed.

Lemma modify_new (row col R C : Z) (d : list (Table.key * Cell.t))
    (st : list string) (f : Cell.t -> Cell.t) (c : Cell.t) :
  Table.lookup (row, col) d = None ->
  modify row col f (mk (Table.mk R C (d ++ [((row, col), c)])) st)
  = (Ok tt, mk (Table.mk R C (d ++ [((row, col), f c)])) st).
Proof.
  intros Habsent. unfold modify, on_table, Table.modify.
  cbn [Table.rows Table.columns Table.cells table _evaluation_stack].
  now rewrite update_app_new.
Qed.

(** [set_cell_expression] where the table holds no cell yet. *)
Lemma set_cell_expression_new (row col : Z) (e : string) (R C : Z)
    (d : list (Table.key * Cell.t)) (st : list string) :
  (0 <=? row) && (row <? R) = true ->
  (0 <=? col) && (col <? C) = true ->
  Table.lookup (row, col) d = None ->
  Cell.is_empty (Cell.new e) = false ->
  (forall h, ExpressionParser.parse (Cell.get_formula_expression (Cell.new e)) <> Halt h) ->
  exists res,
    set_cell_expression row col e (mk (Table.mk R C d) st)
    = (Ok res, mk (Table.mk R C (d ++ [((row, col), assigned_cell e)])) st).
Proof.
  intros Hrow Hcol Habsent Hne Hhalt.
  assert (Hset : Cell.set_expression e (Cell.new "") = Cell.new e).
  { unfold Cell.set_expression, Cell.new. cbn [Cell.expression].
    now rewrite (not_empty_text e Hne). }
  unfold set_cell_expression.
  rewrite (bind_ok _ _ _ _ _ (get_cell_absent row col R C d st Hrow Hcol Habsent)).
  rewrite (bind_ok _ _ _ _ _ (modify_new row col R C d st _ _ Habsent)).
  rewrite Hset.
  rewrite (bind_ok _ _ _ _ _ (get_cell_present row col R C _ st (Cell.new e) Hrow Hcol
                                (lookup_app_new _ _ _ Habsent))).
  rewrite Hne. unfold assigned_cell. fold (Cell.new e).
  destruct (Cell.is_literal (Cell.new e)) eqn:Hlit.
  - repeat rewrite (bind_ok _ _ _ _ _ (modify_new row col R C d st _ _ Habsent)).
    eexists. reflexivity.
  - assert (Hform : Cell.is_formula (Cell.new e) = true).
    { unfold Cell.is_literal in Hlit. rewrite Hne in Hlit. simpl in Hlit.
      now destruct (Cell.is_formula (Cell.new e)). }
    rewrite Hform.
    destruct (ExpressionParser.parse (Cell.get_formula_expression (Cell.new e)))
      as [ast|ex|h] eqn:Hparse.
    + repeat rewrite (bind_ok _ _ _ _ _ (modify_new row col R C d st _ _ Habsent)).
      eexists. reflexivity.
    + destruct ex;
        repeat rewrite (bind_ok _ _ _ _ _ (modify_new row col R C d st _ _ Habsent));
        eexists; reflexivity.
    + now destruct (Hhalt h).
Qed.

Lemma load_loop_spec (R C : Z) (st : list string) :
  forall (cells : list (Z * Z * string)) (d : list (Table.key * Cell.t)),
    (forall rce, In rce cells ->
       (0 <=? fst (fst rce)) && (fst (fst rce) <? R) = true
       /\ (0 <=? snd (fst rce)) && (snd (fst rce) <? C) = true
       /\ Cell.is_empty (Cell.new (snd rce)) = false
       /\ forall h, ExpressionParser.parse
                      (Cell.get_formula_expression (Cell.new (snd rce))) <> Halt h) ->
    NoDup (map fst cells) ->
    (forall rce, In rce cells -> Table.lookup (fst rce) d = None) ->
    load_loop cells (mk (Table.mk R C d) st)
    = (Ok tt, mk (Table.mk R C (d ++ loaded cells)) st).
Proof.
  induction cells as [|[[row col] e] cells IH]; intros d Hall Hnd Hfresh.
  - simpl. unfold ret. now rewrite app_nil_r.
  - cbn [load_loop]. unfold bind at 1.
    destruct (Hall (row, col, e) (or_introl eq_refl)) as (Hrow & Hcol & Hne & Hhalt).
    simpl in Hrow, Hcol, Hne, Hhalt.
    destruct (set_cell_expression_new row col e R C d st Hrow Hcol
                (Hfresh (row, col, e) (or_introl eq_refl)) Hne Hhalt) as [res ->].
    simpl in Hnd. inversion Hnd as [|? ? Hnotin Hnd']; subst.
    rewrite IH; auto.
    + unfold loaded. simpl. now rewrite <- app_assoc.
    + intros rce Hin. apply Hall. now right.
    + intros rce Hin. rewrite lookup_app, (Hfresh rce (or_intror Hin)). simpl.
      rewrite key_eqb_neq; [reflexivity|].
      intros Heq. apply Hnotin. rewrite <- Heq. now apply in_map.
Qed.


Lemma get_all_cells_listed (table : Table.t) :
  Table.get_all_cells table = filter listed (Table.cells table).
Proof.
  unfold Table.get_all_cells.
  change (fun kc : Table.key * Cell.t => negb (Cell.is_empty (snd kc))) with listed.
  generalize (filter listed (Table.cells table)). intros l.
  induction l as [|[[r c] x] l IH]; simpl; [reflexivity|].
  apply (f_equal (cons (r, c, x))). exact IH.
Qed.

Lemma filter_twice {A : Type} (p : A -> bool) (l : list A) :
  filter p (filter p l) = filter p l.
Proof.
  induction l as [|x l IH]; simpl; [reflexivity|].
  destruct (p x) eqn:E; simpl; [|exact IH]. now rewrite E, IH.
Qed.

Lemma filter_listed_twice (d : list (Table.key * Cell.t)) :
  filter (fun rcc : Z * Z * Cell.t => negb (Cell.is_empty (snd rcc))) (filter listed d)
  = filter listed d.
Proof. exact (filter_twice listed d). Qed.

Lemma export_cells (s : t) :
  snap_cells (get_table_data_for_export s)
  = map (fun kc => (fst kc, Cell.expression (snd kc))) (filter listed (Table.cells (table s))).
Proof.
  unfold get_table_data_for_export. cbn [snap_cells].
  rewrite get_all_cells_listed, filter_listed_twice.
  generalize (filter listed (Table.cells (table s))). intros l.
  induction l as [|[[r c] x] l IH]; simpl; [reflexivity|].
  apply (f_equal (cons (r, c, Cell.expression x))). exact IH.
Qed.


Lemma assigned_cell_expression (e : string) : Cell.expression (assigned_cell e) = e.
Proof.
  unfold assigned_cell.
  repeat match goal with
         | |- context [match ?x with _ => _ end] => destruct x
         end; reflexivity.
Qed.

Lemma assigned_cell_cached (e : string) : Cell.cached_value (assigned_cell e) = None.
Proof.
  unfold assigned_cell.
  repeat match goal with
         | |- context [match ?x with _ => _ end] => destruct x
         end; reflexivity.
Qed.

Lemma is_empty_expression (c c' : Cell.t) :
  Cell.expression c = Cell.expression c' -> Cell.is_empty c = Cell.is_empty c'.
Proof. unfold Cell.is_empty. now intros ->. Qed.



End LoadFacts.

(** ** table_service.py: a cell that refers to itself *)

Module SelfReferenceFacts.
Import TableFacts SimFacts FrameFacts PassFacts LoadFacts EvaluatorFacts TableService.

Local Open Scope list_scope.

Lemma cell_at_cell_of (s : t) (row col : Z) :
  cell_at s row col = cell_of (Table.cells (table s)) (row, col).
Proof. reflexivity. Qed.

Lemma set_expression_text (value : string) (c : Cell.t) :
  Cell.expression (Cell.set_expression value c) = value.
Proof.
  unfold Cell.set_expression.
  destruct (String.eqb_spec (Cell.expression c) value); simpl; auto.
Qed.

(** Assigning "=A1" to A1 leaves the tree of the reference in A1. *)
Lemma assign_self_reference (self : t) :
  1 <= Table.rows (table self) -> 1 <= Table.columns (table self) ->
  refers_to_itself (after (set_cell_expression 0 0 "=A1") self).
Proof.
  intros Hrows Hcols. destruct self as [[R C d] st]. simpl in Hrows, Hcols.
  assert (Hrow : (0 <=? 0) && (0 <? R) = true)
    by (apply andb_true_iff; rewrite Z.leb_le, Z.ltb_lt; lia).
  assert (Hcol : (0 <=? 0) && (0 <? C) = true)
    by (apply andb_true_iff; rewrite Z.leb_le, Z.ltb_lt; lia).
  assert (Hfirst : exists d1 c0,
             on_table (Table.get_cell 0 0) (mk (Table.mk R C d) st)
             = (Ok c0, mk (Table.mk R C d1) st)
             /\ Table.lookup (0, 0) d1 = Some c0).
  { destruct (Table.lookup (0, 0) d) as [c0|] eqn:E.
    - exists d, c0. split; [now apply get_cell_present|exact E].
    - exists (d ++ [((0, 0), Cell.new "")]), (Cell.new "").
      split; [now apply get_cell_absent|now apply lookup_app_new]. }
  destruct Hfirst as (d1 & c0 & Hget & Hc0).
  unfold after, set_cell_expression.
  rewrite (bind_ok _ _ _ _ _ Hget).
  set (c1 := Cell.set_expression "=A1" c0).
  assert (Htext : Cell.expression c1 = "=A1") by apply set_expression_text.
  set (d2 := Table.update (0, 0) (Cell.set_expression "=A1") d1).
  assert (Hc1 : Table.lookup (0, 0) d2 = Some c1).
  { unfold d2. rewrite lookup_update, key_eqb_refl, Hc0. reflexivity. }
  assert (Hmod : modify 0 0 (Cell.set_expression "=A1") (mk (Table.mk R C d1) st)
                 = (Ok tt, mk (Table.mk R C d2) st)) by reflexivity.
  rewrite (bind_ok _ _ _ _ _ Hmod).
  rewrite (bind_ok _ _ _ _ _ (get_cell_present 0 0 R C d2 st c1 Hrow Hcol Hc1)).
  assert (Hempty : Cell.is_empty c1 = false) by (unfold Cell.is_empty; now rewrite Htext).
  assert (Hform : Cell.is_formula c1 = true) by (unfold Cell.is_formula; now rewrite Htext).
  assert (Hlit : Cell.is_literal c1 = false)
    by (unfold Cell.is_literal; now rewrite Hempty, Hform).
  assert (Hparse : ExpressionParser.parse (Cell.get_formula_expression c1)
                   = Ok (CellRefNode A1)).
  { unfold Cell.get_formula_expression. rewrite Hform, Htext. reflexivity. }
  rewrite Hempty, Hlit, Hform, Hparse.
  unfold bind, modify, on_table, Table.modify, ret. cbn [fst snd table Table.rows Table.columns Table.cells].
  unfold refers_to_itself, cell_at. cbn [table Table.rows Table.columns Table.cells].
  rewrite !lookup_update, key_eqb_refl, Hc1. cbn [option_map].
  unfold Cell.is_empty, Cell.is_formula, Cell.set_error, Cell.set_ast.
  cbn [Cell.expression Cell.ast]. rewrite Htext. repeat split; assumption || reflexivity.
Qed.

(** The calculation of A1 where it refers to itself. *)
Lemma calculate_self_reference (fuel : nat) (s : t) :
  refers_to_itself s ->
  fst (_calculate_cell fuel 0 0 s) = Ok tt
  /\ refers_to_itself (snd (_calculate_cell fuel 0 0 s))
  /\ holds_self_reference_error (snd (_calculate_cell fuel 0 0 s)).
Proof.
  intros (Hrows & Hcols & Hempty & Hform & Hast).
  rewrite calculate_cell_unfold. unfold on_table.
  pose proof (get_cell_spec 0 0 (table s)) as Hspec.
  destruct (Table.get_cell 0 0 (table s)) as [r t1]. cbn [fst snd] in Hspec.
  destruct Hspec as (Hr1 & Hc1 & Hk1 & Hres).
  assert ((0 <=? 0) && (0 <? Table.rows (table s)) = true) as Hrow
    by (apply andb_true_iff; rewrite Z.leb_le, Z.ltb_lt; lia).
  assert ((0 <=? 0) && (0 <? Table.columns (table s)) = true) as Hcol
    by (apply andb_true_iff; rewrite Z.leb_le, Z.ltb_lt; lia).
  rewrite Hrow, Hcol in Hres. destruct Hres as [-> Hlook].
  rewrite cell_at_cell_of in Hempty, Hform, Hast.
  rewrite Hast, Hempty.
  change (CellReference.from_indices 0 0) with (Ok A1). cbv beta iota.
  rewrite evaluate_seeded_reference. cbn [fst snd].
  split; [reflexivity|].
  unfold refers_to_itself, holds_self_reference_error.
  rewrite !cell_at_cell_of, cell_of_write_result, key_eqb_refl.
  cbn [table Table.cells Table.rows Table.columns write_result]. rewrite Hlook.
  unfold calculated, cached_value_and_error, Cell.is_empty, Cell.is_formula in *.
  cbn [Cell.expression Cell.ast Cell.cached_value Cell.error].
  repeat split; try assumption; try congruence.
Qed.

Lemma refers_pending (s : t) :
  refers_to_itself s -> pending (cell_of (Table.cells (table s)) (0, 0)) = true.
Proof.
  intros (_ & _ & _ & Hform & Hast). rewrite cell_at_cell_of in Hform, Hast.
  unfold pending. now rewrite Hform, Hast.
Qed.

(** The calculation of another cell leaves A1 as it was. *)
Lemma calculate_other (fuel : nat) (row col : Z) (s : t) :
  (row, col) <> (0, 0) ->
  cell_at (snd (_calculate_cell fuel row col s)) 0 0 = cell_at s 0 0
  /\ Table.rows (table (snd (_calculate_cell fuel row col s))) = Table.rows (table s)
  /\ Table.columns (table (snd (_calculate_cell fuel row col s)))
     = Table.columns (table s).
Proof.
  intros Hne.
  pose proof (calculate_cell_sim fuel row col s s) as H. cbv zeta in H.
  destruct H as (_ & Hr & Hc & _ & _ & Hother & _).
  { apply table_sim_intro; try reflexivity. intros k. repeat split. }
  repeat split; try assumption.
  rewrite !cell_at_cell_of. apply Hother. congruence.
Qed.

(** The loop of the pass reaches A1 and leaves the error in it. *)
Lemma loop_self_reference (fuel : nat) :
  forall (entries : list (Z * Z * Cell.t)) (s : t),
    refers_to_itself s ->
    holds_self_reference_error s \/ In (0, 0) (map fst entries) ->
    fst (calculate_loop fuel entries s) = Ok tt ->
    holds_self_reference_error (snd (calculate_loop fuel entries s)).
Proof.
  induction entries as [|[[row col] c] entries IH]; intros s Hready Hdone Hok.
  - destruct Hdone as [Hdone|[]]. exact Hdone.
  - rewrite calculate_loop_cons in *.
    destruct (Z.eq_dec row 0) as [->|Hrow]; [destruct (Z.eq_dec col 0) as [->|Hcol]|].
    + rewrite (refers_pending s Hready) in *.
      destruct (calculate_self_reference fuel s Hready) as (Hres & Hready1 & Hdone1).
      destruct (_calculate_cell fuel 0 0 s) as [o s1]. cbn [fst snd] in *. subst o.
      apply IH; auto.
    + assert (Hne : (0, col) <> (0, 0)) by congruence.
      assert (Hdone' : holds_self_reference_error s \/ In (0, 0) (map fst entries)).
      { destruct Hdone as [H|[H|H]]; auto. simpl in H. congruence. }
      destruct (pending (cell_of (Table.cells (table s)) (0, col))); [|now apply IH].
      destruct (calculate_other fuel 0 col s Hne) as (Hcell & Hr & Hc).
      destruct (_calculate_cell fuel 0 col s) as [[[]|e|h] s1]; cbn [fst snd] in *;
        try discriminate.
      apply IH; [|destruct Hdone' as [H|H]; [left|now right]|exact Hok].
      * unfold refers_to_itself in *. now rewrite Hcell, Hr, Hc.
      * unfold holds_self_reference_error in *. now rewrite Hcell.
    + assert (Hne : (row, col) <> (0, 0)) by congruence.
      assert (Hdone' : holds_self_reference_error s \/ In (0, 0) (map fst entries)).
      { destruct Hdone as [H|[H|H]]; auto. simpl in H. congruence. }
      destruct (pending (cell_of (Table.cells (table s)) (row, col))); [|now apply IH].
      destruct (calculate_other fuel row col s Hne) as (Hcell & Hr & Hc).
      destruct (_calculate_cell fuel row col s) as [[[]|e|h] s1]; cbn [fst snd] in *;
        try discriminate.
      apply IH; [|destruct Hdone' as [H|H]; [left|now right]|exact Hok].
      * unfold refers_to_itself in *. now rewrite Hcell, Hr, Hc.
      * unfold holds_self_reference_error in *. now rewrite Hcell.
Qed.

(** C5: an evaluation seeded with the reference of the cell itself raises
    the circular-reference error at once when the tree is that reference.
    In any table, after "=A1" is assigned to A1, A1 holds the tree of the
    reference, and an evaluation pass that ends leaves in A1 the error of
    the circular reference and no cached value; in a new table the pass
    does end. *)
Theorem direct_self_reference (fuel : nat) :
  (forall ref self,
     evaluate fuel (CellRefNode ref) (Some ref) self
     = (Raise (CircularReferenceError
                 ("Виявлено циклічне посилання на клітинку "
                  ++ CellReference.to_string ref)),
        mk (table self) [CellReference.to_string ref]))
  /\ (forall self,
        1 <= Table.rows (table self) -> 1 <= Table.columns (table self) ->
        let assigned_A1 := after (set_cell_expression 0 0 "=A1") self in
        Cell.ast (cell_at assigned_A1 0 0) = Some (CellRefNode A1)
        /\ (fst (calculate_all fuel assigned_A1) = Ok tt ->
            cached_value_and_error (cell_at (after (calculate_all fuel) assigned_A1) 0 0)
            = (None,
               Some "Циклічне посилання: Виявлено циклічне посилання на клітинку A1")))
  /\ fst ((set_cell_expression 0 0 "=A1" ;;; calculate_all fuel) new) = Ok tt
  /\ cached_value_and_error (formula_in_A1 fuel "=A1")
     = (None, Some "Циклічне посилання: Виявлено циклічне посилання на клітинку A1").
Proof.
  split; [|split; [|split]].
  - intros ref self. apply evaluate_seeded_reference.
  - intros self Hrows Hcols. cbv zeta.
    pose proof (assign_self_reference self Hrows Hcols) as Hready.
    split; [apply Hready|]. intros Hok.
    apply (loop_self_reference fuel _ _ Hready); [|exact Hok].
    right. destruct Hready as (_ & _ & Hempty & _ & _).
    unfold cell_at in Hempty.
    destruct (Table.lookup (0, 0) (Table.cells (table (after (set_cell_expression 0 0 "=A1") self))))
      as [c|] eqn:E; [|discriminate].
    apply lookup_Some_In in E. unfold Table.get_all_cells. rewrite map_map.
    apply in_map_iff. exists ((0, 0), c). split; [reflexivity|].
    apply filter_In. split; [exact E|]. cbn [snd]. now rewrite Hempty.
  - destruct fuel; reflexivity.
  - destruct fuel; reflexivity.
Qed.

End SelfReferenceFacts.

(** ** The persistence round trip *)

Module RoundTripFacts.
Import TableFacts SimFacts FrameFacts PassFacts FuelFacts LoadFacts TableService.

Local Open Scope list_scope.








End RoundTripFacts.

(** ** cell_reference.py: indices to references, and the references of a text *)

Module IndexFacts.
Import PyStr PyStrFacts PyInt PyIntFacts CellReference CellReferenceFacts.

Lemma column_to_index_loop_app (a b : string) (v : Z) :
  column_to_index_loop (a ++ b) v = column_to_index_loop b (column_to_index_loop a v).
Proof. revert v. induction a as [|c a IH]; intros v; simpl; [reflexivity|apply IH]. Qed.

Lemma letter_of_digit (d : Z) :
  0 <= d < 26 ->
  is_A_Z (chr (ord "A" + d)) = true /\ ord (chr (ord "A" + d)) - ord "A" + 1 = d + 1.
Proof.
  intros H. change (ord "A") with 65. unfold is_A_Z.
  rewrite between_spec, ord_chr by lia. lia.
Qed.

(** What the loop of [_index_to_column] writes before [column]: letters of
    A-Z that [_column_to_index] reads back as [index]. *)
Lemma index_to_column_loop_spec (fuel : nat) :
  forall index column, 0 <= index < 2 ^ Z.of_nat fuel ->
  exists letters,
    index_to_column_loop fuel index column = letters ++ column
    /\ forallb is_A_Z letters = true
    /\ (0 < index -> letters <> EmptyString)
    /\ forall v, column_to_index_loop letters v
                 = v * 26 ^ Z.of_nat (String.length letters) + index.
Proof.
  induction fuel as [|fuel IH]; intros index column Hindex.
  - change (2 ^ Z.of_nat 0) with 1 in Hindex. assert (index = 0) as -> by lia.
    exists EmptyString.
      split; [reflexivity|split; [reflexivity|split; [lia|intros v; simpl; lia]]].
  - cbn [index_to_column_loop]. destruct (Z.ltb_spec 0 index) as [Hpos|Hzero].
    + rewrite Nat2Z.inj_succ, Z.pow_succ_r in Hindex by apply Nat2Z.is_nonneg.
      pose proof (Z.div_mod (index - 1) 26 ltac:(lia)) as Hdm.
      pose proof (Z.mod_pos_bound (index - 1) 26 ltac:(lia)) as Hmod.
      assert (Hq : 0 <= (index - 1) / 26 < 2 ^ Z.of_nat fuel).
      { split; [apply Z.div_pos; lia|]. apply Z.div_lt_upper_bound; lia. }
      destruct (IH ((index - 1) / 26)
                  (String (chr (ord "A" + (index - 1) mod 26)) column) Hq)
        as (letters & Heq & Hall & _ & Hval).
      destruct (letter_of_digit ((index - 1) mod 26) Hmod) as [Hletter Hdigit].
      exists (letters ++ String (chr (ord "A" + (index - 1) mod 26)) EmptyString).
      split; [|split; [|split]].
      * rewrite Heq, append_assoc. reflexivity.
      * rewrite forallb_app, Hall. cbn [forallb andb]. now rewrite Hletter.
      * intros _. destruct letters; discriminate.
      * intros v. rewrite column_to_index_loop_app, Hval. cbn [column_to_index_loop].
        rewrite Hdigit, length_append. cbn [String.length].
        rewrite Nat.add_1_r, Nat2Z.inj_succ, Z.pow_succ_r by apply Nat2Z.is_nonneg.
        set (p := 26 ^ Z.of_nat (String.length letters)). nia.
    + assert (index = 0) as -> by lia.
      exists EmptyString.
      split; [reflexivity|split; [reflexivity|split; [lia|intros v; simpl; lia]]].
Qed.

Lemma index_to_column_spec (index : Z) :
  0 <= index ->
  _index_to_column index <> EmptyString
  /\ forallb is_A_Z (_index_to_column index) = true
  /\ _column_to_index (_index_to_column index) = index.
Proof.
  intros Hindex. unfold _index_to_column, _column_to_index.
  destruct (index_to_column_loop_spec (S (Z.to_nat (Z.log2 (index + 1))))
              (index + 1) EmptyString) as (letters & Heq & Hall & Hne & Hval).
  { split; [lia|]. rewrite Nat2Z.inj_succ, Z2Nat.id by apply Z.log2_nonneg.
    apply Z.log2_spec. lia. }
  rewrite Heq, append_empty_r. repeat split; auto; [apply Hne; lia|].
  rewrite Hval. lia.
Qed.

Lemma index_to_column_negative (index : Z) :
  index < 0 -> _index_to_column index = EmptyString.
Proof.
  intros H. unfold _index_to_column. cbn [index_to_column_loop].
  destruct (Z.ltb_spec 0 (index + 1)); [lia|reflexivity].
Qed.

(** [from_indices] gives a reference exactly for indices that are not
    negative; the reference has a column over A-Z and the row after the
    index, and [to_indices] gives the indices back.  A negative index
    raises ValueError. *)
Theorem indices_round_trip (row_index col_index : Z) :
  (0 <= row_index -> 0 <= col_index ->
   exists r,
     from_indices row_index col_index = Ok r
     /\ to_indices r = (row_index, col_index)
     /\ column r <> EmptyString /\ forallb is_A_Z (column r) = true
     /\ row r = row_index + 1)
  /\ (row_index < 0 \/ col_index < 0 ->
      exists message, from_indices row_index col_index = Raise (ValueError message)).
Proof.
  split.
  - intros Hrow Hcol. destruct (index_to_column_spec col_index Hcol) as (Hne & Hall & Hback).
    exists (mk (_index_to_column col_index) (row_index + 1)).
    unfold from_indices, to_indices. cbn [column row].
    rewrite make_A_Z by (auto; lia). rewrite Hback. repeat split; auto.
    f_equal. lia.
  - intros H. unfold from_indices.
    destruct (Z_lt_le_dec col_index 0) as [Hcol|Hcol].
    + rewrite (index_to_column_negative col_index Hcol). unfold make. simpl. eauto.
    + destruct H as [Hrow|]; [|lia].
      destruct (index_to_column_spec col_index Hcol) as (Hne & Hall & _).
      unfold make, isalpha, isupper.
      assert (is_empty_str (_index_to_column col_index) = false) as ->
        by (destruct (_index_to_column col_index); [congruence|reflexivity]).
      rewrite (forallb_impl is_A_Z isalpha_char _
                 (fun c Hc => proj1 (A_Z_cased c Hc)) Hall).
      rewrite (forallb_impl is_A_Z (fun c => negb (islower_char c)) (_index_to_column col_index));
        [|intros c Hc; destruct (A_Z_cased c Hc) as (_ & -> & _); reflexivity|exact Hall].
      assert (existsb isupper_char (_index_to_column col_index) = true) as ->.
      { destruct (_index_to_column col_index) as [|c column]; [congruence|]. simpl in *.
        apply andb_true_iff in Hall as [Hc _].
        destruct (A_Z_cased c Hc) as (_ & _ & ->). reflexivity. }
      simpl. destruct (Z.ltb_spec (row_index + 1) 1); [eauto|lia].
Qed.

Lemma indices_round_trip_witness :
  exists r,
    from_indices 9 27 = Ok r /\ to_indices r = (9, 27)
    /\ column r <> EmptyString /\ forallb is_A_Z (column r) = true /\ row r = 9 + 1.
Proof. apply (proj1 (indices_round_trip 9 27)); lia. Defined.

Lemma span_class (p : ascii -> bool) (s : string) :
  forallb p (fst (span p s)) = true.
Proof.
  induction s as [|c s IH]; simpl; [reflexivity|].
  destruct (p c) eqn:E; [|reflexivity].
  destruct (span p s) as [a b]. simpl in *. now rewrite E.
Qed.

Lemma from_string_spec (text : string) :
  match from_string text with
  | Ok r =>
      column r <> EmptyString /\ forallb is_A_Z (column r) = true /\ 1 <= row r
      /\ from_string (to_string r) = Ok r
      /\ from_indices (fst (to_indices r)) (snd (to_indices r)) = Ok r
  | Raise e => exists message, e = ValueError message
  | Halt _ => False
  end.
Proof.
  unfold from_string, PATTERN_match.
  pose proof (span_class is_A_Z (upper (strip text))) as Hall.
  destruct (span is_A_Z (upper (strip text))) as [letters digits]. cbn [fst] in Hall.
  destruct letters as [|c letters]; [simpl; eauto|].
  cbn [is_empty_str negb andb].
  destruct (negb (is_empty_str digits) && forallb isdecimal digits); [|eauto].
  destruct (int digits) as [n|]; [|eauto].
  destruct (Z_lt_le_dec n 1) as [Hn|Hn].
  - unfold make, isalpha, isupper. cbn [is_empty_str orb].
    rewrite (forallb_impl is_A_Z isalpha_char _
               (fun c Hc => proj1 (A_Z_cased c Hc)) Hall).
    rewrite (forallb_impl is_A_Z (fun c => negb (islower_char c)) (String c letters));
      [|intros c' Hc; destruct (A_Z_cased c' Hc) as (_ & -> & _); reflexivity|exact Hall].
    assert (existsb isupper_char (String c letters) = true) as ->.
    { simpl in *. apply andb_true_iff in Hall as [Hc _].
      destruct (A_Z_cased c Hc) as (_ & _ & ->). reflexivity. }
    simpl. destruct (Z.ltb_spec n 1); [eauto|lia].
  - rewrite make_A_Z by (auto; discriminate).
    cbn [column row]. repeat split; auto; try discriminate.
    + apply (from_string_to_string (mk (String c letters) n)); auto. discriminate.
    + apply (from_indices_to_indices (mk (String c letters) n)); auto. discriminate.
Qed.

(** The reference that [from_string] returns, for a text that may be
    padded with white space and in lower case, has a column over A-Z that
    is not empty and a row of one at least, and both conversions give it
    back; a text that gives no reference raises ValueError. *)
Theorem from_string_result (text : string) :
  match from_string text with
  | Ok r =>
      column r <> EmptyString /\ forallb is_A_Z (column r) = true /\ 1 <= row r
      /\ from_string (to_string r) = Ok r
      /\ from_indices (fst (to_indices r)) (snd (to_indices r)) = Ok r
  | Raise e => exists message, e = ValueError message
  | Halt _ => False
  end.
Proof. apply from_string_spec. Qed.

End IndexFacts.

(** ** expression_parser.py: what the tokenizer keeps and what the parser builds *)

Module LexerFacts.
Import PyStr PyStrFacts PyInt PyIntFacts ExpressionParser ParserRuns.

Lemma span_split (p : ascii -> bool) (s : string) :
  s = fst (span p s) ++ snd (span p s).
Proof.
  induction s as [|c s IH]; simpl; [reflexivity|].
  destruct (p c); [|reflexivity]. destruct (span p s) as [a b]. simpl in *. congruence.
Qed.

Lemma span_forallb (p : ascii -> bool) (s : string) :
  forallb p (fst (span p s)) = true.
Proof.
  induction s as [|c s IH]; simpl; [reflexivity|].
  destruct (p c) eqn:E; [|reflexivity].
  destruct (span p s) as [a b]. simpl in *. now rewrite E.
Qed.

Lemma drop_app (v r : string) : drop (String.length v) (v ++ r) = r.
Proof. induction v as [|c v IH]; simpl; [now destruct r|exact IH]. Qed.

Lemma without_spaces_app (a b : string) :
  without_spaces (a ++ b) = without_spaces a ++ without_spaces b.
Proof.
  induction a as [|c a IH]; simpl; [reflexivity|].
  destruct (isspace c); simpl; congruence.
Qed.

Lemma without_spaces_class (p : ascii -> bool) (s : string) :
  (forall c, p c = true -> isspace c = false) ->
  forallb p s = true -> without_spaces s = s.
Proof.
  intros Hp. induction s as [|c s IH]; simpl; [reflexivity|].
  rewrite andb_true_iff. intros [Hc Hs]. rewrite (Hp c Hc). now rewrite IH.
Qed.

Lemma decimal_not_space (c : ascii) : isdecimal c = true -> isspace c = false.
Proof. intros H. apply plain_not_space. unfold plain. rewrite H. apply orb_true_r. Qed.

Lemma A_Z_not_space (c : ascii) : is_A_Z c = true -> isspace c = false.
Proof. intros H. apply plain_not_space. unfold plain. now rewrite H. Qed.

Lemma matches_number : matches_prefix pat_number.
Proof.
  intros prev rest v. unfold pat_number.
  pose proof (span_split isdecimal rest) as Hsplit.
  pose proof (span_forallb isdecimal rest) as Hall.
  destruct (span isdecimal rest) as [ds r]. cbn [fst snd] in *.
  destruct ds as [|c ds]; [discriminate|]. intros [= <-].
  split; [discriminate|]. split.
  - now apply (without_spaces_class isdecimal); [apply decimal_not_space|].
  - rewrite Hsplit at 1. now rewrite Hsplit, drop_app.
Qed.

Lemma matches_cell_ref : matches_prefix pat_cell_ref.
Proof.
  intros prev rest v. unfold pat_cell_ref.
  pose proof (span_split is_A_Z rest) as Hsplit.
  pose proof (span_forallb is_A_Z rest) as Hall.
  destruct (span is_A_Z rest) as [ls r]. cbn [fst snd] in *.
  pose proof (span_split isdecimal r) as Hsplit2.
  pose proof (span_forallb isdecimal r) as Hall2.
  destruct (span isdecimal r) as [ds r']. cbn [fst snd] in *.
  destruct (_ || _) eqn:E; [discriminate|]. intros [= <-].
  apply orb_false_iff in E as [El Ed].
  split; [destruct ls; [discriminate|discriminate]|]. split.
  - rewrite without_spaces_app.
    rewrite (without_spaces_class is_A_Z ls A_Z_not_space Hall).
    now rewrite (without_spaces_class isdecimal ds decimal_not_space Hall2).
  - subst rest r. rewrite <- append_assoc. now rewrite drop_app.
Qed.

Lemma matches_char (c : ascii) : isspace c = false -> matches_prefix (pat_char c).
Proof.
  intros Hc prev rest v. unfold pat_char. destruct rest as [|c' rest]; [discriminate|].
  destruct (Ascii.eqb_spec c c') as [<-|]; [|discriminate]. intros [= <-].
  split; [discriminate|]. split; [simpl; now rewrite Hc|reflexivity].
Qed.

Lemma prefix_drop (word rest : string) :
  String.prefix word rest = true -> rest = word ++ drop (String.length word) rest.
Proof.
  revert rest. induction word as [|c word IH]; intros rest.
  - now destruct rest.
  - destruct rest as [|c' rest]; simpl; [discriminate|].
    destruct (Ascii.ascii_dec c c') as [<-|]; [|discriminate].
    intros H. now rewrite <- (IH rest H).
Qed.

Lemma matches_word (word : string) :
  word <> EmptyString -> without_spaces word = word -> matches_prefix (pat_word word).
Proof.
  intros Hne Hns prev rest v. unfold pat_word.
  destruct (String.prefix word rest) eqn:E; [|discriminate]. simpl.
  destruct (_ && _); [|discriminate]. intros [= <-].
  repeat split; auto. now apply prefix_drop.
Qed.

Lemma matches_patterns : Forall (fun tp => matches_prefix (snd tp)) TOKEN_PATTERNS.
Proof.
  unfold TOKEN_PATTERNS.
  repeat (apply Forall_cons;
          [cbn [snd];
           first [apply matches_number | apply matches_cell_ref
                 | apply matches_char; reflexivity
                 | apply matches_word; [discriminate|reflexivity]]|]).
  apply Forall_nil.
Qed.

Lemma first_match_prefix (ps : list (string * pattern)) (prev : option ascii)
    (rest token_type v : string) :
  Forall (fun tp => matches_prefix (snd tp)) ps ->
  first_match ps prev rest = Some (token_type, v) ->
  v <> EmptyString /\ without_spaces v = v /\ rest = v ++ drop (String.length v) rest.
Proof.
  induction 1 as [|[ty p] ps Hp Hps IH]; simpl; [discriminate|].
  destruct (p prev rest) as [v'|] eqn:E; [|exact IH].
  intros [= <- <-]. exact (Hp prev rest v' E).
Qed.

Lemma pat_number_value (prev : option ascii) (rest v : string) :
  pat_number prev rest = Some v -> v <> EmptyString /\ forallb isdecimal v = true.
Proof.
  unfold pat_number. pose proof (span_forallb isdecimal rest) as Hall.
  destruct (span isdecimal rest) as [ds r]. destruct ds; [discriminate|].
  intros [= <-]. split; [discriminate|exact Hall].
Qed.

Lemma pat_char_value (c : ascii) (prev : option ascii) (rest v : string) :
  pat_char c prev rest = Some v -> v = String c EmptyString.
Proof.
  unfold pat_char. destruct rest; [discriminate|].
  destruct (Ascii.eqb _ _); [|discriminate]. now intros [= <-].
Qed.

(** The text that a pattern gives to a token, for the types whose text the
    parser reads. *)
Lemma first_match_lexed (prev : option ascii) (rest token_type v : string)
    (position : Z) :
  first_match TOKEN_PATTERNS prev rest = Some (token_type, v) ->
  lexed (mkToken token_type v position).
Proof.
  unfold TOKEN_PATTERNS, first_match.
  repeat match goal with
         | |- context [match ?p prev rest with _ => _ end] =>
             let E := fresh "E" in
             destruct (p prev rest) eqn:E;
             [intros [= <- <-]; unfold lexed; cbn [type value];
              repeat match goal with |- _ /\ _ => split end;
              intros Htype; try discriminate Htype;
              first [exact (pat_number_value _ _ _ E) | exact (pat_char_value _ _ _ _ E)]
             |clear E]
         end.
  discriminate.
Qed.

Lemma substring_skip (pre v r : string) :
  String.substring (String.length pre) (String.length v) (pre ++ v ++ r) = v.
Proof.
  induction pre as [|c pre IH]; [|exact IH]. simpl.
  induction v as [|c v IHv]; simpl; [now destruct r|]. now rewrite IHv.
Qed.

Lemma substring_none (n : nat) (s : string) : String.substring n 0 s = EmptyString.
Proof.
  revert s. induction n as [|n IH]; intros [|c s]; simpl; auto.
Qed.

Lemma get_skip (pre : string) (c : ascii) (r : string) :
  String.get (String.length pre) (pre ++ String c r) = Some c.
Proof. induction pre as [|c' pre IH]; [reflexivity|exact IH]. Qed.

Lemma token_texts_app (a b : list Token) :
  token_texts (a ++ b) = token_texts a ++ token_texts b.
Proof.
  induction a as [|t a IH]; simpl; [reflexivity|]. now rewrite IH, append_assoc.
Qed.

(** The loop of the tokenizer, after the part [pre] of the expression. *)
Lemma tokenize_loop_keeps (expression : string) (fuel : nat) :
  forall (prev : option ascii) (pre rest : string) (toks : list Token),
    expression = pre ++ rest ->
    (String.length rest <= fuel)%nat ->
    token_texts toks = without_spaces pre ->
    Forall (token_at expression) toks ->
    Forall lexed toks ->
    match tokenize_loop fuel prev rest (Z.of_nat (String.length pre)) toks with
    | Ok ts =>
        token_texts ts = without_spaces expression
        /\ Forall (token_at expression) ts
        /\ Forall lexed ts
        /\ last ts (mkToken TOKEN_EOF "" 0)
           = mkToken TOKEN_EOF "" (Z.of_nat (String.length expression))
    | Raise e =>
        exists c p,
          e = ExpressionSyntaxError ("Невідомий символ: '" ++ String c "'") (Z.of_nat p)
          /\ String.get p expression = Some c /\ isspace c = false
    | Halt _ => False
    end.
Proof.
  assert (Hend : forall pre toks,
             expression = pre ++ "" ->
             token_texts toks = without_spaces pre ->
             Forall (token_at expression) toks ->
             Forall lexed toks ->
             token_texts (toks ++ [mkToken TOKEN_EOF "" (Z.of_nat (String.length pre))])
             = without_spaces expression
             /\ Forall (token_at expression)
                  (toks ++ [mkToken TOKEN_EOF "" (Z.of_nat (String.length pre))])
             /\ Forall lexed (toks ++ [mkToken TOKEN_EOF "" (Z.of_nat (String.length pre))])
             /\ last (toks ++ [mkToken TOKEN_EOF "" (Z.of_nat (String.length pre))])
                  (mkToken TOKEN_EOF "" 0)
                = mkToken TOKEN_EOF "" (Z.of_nat (String.length expression))).
  { intros pre toks Hexpr Htexts Hat Hlex. rewrite append_empty_r in Hexpr. subst pre.
    split; [|split; [|split]].
    - rewrite token_texts_app, Htexts. simpl. apply append_empty_r.
    - apply Forall_app. split; [exact Hat|]. constructor; [|constructor].
      split; cbn [position value String.length]; [lia|]. apply substring_none.
    - apply Forall_app. split; [exact Hlex|]. constructor; [|constructor].
      unfold lexed. cbn [type].
      repeat match goal with |- _ /\ _ => split end; intros Htype; discriminate Htype.
    - now rewrite last_last. }
  induction fuel as [|fuel IH]; intros prev pre rest toks Hexpr Hlen Htexts Hat Hlex.
  - destruct rest; [|simpl in Hlen; lia]. simpl. now apply Hend.
  - destruct rest as [|c rest']; [simpl; now apply Hend|].
    cbn [tokenize_loop]. destruct (isspace c) eqn:Hspace.
    + replace (Z.of_nat (String.length pre) + 1)
        with (Z.of_nat (String.length (pre ++ String c ""))).
      2:{ rewrite length_append. simpl. lia. }
      apply IH; auto.
      * rewrite append_assoc. exact Hexpr.
      * simpl in Hlen. lia.
      * rewrite without_spaces_app. simpl. rewrite Hspace, append_empty_r. exact Htexts.
    + destruct (first_match TOKEN_PATTERNS prev (String c rest')) as [[token_type v]|] eqn:E.
      * destruct (first_match_prefix _ _ _ _ _ matches_patterns E) as (Hv & Hns & Hrest).
        pose proof (first_match_lexed _ _ _ _ (Z.of_nat (String.length pre)) E) as Hlexed.
        set (r := drop (String.length v) (String c rest')) in *.
        replace (Z.of_nat (String.length pre) + Z.of_nat (String.length v))
          with (Z.of_nat (String.length (pre ++ v))).
        2:{ rewrite length_append. lia. }
        apply IH.
        -- rewrite append_assoc, <- Hrest. exact Hexpr.
        -- assert (String.length (String c rest')
                   = (String.length v + String.length r)%nat) as Hl
             by (rewrite Hrest at 1; apply length_append).
           destruct v; [congruence|]. simpl in Hl, Hlen |- *. lia.
        -- rewrite token_texts_app, without_spaces_app, Htexts, Hns. simpl.
           now rewrite append_empty_r.
        -- apply Forall_app. split; [exact Hat|]. constructor; [|constructor].
           split; cbn [position value]; [lia|]. rewrite Nat2Z.id.
           rewrite Hexpr, Hrest. apply substring_skip.
        -- apply Forall_app. split; [exact Hlex|]. constructor; [exact Hlexed|constructor].
      * exists c, (String.length pre). repeat split; auto.
        rewrite Hexpr. apply get_skip.
Qed.

(** The tokenizer loses white space and nothing else: the texts of the
    tokens it returns make up the expression without its white space, every
    token stands in the expression at its position, and the last token is
    the end token at the length of the expression.  What it raises is the
    syntax error of a character that no pattern fits, at the position of
    that character. *)
Theorem tokenize_keeps_the_text (expression : string) :
  match _tokenize expression with
  | Ok ts =>
      token_texts ts = without_spaces expression
      /\ Forall (token_at expression) ts
      /\ last ts (mkToken TOKEN_EOF "" 0)
         = mkToken TOKEN_EOF "" (Z.of_nat (String.length expression))
  | Raise e =>
      exists c p,
        e = ExpressionSyntaxError ("Невідомий символ: '" ++ String c "'") (Z.of_nat p)
        /\ String.get p expression = Some c /\ isspace c = false
  | Halt _ => False
  end.
Proof.
  pose proof (tokenize_loop_keeps expression (String.length expression) None
                EmptyString expression nil eq_refl (le_n _) eq_refl
                (Forall_nil _) (Forall_nil _)) as H.
  unfold _tokenize. change (Z.of_nat (String.length "")) with 0 in H.
  destruct (tokenize_loop _ _ _ _ _) as [ts|e|h]; [|exact H|exact H].
  destruct H as (H1 & H2 & _ & H4). auto.
Qed.

Lemma tokenize_lexed (expression : string) (ts : list Token) :
  _tokenize expression = Ok ts -> Forall lexed ts.
Proof.
  intros Hts.
  pose proof (tokenize_loop_keeps expression (String.length expression) None
                EmptyString expression nil eq_refl (le_n _) eq_refl
                (Forall_nil _) (Forall_nil _)) as H.
  unfold _tokenize in Hts. change (Z.of_nat (String.length "")) with 0 in H.
  rewrite Hts in H. apply H.
Qed.

End LexerFacts.

Module TreeFacts.
Import PyStr PyStrFacts PyInt PyIntFacts ExpressionParser ParserRuns IndexFacts LexerFacts.

Lemma digits_value_decimal (s : string) :
  forallb isdecimal s = true ->
  forall acc prev, s <> EmptyString \/ prev = true -> 0 <= acc ->
    exists n, digits_value acc prev s = Some n /\ 0 <= n.
Proof.
  induction s as [|c s IH]; intros Hall acc prev Hne Hacc.
  - destruct Hne as [Hne| ->]; [congruence|]. simpl. eauto.
  - simpl in Hall. apply andb_true_iff in Hall as [Hc Hs]. cbn [digits_value].
    rewrite Hc. apply IH; auto.
    unfold digit_val. unfold isdecimal in Hc. apply between_spec in Hc. lia.
Qed.

(** The digits of a number token read as an integer that is not negative. *)
Lemma int_of_digits (ds : string) (n : Z) :
  ds <> EmptyString -> forallb isdecimal ds = true -> int ds = Some n -> 0 <= n.
Proof.
  intros Hne Hall Hint.
  destruct (digits_value_decimal ds Hall 0 false (or_introl Hne) ltac:(lia))
    as (m & Hm & Hpos).
  rewrite (int_digits ds m Hne Hall Hm) in Hint. congruence.
Qed.

Lemma last_In (d : Token) (l : list Token) : l <> nil -> In (last l d) l.
Proof.
  induction l as [|a l IH]; [congruence|]. intros _.
  destruct l as [|b l]; [now left|]. right. apply IH. discriminate.
Qed.

Section Trees.

Variable ts : list Token.
Hypothesis Hlexed : Forall lexed ts.

Lemma current_lexed (st : state) : tokens st = ts -> lexed (current st).
Proof.
  intros Htok. unfold current. rewrite Htok.
  destruct (Nat.lt_ge_cases (current_pos st) (List.length ts)) as [Hlt|Hge].
  - apply (proj1 (Forall_forall lexed ts) Hlexed). now apply nth_In.
  - rewrite nth_overflow by exact Hge.
    destruct ts as [|t l] eqn:E.
    + unfold lexed. cbn [last type].
      repeat match goal with |- _ /\ _ => split end; intros H; discriminate H.
    + apply (proj1 (Forall_forall lexed (t :: l)) Hlexed). apply last_In. discriminate.
Qed.

Lemma yields_ret {A : Type} (Q : A -> Prop) (a : A) (st : state) :
  Q a -> yields ts Q (ret a) st.
Proof. intros H Htok a' st' [= <- <-]. auto. Qed.

Lemma yields_raise {A : Type} (Q : A -> Prop) (e : exn) (st : state) :
  yields ts Q (@raise state A e) st.
Proof. intros Htok a st' H. discriminate H. Qed.

Lemma yields_halts {A : Type} (Q : A -> Prop) (h : halt) (st : state) :
  yields ts Q (@halts state A h) st.
Proof. intros Htok a st' H. discriminate H. Qed.

Lemma yields_bind {A B : Type} (R : A -> Prop) (Q : B -> Prop)
    (m : P A) (k : A -> P B) (st : state) :
  yields ts R m st ->
  (forall a st', R a -> yields ts Q (k a) st') ->
  yields ts Q (bind m k) st.
Proof.
  intros Hm Hk Htok b st2. unfold bind.
  destruct (m st) as [[a|e|h] st1] eqn:E; try discriminate.
  destruct (Hm Htok a st1 E) as [Ha Htok1]. now apply Hk.
Qed.

Lemma yields_current {A : Type} (Q : A -> Prop) (k : Token -> P A) (st : state) :
  (tokens st = ts -> yields ts Q (k (current st)) st) ->
  yields ts Q (bind _current_token k) st.
Proof. intros Hk Htok. exact (Hk Htok Htok). Qed.

Lemma yields_consume {A : Type} (Q : A -> Prop) (expected : option string)
    (k : Token -> P A) (st : state) :
  yields ts Q (k (current st)) (advance st) ->
  yields ts Q (bind (_consume expected) k) st.
Proof.
  intros Hk Htok a st'. unfold bind. rewrite consume_eq.
  destruct expected as [e|]; [destruct (negb _); [discriminate|]|]; now apply Hk.
Qed.

Lemma yields_binary_loop (types : list string) (operator : Token -> string)
    (operand : P ASTNode) :
  (forall token, List.existsb (String.eqb (operator token)) binary_operators = true) ->
  (forall st, yields ts (fun a => documented a = true) operand st) ->
  forall (turns : nat) (left : ASTNode) (st : state),
    documented left = true ->
    yields ts (fun a => documented a = true)
      (binary_loop turns types operator operand left) st.
Proof.
  intros Hop Hoperand. induction turns as [|turns IH]; intros left st Hleft.
  - cbn [binary_loop]. apply yields_current. intros _.
    destruct (type_in (current st) types); [apply yields_halts|now apply yields_ret].
  - cbn [binary_loop]. apply yields_current. intros _.
    destruct (type_in (current st) types); [|now apply yields_ret].
    apply yields_consume.
    apply (yields_bind (fun a => documented a = true)); [apply Hoperand|].
    intros right st' Hright. apply IH. cbn [documented]. now rewrite Hop, Hleft, Hright.
Qed.

Lemma type_in_cases (token : Token) (types : list string) :
  type_in token types = true -> In (type token) types.
Proof.
  unfold type_in. intros H. apply List.existsb_exists in H as (x & Hx & Heq).
  apply String.eqb_eq in Heq. now subst.
Qed.

(** Every procedure of the grammar builds trees with the listed operators,
    numbers that are not negative and references over A-Z. *)
Lemma yields_grammar (fuel : nat) :
  (forall st, yields ts (fun a => documented a = true) (_parse_expression fuel) st)
  /\ (forall st, yields ts (fun a => documented a = true) (_parse_logical_or fuel) st)
  /\ (forall st, yields ts (fun a => documented a = true) (_parse_logical_and fuel) st)
  /\ (forall st, yields ts (fun a => documented a = true) (_parse_comparison fuel) st)
  /\ (forall st, yields ts (fun a => documented a = true) (_parse_additive fuel) st)
  /\ (forall st, yields ts (fun a => documented a = true) (_parse_multiplicative fuel) st)
  /\ (forall st, yields ts (fun a => documented a = true) (_parse_power fuel) st)
  /\ (forall st, yields ts (fun a => documented a = true) (_parse_unary fuel) st)
  /\ (forall st, yields ts (fun a => documented a = true) (_parse_primary fuel) st).
Proof.
  induction fuel as [|fuel IH];
    [repeat match goal with |- _ /\ _ => split end; intros st; apply yields_halts|].
  destruct IH as (Hexpr & Hor & Hand & Hcmp & Hadd & Hmul & Hpow & Hun & Hprim).
  repeat match goal with |- _ /\ _ => split end; intros st.
  - cbn [_parse_expression]. apply Hor.
  - cbn [_parse_logical_or].
    apply (yields_bind (fun a => documented a = true)); [apply Hand|].
    intros left st' Hleft. now apply yields_binary_loop.
  - cbn [_parse_logical_and].
    apply (yields_bind (fun a => documented a = true)); [apply Hcmp|].
    intros left st' Hleft. now apply yields_binary_loop.
  - cbn [_parse_comparison].
    apply (yields_bind (fun a => documented a = true)); [apply Hadd|].
    intros left st' Hleft. apply yields_current. intros Htok.
    destruct (type_in (current st') _) eqn:E; [|now apply yields_ret].
    apply yields_consume.
    apply (yields_bind (fun a => documented a = true)); [apply Hadd|].
    intros right st'' Hright. apply yields_ret.
    destruct (current_lexed st' Htok) as (_ & Heq & Hlt & Hgt).
    cbn [documented]. rewrite Hleft, Hright.
    apply type_in_cases in E. cbn [In] in E.
    destruct E as [E|[E|[E|[]]]]; symmetry in E;
      [rewrite (Heq E)|rewrite (Hlt E)|rewrite (Hgt E)]; reflexivity.
  - cbn [_parse_additive].
    apply (yields_bind (fun a => documented a = true)); [apply Hmul|].
    intros left st' Hleft. apply yields_binary_loop; auto.
    intros token. now destruct (String.eqb (type token) TOKEN_PLUS).
  - cbn [_parse_multiplicative].
    apply (yields_bind (fun a => documented a = true)); [apply Hpow|].
    intros left st' Hleft. apply yields_binary_loop; auto.
    intros token. now destruct (String.eqb (type token) TOKEN_MULTIPLY).
  - cbn [_parse_power].
    apply (yields_bind (fun a => documented a = true)); [apply Hun|].
    intros left st' Hleft. apply yields_current. intros _.
    destruct (String.eqb (type (current st')) TOKEN_POWER); [|now apply yields_ret].
    apply yields_consume.
    apply (yields_bind (fun a => documented a = true)); [apply Hpow|].
    intros right st'' Hright. apply yields_ret. cbn [documented].
    now rewrite Hleft, Hright.
  - cbn [_parse_unary]. apply yields_current. intros _.
    destruct (type_in (current st) _); [|apply Hprim].
    apply yields_consume.
    apply (yields_bind (fun a => documented a = true)); [apply Hun|].
    intros operand st' Hoperand. apply yields_ret. cbn [documented]. rewrite Hoperand.
    destruct (String.eqb (type (current st)) TOKEN_PLUS); [reflexivity|].
    now destruct (String.eqb (type (current st)) TOKEN_MINUS).
  - cbn [_parse_primary]. apply yields_current. intros Htok.
    destruct (String.eqb (type (current st)) TOKEN_NUMBER) eqn:E1.
    { apply yields_consume.
      destruct (int (value (current st))) as [n|] eqn:Hn; [|apply yields_raise].
      apply yields_ret. cbn [documented]. apply Z.leb_le.
      apply String.eqb_eq in E1.
      destruct (current_lexed st Htok) as (Hnum & _). destruct (Hnum E1) as [Hne Hall].
      exact (int_of_digits _ n Hne Hall Hn). }
    destruct (String.eqb (type (current st)) TOKEN_CELL_REF).
    { apply yields_consume.
      pose proof (from_string_spec (value (current st))) as Hspec.
      destruct (CellReference.from_string (value (current st))) as [ref|e|h];
        [|destruct e; apply yields_raise|apply yields_halts].
      apply yields_ret. destruct Hspec as (Hne & Hall & Hrow & _).
      cbn [documented]. rewrite Hall.
      destruct (CellReference.column ref); [congruence|].
      apply Z.leb_le in Hrow. now rewrite Hrow. }
    destruct (String.eqb (type (current st)) TOKEN_LPAREN); [|apply yields_raise].
    apply yields_consume.
    apply (yields_bind (fun a => documented a = true)); [apply Hexpr|].
    intros expr st' Hdoc. apply yields_consume. now apply yields_ret.
Qed.

End Trees.

Lemma parse_documented (expression : string) (ast : ASTNode) :
  parse expression = Ok ast -> documented ast = true.
Proof.
  unfold parse. destruct (is_empty_str (strip expression)); [discriminate|].
  destruct (_tokenize (strip expression)) as [ts|e|h] eqn:Hts; try discriminate.
  pose proof (tokenize_lexed _ _ Hts) as Hlexed.
  destruct (yields_grammar ts Hlexed (10 * Datatypes.S (List.length ts))) as (Hexpr & _).
  unfold try_except, bind.
  pose proof (Hexpr (mkState ts 0) eq_refl) as H.
  destruct (_parse_expression (10 * Datatypes.S (List.length ts)) (mkState ts 0))
    as [[a|e|h] st1]; cbn [fst snd].
  - destruct (H a st1 eq_refl) as [Hdoc _].
    rewrite current_token_eq. destruct (negb _); cbn; [discriminate|now intros [= <-]].
  - destruct e; cbn; discriminate.
  - discriminate.
Qed.

(** The trees that [parse] returns are the documented ones: the operator of
    a unary node is one of "+", "-", "not", the operator of a binary node
    one of "+", "-", "*", "/", "^", "=", "<", ">", "and", "or", a number is
    not negative, and a reference has a column over A-Z and a row of one
    at least, so that the round trips of the references hold for it. *)
Theorem parse_builds_documented_trees (expression : string) (ast : ASTNode) :
  parse expression = Ok ast -> documented ast = true.
Proof. apply parse_documented. Qed.

Lemma parse_builds_documented_trees_witness :
  documented (BinaryOpNode "<" (UnaryOpNode "not" (CellRefNode (CellReference.mk "AB" 12)))
                (BinaryOpNode "^" (NumberNode 2) (NumberNode 10))) = true.
Proof.
  apply (parse_builds_documented_trees " not AB12<2^10 "). vm_compute. reflexivity.
Defined.

End TreeFacts.

(** ** expression_evaluator.py: the exceptions of an evaluation *)

Module ErrorFacts.
Import TableFacts FrameFacts FuelFacts EvaluatorFacts TableService.

Lemma arithmetic_not_circular (a b : pyval) (message : string) :
  PyNum.add a b <> Raise (CircularReferenceError message)
  /\ PyNum.sub a b <> Raise (CircularReferenceError message)
  /\ PyNum.mul a b <> Raise (CircularReferenceError message)
  /\ PyNum.truediv a b <> Raise (CircularReferenceError message)
  /\ PyNum.pow a b <> Raise (CircularReferenceError message).
Proof.
  unfold PyNum.add, PyNum.sub, PyNum.mul, PyNum.truediv, PyNum.pow, PyNum.float_op,
    PyNum.to_float, PyNum.int_to_float.
  destruct a, b;
    repeat match goal with
           | |- context [if ?c then _ else _] => destruct c
           end; repeat split; discriminate.
Qed.

Lemma circular_bind {A B : Type} (stack : list string) (texts : list string)
    (m : S A) (k : A -> S B) :
  keeps_stack m ->
  circular_from stack texts m ->
  (forall a, circular_from stack texts (k a)) ->
  circular_from stack texts (bind m k).
Proof.
  intros Hstack Hm Hk s Hs message. unfold bind.
  specialize (Hm s Hs message). specialize (Hstack s).
  destruct (m s) as [[a|e|h] s1]; cbn [fst snd] in *.
  - apply Hk. congruence.
  - intros [= ->]. now apply Hm.
  - discriminate.
Qed.

Lemma circular_weaken {A : Type} (stack texts texts' : list string) (m : S A) :
  incl texts texts' -> circular_from stack texts m -> circular_from stack texts' m.
Proof.
  intros Hincl Hm s Hs message H. destruct (Hm s Hs message H) as (x & Hx & Hst & ->).
  exists x. auto.
Qed.

Ltac circular_step :=
  match goal with
  | |- circular_from _ _ (bind (lift _) _) =>
      apply circular_bind; [apply stack_lift| |intros ?]
  | |- circular_from _ _ (bind _ _) =>
      apply circular_bind; [assumption|assumption|intros ?]
  | |- circular_from _ _ (ret _) => intros ? ? ? ?; discriminate
  | |- circular_from _ _ (raise (EvaluationError _)) => intros ? ? ? ?; discriminate
  | |- circular_from _ _ (lift _) =>
      let H := fresh in
      intros ? ? ? H; exfalso; revert H; apply arithmetic_not_circular
  | |- circular_from _ _ (if ?b then _ else _) => destruct b
  end.

Lemma circular_visit_unary_op (stack texts : list string) (operator : string)
    (operand : S pyval) :
  keeps_stack operand -> circular_from stack texts operand ->
  circular_from stack texts (visit_unary_op operator operand).
Proof. intros Hs Ho. unfold visit_unary_op. repeat circular_step. Qed.

Lemma circular_visit_binary_op (stack texts : list string) (operator : string)
    (lhs rhs : S pyval) :
  keeps_stack lhs -> circular_from stack texts lhs ->
  keeps_stack rhs -> circular_from stack texts rhs ->
  circular_from stack texts (visit_binary_op operator lhs rhs).
Proof.
  intros Hls Hl Hrs Hr. unfold visit_binary_op. repeat circular_step.
Qed.

(** What comes out of [visit_cell_ref] as a circular-reference error is
    the error of a reference that was on the stack. *)
Lemma circular_visit_cell_ref (stack : list string)
    (provider : CellReference.t -> S pyval) (reference : CellReference.t) :
  circular_from stack [CellReference.to_string reference]
    (visit_cell_ref provider reference).
Proof.
  intros s Hs message. unfold visit_cell_ref, bind, stack_contains. cbn [fst snd].
  destruct (List.existsb _ (_evaluation_stack s)) eqn:E.
  - intros [= <-]. exists (CellReference.to_string reference).
    split; [now left|]. split; [|reflexivity]. rewrite <- Hs.
    apply List.existsb_exists in E as (x & Hx & Heq).
    apply String.eqb_eq in Heq. now subst x.
  - unfold stack_add. rewrite E. unfold try_finally, try_except.
    destruct (provider reference _) as [[v|e|h] s2]; cbn; discriminate.
Qed.

Lemma circular_accept (stack : list string) (fuel : nat) :
  forall node, circular_from stack (references node) (accept fuel node).
Proof.
  induction node as [v|ref|op operand IHo|op lhs IHl rhs IHr].
  - rewrite accept_number. intros s Hs message H. discriminate H.
  - destruct fuel; apply circular_visit_cell_ref.
  - rewrite accept_unary. apply circular_visit_unary_op; [apply stack_accept|exact IHo].
  - rewrite accept_binary. cbn [references].
    apply circular_visit_binary_op;
      [apply stack_accept|apply (circular_weaken _ _ _ _ (incl_appl _ (incl_refl _)) IHl)
      |apply stack_accept|apply (circular_weaken _ _ _ _ (incl_appr _ (incl_refl _)) IHr)].
Qed.

(** [evaluate] from the stack that holds the seed only. *)
Lemma evaluate_seeded (fuel : nat) (ast : ASTNode) (current : option CellReference.t)
    (s : t) :
  evaluate fuel ast current s
  = match accept fuel ast
            (mk (table s)
               (match current with
                | Some ref => [CellReference.to_string ref]
                | None => []
                end)) with
    | (Raise e, s') =>
        (Raise (if is_EvaluationError e || is_CircularReferenceError e
                   || is_CellReferenceError e
                then e
                else EvaluationError ("Помилка обчислення: " ++ exn_str e)), s')
    | r => r
    end.
Proof.
  unfold evaluate, bind, stack_clear, try_except.
  destruct current as [ref|]; cbn [fst snd stack_add List.existsb _evaluation_stack table ret];
    match goal with
    | |- context [accept fuel ast ?s1] => destruct (accept fuel ast s1) as [[v|e|h] s2]
    end; try reflexivity;
    now destruct (is_EvaluationError e || is_CircularReferenceError e
                  || is_CellReferenceError e).
Qed.

Lemma evaluate_raises (fuel : nat) (ast : ASTNode) (current : option CellReference.t)
    (s : t) (e : exn) :
  fst (evaluate fuel ast current s) = Raise e ->
  is_EvaluationError e || is_CircularReferenceError e || is_CellReferenceError e = true.
Proof.
  rewrite evaluate_seeded.
  destruct (accept fuel ast _) as [[v|e'|h] s2]; cbn [fst]; try discriminate.
  destruct (is_EvaluationError e' || is_CircularReferenceError e'
            || is_CellReferenceError e') eqn:E; intros [= <-]; auto.
Qed.

Lemma evaluate_circular (fuel : nat) (ast : ASTNode) (current : option CellReference.t)
    (s : t) (message : string) :
  fst (evaluate fuel ast current s) = Raise (CircularReferenceError message) ->
  exists ref,
    current = Some ref
    /\ In (CellReference.to_string ref) (references ast)
    /\ message = "Виявлено циклічне посилання на клітинку " ++ CellReference.to_string ref.
Proof.
  rewrite evaluate_seeded.
  pose proof (circular_accept
                (match current with
                 | Some ref => [CellReference.to_string ref]
                 | None => []
                 end) fuel ast
                (mk (table s)
                   (match current with
                    | Some ref => [CellReference.to_string ref]
                    | None => []
                    end)) eq_refl) as H.
  destruct (accept fuel ast _) as [[v|e'|h] s2]; cbn [fst] in *; try discriminate.
  destruct (is_EvaluationError e' || is_CircularReferenceError e'
            || is_CellReferenceError e') eqn:E; [|discriminate].
  intros [= ->]. destruct (H message eq_refl) as (x & Hx & Hst & ->).
  destruct current as [ref|]; [|destruct Hst].
  destruct Hst as [<-|[]]. exists ref. auto.
Qed.

(** What [evaluate] raises is an EvaluationError, a CircularReferenceError
    or a CellReferenceError.  It is a CircularReferenceError only for a
    direct self-reference: the tree that is evaluated holds a reference to
    the cell that seeds the evaluation, and the message names that cell; a
    cycle through another cell never ends in a CircularReferenceError. *)
Theorem evaluate_errors (fuel : nat) (ast : ASTNode) (current : option CellReference.t)
    (s : t) (e : exn) :
  fst (evaluate fuel ast current s) = Raise e ->
  is_EvaluationError e || is_CircularReferenceError e || is_CellReferenceError e = true
  /\ (is_CircularReferenceError e = true ->
      exists ref,
        current = Some ref
        /\ In (CellReference.to_string ref) (references ast)
        /\ e = CircularReferenceError
                 ("Виявлено циклічне посилання на клітинку "
                  ++ CellReference.to_string ref)).
Proof.
  intros H. split; [exact (evaluate_raises fuel ast current s e H)|].
  intros Hc. destruct e; try discriminate Hc.
  destruct (evaluate_circular fuel ast current s msg H) as (ref & -> & Hin & ->).
  exists ref. auto.
Qed.

Lemma evaluate_errors_witness :
  is_EvaluationError
    (CellReferenceError
       "Помилка отримання значення клітинки B1: Виявлено циклічне посилання на клітинку A1")
  || is_CircularReferenceError
       (CellReferenceError
          "Помилка отримання значення клітинки B1: Виявлено циклічне посилання на клітинку A1")
  || is_CellReferenceError
       (CellReferenceError
          "Помилка отримання значення клітинки B1: Виявлено циклічне посилання на клітинку A1")
  = true.
Proof.
  apply (evaluate_errors 1 (CellRefNode B1) (Some A1) two_cell_cycle). vm_compute. reflexivity.
Defined.

End ErrorFacts.

(** ** table_service.py: the value of a reference *)

Module ReferenceFacts.
Import TableFacts FrameFacts FuelFacts EvaluatorFacts TableService.

(** A reference that is not on the stack gives what the value provider
    gives, an exception of the provider wrapped. *)
Lemma visit_cell_ref_result (provider : CellReference.t -> S pyval)
    (ref : CellReference.t) (s : t) :
  List.existsb (String.eqb (CellReference.to_string ref)) (_evaluation_stack s) = false ->
  fst (visit_cell_ref provider ref s)
  = match fst (provider ref
                 (mk (table s) (CellReference.to_string ref :: _evaluation_stack s))) with
    | Ok v => Ok v
    | Raise e =>
        Raise (CellReferenceError
                 ("Помилка отримання значення клітинки " ++ CellReference.to_string ref
                  ++ ": " ++ exn_str e))
    | Halt h => Halt h
    end.
Proof.
  intros Hstack. unfold visit_cell_ref, bind, stack_contains. rewrite Hstack.
  unfold stack_add. rewrite Hstack. unfold try_finally, try_except.
  cbn [fst snd table _evaluation_stack].
  now destruct (provider ref _) as [[v|e|h] s2].
Qed.

(** What the value provider gives for a cell that holds no formula with a
    tree. *)
Lemma provider_result (accept : ASTNode -> S pyval) (ref : CellReference.t) (s : t) :
  let row := fst (CellReference.to_indices ref) in
  let col := snd (CellReference.to_indices ref) in
  let c := cell_at s row col in
  fst (_get_cell_value_for_evaluator accept ref s)
  = if (0 <=? row) && (row <? Table.rows (table s))
    then if (0 <=? col) && (col <? Table.columns (table s))
         then match Cell.error c with
              | Some error =>
                  Raise (Exception ("Клітинка " ++ CellReference.to_string ref
                                    ++ " має помилку: " ++ error))
              | None =>
                  if Cell.is_empty c then Ok (PyInt 0)
                  else if Cell.is_literal c
                  then match PyInt.int (PyStr.strip (Cell.expression c)) with
                       | Some z => Ok (PyInt z)
                       | None =>
                           Raise (Exception ("Клітинка " ++ CellReference.to_string ref
                                             ++ " містить не числове значення: "
                                             ++ Cell.expression c))
                       end
                  else if Cell.is_formula c
                  then match Cell.ast c with
                       | None =>
                           Raise (Exception ("Клітинка " ++ CellReference.to_string ref
                                             ++ " не була розпарсена"))
                       | Some ast =>
                           fst (accept ast (snd (on_table (Table.get_cell row col) s)))
                       end
                  else Raise (Exception ("Невідомий тип вмісту клітинки "
                                         ++ CellReference.to_string ref))
              end
         else Raise (IndexError ("Індекс стовпчика " ++ PyInt.str col
                                 ++ " виходить за межі таблиці"))
    else Raise (IndexError ("Індекс рядка " ++ PyInt.str row
                            ++ " виходить за межі таблиці")).
Proof.
  cbv zeta. unfold _get_cell_value_for_evaluator, Table.get_cell_by_reference, bind.
  destruct (CellReference.to_indices ref) as [row col]. cbn [fst snd].
  unfold on_table. pose proof (get_cell_spec row col (table s)) as H.
  destruct (Table.get_cell row col (table s)) as [r t1]. cbn [fst snd] in *.
  destruct H as (_ & _ & _ & Hres).
  destruct ((0 <=? row) && (row <? Table.rows (table s))); [|now rewrite Hres].
  destruct ((0 <=? col) && (col <? Table.columns (table s))); [|now rewrite Hres].
  destruct Hres as [-> _].
  change (cell_at s row col) with (cell_of (Table.cells (table s)) (row, col)).
  set (c := cell_of (Table.cells (table s)) (row, col)).
  destruct (Cell.error c); [reflexivity|].
  destruct (Cell.is_empty c); [reflexivity|].
  destruct (Cell.is_literal c); [now destruct (PyInt.int _)|].
  destruct (Cell.is_formula c); [|reflexivity].
  now destruct (Cell.ast c).
Qed.

(** The value of a reference that is not being evaluated already: 0 for an
    empty cell, the integer that a literal reads as, and a
    CellReferenceError for a cell outside the table, a cell that holds an
    error, a literal that is no integer and a formula without tree. *)
Theorem reference_to_a_cell (fuel : nat) (ref : CellReference.t) (s : t) :
  List.existsb (String.eqb (CellReference.to_string ref)) (_evaluation_stack s) = false ->
  let row := fst (CellReference.to_indices ref) in
  let col := snd (CellReference.to_indices ref) in
  let c := cell_at s row col in
  let result := fst (accept (Datatypes.S fuel) (CellRefNode ref) s) in
  let failure message :=
    Raise (CellReferenceError
             ("Помилка отримання значення клітинки " ++ CellReference.to_string ref
              ++ ": " ++ message)) in
  (~ 0 <= row < Table.rows (table s) ->
   result = failure ("Індекс рядка " ++ PyInt.str row ++ " виходить за межі таблиці"))
  /\ (0 <= row < Table.rows (table s) -> ~ 0 <= col < Table.columns (table s) ->
      result = failure ("Індекс стовпчика " ++ PyInt.str col
                        ++ " виходить за межі таблиці"))
  /\ (0 <= row < Table.rows (table s) -> 0 <= col < Table.columns (table s) ->
      (forall error, Cell.error c = Some error ->
         result = failure ("Клітинка " ++ CellReference.to_string ref
                           ++ " має помилку: " ++ error))
      /\ (Cell.error c = None -> Cell.is_empty c = true -> result = Ok (PyInt 0))
      /\ (Cell.error c = None -> Cell.is_literal c = true ->
          result = match PyInt.int (PyStr.strip (Cell.expression c)) with
                   | Some z => Ok (PyInt z)
                   | None =>
                       failure ("Клітинка " ++ CellReference.to_string ref
                                ++ " містить не числове значення: " ++ Cell.expression c)
                   end)
      /\ (Cell.error c = None -> Cell.is_formula c = true -> Cell.ast c = None ->
          result = failure ("Клітинка " ++ CellReference.to_string ref
                            ++ " не була розпарсена"))).
Proof.
  intros Hstack. cbv zeta.
  change (accept (Datatypes.S fuel) (CellRefNode ref))
    with (visit_cell_ref (_get_cell_value_for_evaluator (accept fuel)) ref).
  rewrite (visit_cell_ref_result _ ref s Hstack).
  pose proof (provider_result (accept fuel) ref
                (mk (table s) (CellReference.to_string ref :: _evaluation_stack s))) as H.
  cbv zeta in H. rewrite H. clear H.
  change (cell_at (mk (table s) (CellReference.to_string ref :: _evaluation_stack s)))
    with (cell_at s).
  cbn [table].
  set (row := fst (CellReference.to_indices ref)).
  set (col := snd (CellReference.to_indices ref)).
  assert (Hb : forall x n, (0 <=? x) && (x <? n) = true <-> 0 <= x < n).
  { intros x n. rewrite andb_true_iff, Z.leb_le, Z.ltb_lt. tauto. }
  split; [|split].
  - intros Hrow. destruct ((0 <=? row) && (row <? _)) eqn:E; [|reflexivity].
    apply Hb in E. contradiction.
  - intros Hrow Hcol. apply Hb in Hrow. rewrite Hrow.
    destruct ((0 <=? col) && (col <? _)) eqn:E; [|reflexivity].
    apply Hb in E. contradiction.
  - intros Hrow Hcol. apply Hb in Hrow, Hcol. rewrite Hrow, Hcol.
    split; [|split; [|split]].
    + intros error ->. reflexivity.
    + intros -> ->. reflexivity.
    + intros -> Hlit. assert (Cell.is_empty (cell_at s row col) = false) as ->.
      { unfold Cell.is_literal in Hlit. now destruct (Cell.is_empty _). }
      rewrite Hlit. now destruct (PyInt.int _).
    + intros -> Hform Hast.
      assert (Cell.is_empty (cell_at s row col) = false) as ->.
      { destruct (Cell.is_empty _) eqn:E; [|reflexivity].
        now rewrite (PassFacts.empty_not_formula _ E) in Hform. }
      unfold Cell.is_literal. rewrite Hform, Hast.
      destruct (Cell.is_empty _); reflexivity.
Qed.

Lemma reference_to_a_cell_witness :
  fst (accept 1 (CellRefNode (CellReference.mk "J" 10)) TableService.new) = Ok (PyInt 0)
  /\ fst (accept 1 (CellRefNode (CellReference.mk "K" 1)) TableService.new)
     = Raise (CellReferenceError
                "Помилка отримання значення клітинки K1: Індекс стовпчика 10 виходить за межі таблиці").
Proof.
  split.
  - exact (proj1 (proj2 (proj2 (proj2 (reference_to_a_cell 0 (CellReference.mk "J" 10)
                                          TableService.new eq_refl))
                           ltac:(vm_compute; split; [discriminate|reflexivity])
                           ltac:(vm_compute; split; [discriminate|reflexivity])))
             eq_refl eq_refl).
  - exact (proj1 (proj2 (reference_to_a_cell 0 (CellReference.mk "K" 1)
                           TableService.new eq_refl))
             ltac:(vm_compute; split; [discriminate|reflexivity])
             ltac:(vm_compute; intros [_ H]; discriminate H)).
Defined.

End ReferenceFacts.

(** ** table_service.py: assigning an expression *)

Module AssignFacts.
Import TableFacts PassFacts LoadFacts ParserRuns TableService.

Lemma same_text (a b : Cell.t) :
  Cell.expression a = Cell.expression b ->
  Cell.is_empty a = Cell.is_empty b
  /\ Cell.is_formula a = Cell.is_formula b
  /\ Cell.is_literal a = Cell.is_literal b
  /\ Cell.get_formula_expression a = Cell.get_formula_expression b.
Proof.
  intros H. unfold Cell.is_literal, Cell.get_formula_expression, Cell.is_empty,
    Cell.is_formula. now rewrite H.
Qed.

Lemma assigned_text (value : string) (c : Cell.t) :
  Cell.expression (Cell.set_expression value c) = value.
Proof.
  unfold Cell.set_expression.
  destruct (String.eqb_spec (Cell.expression c) value); simpl; auto.
Qed.

Lemma in_bounds_test (x n : Z) : (0 <=? x) && (x <? n) = true <-> 0 <= x < n.
Proof. rewrite andb_true_iff, Z.leb_le, Z.ltb_lt. tauto. Qed.

(** The first three steps of [set_cell_expression] at a position of the
    table: the cell is there afterwards, with the text. *)
Lemma assign_text (row col : Z) (text : string) (R C : Z)
    (d : list (Table.key * Cell.t)) (st : list string) :
  0 <= row < R -> 0 <= col < C ->
  exists d1 c0,
    (forall k, cell_of d1 k = cell_of d k)
    /\ Table.lookup (row, col) d1 = Some c0
    /\ on_table (Table.get_cell row col) (mk (Table.mk R C d) st)
       = (Ok c0, mk (Table.mk R C d1) st)
    /\ modify row col (Cell.set_expression text) (mk (Table.mk R C d1) st)
       = (Ok tt, mk (Table.mk R C (Table.update (row, col)
                                     (Cell.set_expression text) d1)) st)
    /\ on_table (Table.get_cell row col)
         (mk (Table.mk R C (Table.update (row, col) (Cell.set_expression text) d1)) st)
       = (Ok (Cell.set_expression text c0),
          mk (Table.mk R C (Table.update (row, col) (Cell.set_expression text) d1)) st).
Proof.
  intros Hrow Hcol. apply in_bounds_test in Hrow, Hcol.
  assert (Hfirst : exists d1 c0,
             on_table (Table.get_cell row col) (mk (Table.mk R C d) st)
             = (Ok c0, mk (Table.mk R C d1) st)
             /\ Table.lookup (row, col) d1 = Some c0
             /\ forall k, cell_of d1 k = cell_of d k).
  { destruct (Table.lookup (row, col) d) as [c0|] eqn:E.
    - exists d, c0. split; [now apply get_cell_present|auto].
    - exists (d ++ [((row, col), Cell.new "")])%list, (Cell.new "").
      split; [now apply get_cell_absent|]. split; [now apply lookup_app_new|].
      intros k. now apply (cell_of_app_new (row, col) k). }
  destruct Hfirst as (d1 & c0 & Hget & Hc0 & Hsame).
  exists d1, c0. split; [exact Hsame|]. split; [exact Hc0|]. split; [exact Hget|].
  split; [reflexivity|].
  apply get_cell_present; auto.
  rewrite lookup_update, key_eqb_refl, Hc0. reflexivity.
Qed.

Lemma lookup_other (k k' : Table.key) (f : Cell.t -> Cell.t)
    (d : list (Table.key * Cell.t)) :
  k' <> k -> cell_of (Table.update k f d) k' = cell_of d k'.
Proof. intros H. rewrite cell_of_update. now rewrite (key_eqb_neq k' k H). Qed.

Lemma lookup_same (k : Table.key) (f : Cell.t -> Cell.t) (c : Cell.t)
    (d : list (Table.key * Cell.t)) :
  Table.lookup k d = Some c -> cell_of (Table.update k f d) k = f c.
Proof. intros H. rewrite cell_of_update, key_eqb_refl, H. reflexivity. Qed.

Ltac other_cell Hsame :=
  rewrite ?lookup_other by congruence; apply Hsame.

Lemma set_cell_expression_spec (row col : Z) (text : string) (self : t) :
  0 <= row < Table.rows (table self) -> 0 <= col < Table.columns (table self) ->
  let r := set_cell_expression row col text self in
  let c := cell_at (snd r) row col in
  Cell.expression c = text
  /\ (forall row' col', (row', col') <> (row, col) ->
        cell_at (snd r) row' col' = cell_at self row' col')
  /\ Table.rows (table (snd r)) = Table.rows (table self)
  /\ Table.columns (table (snd r)) = Table.columns (table self)
  /\ _evaluation_stack (snd r) = _evaluation_stack self
  /\ (if Cell.is_formula c
      then match ExpressionParser.parse (Cell.get_formula_expression c) with
           | Ok ast =>
               fst r = Ok (true, "") /\ Cell.ast c = Some ast /\ Cell.error c = None
           | Raise e =>
               fst r = Ok (false, "Синтаксична помилка: " ++ exn_str e)
               /\ Cell.error c = Some ("Синтаксична помилка: " ++ exn_str e)
               /\ Cell.cached_value c = None
           | Halt _ => False
           end
      else fst r = Ok (true, "")
           /\ Cell.cached_value c = None /\ Cell.error c = None
           /\ (Cell.is_empty c = false -> Cell.ast c = None)).
Proof.
  intros Hrow Hcol. destruct self as [[R C d] st]. cbn [table Table.rows Table.columns] in *.
  destruct (assign_text row col text R C d st Hrow Hcol)
    as (d1 & c0 & Hsame & Hc0 & Hget & Hmod & Hget2).
  cbv zeta. unfold set_cell_expression.
  rewrite !(bind_ok _ _ _ _ _ Hget), !(bind_ok _ _ _ _ _ Hmod), !(bind_ok _ _ _ _ _ Hget2).
  set (c1 := Cell.set_expression text c0).
  assert (Htext : Cell.expression c1 = text) by apply assigned_text.
  set (d2 := Table.update (row, col) (Cell.set_expression text) d1).
  assert (Hc1 : Table.lookup (row, col) d2 = Some c1).
  { unfold d2. rewrite lookup_update, key_eqb_refl, Hc0. reflexivity. }
  assert (Hother : forall k, k <> (row, col) -> cell_of d2 k = cell_of d k).
  { intros k Hk. unfold d2. rewrite lookup_other by exact Hk. apply Hsame. }
  unfold cell_at. cbn [table Table.cells].
  pose proof (parse_returns (Cell.get_formula_expression c1)) as Hparse.
  destruct (Cell.is_empty c1) eqn:Hempty; [|destruct (Cell.is_literal c1) eqn:Hlit;
    [|destruct (Cell.is_formula c1) eqn:Hform]].
  - (* an empty text *)
    unfold bind, modify, on_table, Table.modify, ret.
    cbn [fst snd table Table.rows Table.columns Table.cells _evaluation_stack].
    rewrite !lookup_update, key_eqb_refl, Hc1. cbn [option_map].
    set (c := Cell.set_error None (Cell.set_cached_value None c1)).
    assert (Hc : Cell.expression c = text) by exact Htext.
    destruct (same_text c c1 ltac:(congruence)) as (He & Hf & _ & _).
    rewrite Hf, (empty_not_formula c1 Hempty).
    repeat match goal with |- _ /\ _ => split end; auto.
    + intros row' col' Hne.
      change (cell_of (Table.update (row, col) (Cell.set_error None)
                         (Table.update (row, col) (Cell.set_cached_value None) d2))
                (row', col') = cell_of d (row', col')).
      rewrite !lookup_other by exact Hne. now apply Hother.
    + intros H. congruence.
  - (* a literal *)
    unfold bind, modify, on_table, Table.modify, ret.
    cbn [fst snd table Table.rows Table.columns Table.cells _evaluation_stack].
    rewrite !lookup_update, key_eqb_refl, Hc1. cbn [option_map].
    set (c := Cell.set_error None (Cell.set_cached_value None (Cell.set_ast None c1))).
    assert (Hc : Cell.expression c = text) by exact Htext.
    destruct (same_text c c1 ltac:(congruence)) as (He & Hf & Hl & _).
    rewrite Hf.
    assert (Cell.is_formula c1 = false) as ->.
    { unfold Cell.is_literal in Hlit. rewrite Hempty in Hlit.
      now destruct (Cell.is_formula c1). }
    repeat match goal with |- _ /\ _ => split end; auto.
    intros row' col' Hne.
    change (cell_of (Table.update (row, col) (Cell.set_error None)
                       (Table.update (row, col) (Cell.set_cached_value None)
                          (Table.update (row, col) (Cell.set_ast None) d2)))
              (row', col') = cell_of d (row', col')).
    rewrite !lookup_other by exact Hne. now apply Hother.
  - (* a formula *)
    destruct (ExpressionParser.parse (Cell.get_formula_expression c1)) as [ast|e|h] eqn:Hp.
    + unfold bind, modify, on_table, Table.modify, ret.
      cbn [fst snd table Table.rows Table.columns Table.cells _evaluation_stack].
      rewrite !lookup_update, key_eqb_refl, Hc1. cbn [option_map].
      set (c := Cell.set_error None (Cell.set_ast (Some ast) c1)).
      assert (Hc : Cell.expression c = text) by exact Htext.
      destruct (same_text c c1 ltac:(congruence)) as (He & Hf & Hl & Hg).
      rewrite Hf, Hform, Hg, Hp.
      repeat match goal with |- _ /\ _ => split end; auto.
      intros row' col' Hne.
      change (cell_of (Table.update (row, col) (Cell.set_error None)
                         (Table.update (row, col) (Cell.set_ast (Some ast)) d2))
                (row', col') = cell_of d (row', col')).
      rewrite !lookup_other by exact Hne. now apply Hother.
    + destruct Hparse as [(ast & Hast)|(m & p & Hsyntax)]; [discriminate|].
      injection Hsyntax as ->.
      unfold bind, modify, on_table, Table.modify, ret.
      cbn [fst snd table Table.rows Table.columns Table.cells _evaluation_stack].
      rewrite !lookup_update, key_eqb_refl, Hc1. cbn [option_map].
      set (c := Cell.set_cached_value None
                  (Cell.set_error (Some ("Синтаксична помилка: " ++ m)) c1)).
      assert (Hc : Cell.expression c = text) by exact Htext.
      destruct (same_text c c1 ltac:(congruence)) as (He & Hf & Hl & Hg).
      rewrite Hf, Hform, Hg, Hp. cbn [exn_str].
      repeat match goal with |- _ /\ _ => split end; auto.
      intros row' col' Hne.
      change (cell_of (Table.update (row, col) (Cell.set_cached_value None)
                         (Table.update (row, col)
                            (Cell.set_error (Some ("Синтаксична помилка: " ++ m))) d2))
                (row', col') = cell_of d (row', col')).
      rewrite !lookup_other by exact Hne. now apply Hother.
    + destruct Hparse as [(ast & Hast)|(m & p & Hsyntax)]; discriminate.
  - (* neither empty, literal nor formula: no text is *)
    unfold Cell.is_literal in Hlit. rewrite Hempty, Hform in Hlit. discriminate.
Qed.

Lemma set_cell_expression_outside (row col : Z) (text : string) (self : t) :
  ~ (0 <= row < Table.rows (table self) /\ 0 <= col < Table.columns (table self)) ->
  exists message,
    set_cell_expression row col text self = (Raise (IndexError message), self).
Proof.
  intros Hout. destruct self as [[R C d] st]. cbn [table Table.rows Table.columns] in *.
  cbv beta iota delta [set_cell_expression bind on_table Table.get_cell
                         Table._validate_indices table Table.rows Table.columns].
  destruct ((0 <=? row) && (row <? R)) eqn:Hrow; cbn [negb]; [|eexists; reflexivity].
  destruct ((0 <=? col) && (col <? C)) eqn:Hcol; cbn [negb]; [|eexists; reflexivity].
  apply in_bounds_test in Hrow, Hcol. tauto.
Qed.

(** [set_cell_expression] at a position of the table returns, leaves the
    text in the cell and touches no other cell.  It answers (True, "")
    unless the text is a formula that [parse] rejects; then it answers
    False with the text "Синтаксична помилка: " and the message of the
    parser, which it stores as the error of the cell.  A formula that
    parses gets its tree and no error; any other text leaves no value and
    no error, and a literal no tree.  The branch for other exceptions of
    the parser is never taken.  Outside the table the call raises
    IndexError and changes nothing. *)
Theorem set_cell_expression_result (row col : Z) (text : string) (self : t) :
  (0 <= row < Table.rows (table self) -> 0 <= col < Table.columns (table self) ->
   let r := set_cell_expression row col text self in
   let c := cell_at (snd r) row col in
   Cell.expression c = text
   /\ (forall row' col', (row', col') <> (row, col) ->
         cell_at (snd r) row' col' = cell_at self row' col')
   /\ Table.rows (table (snd r)) = Table.rows (table self)
   /\ Table.columns (table (snd r)) = Table.columns (table self)
   /\ _evaluation_stack (snd r) = _evaluation_stack self
   /\ (if Cell.is_formula c
       then match ExpressionParser.parse (Cell.get_formula_expression c) with
            | Ok ast =>
                fst r = Ok (true, "") /\ Cell.ast c = Some ast /\ Cell.error c = None
            | Raise e =>
                fst r = Ok (false, "Синтаксична помилка: " ++ exn_str e)
                /\ Cell.error c = Some ("Синтаксична помилка: " ++ exn_str e)
                /\ Cell.cached_value c = None
            | Halt _ => False
            end
       else fst r = Ok (true, "")
            /\ Cell.cached_value c = None /\ Cell.error c = None
            /\ (Cell.is_empty c = false -> Cell.ast c = None)))
  /\ (~ (0 <= row < Table.rows (table self) /\ 0 <= col < Table.columns (table self)) ->
      exists message,
        set_cell_expression row col text self = (Raise (IndexError message), self)).
Proof.
  split; [apply set_cell_expression_spec|apply set_cell_expression_outside].
Qed.

Lemma set_cell_expression_result_witness :
  fst (set_cell_expression 1 2 "=(1+" TableService.new)
  = Ok (false, "Синтаксична помилка: Очікувалося число, посилання на клітинку або '(', знайдено: ").
Proof.
  pose proof (proj1 (set_cell_expression_result 1 2 "=(1+" TableService.new)
                ltac:(vm_compute; split; [discriminate|reflexivity])
                ltac:(vm_compute; split; [discriminate|reflexivity])) as H.
  cbv zeta in H. destruct H as (_ & _ & _ & _ & _ & H).
  vm_compute in H. vm_compute. apply H.
Defined.

End AssignFacts.

(** ** table_service.py: what an evaluation pass leaves *)

Module OutcomeFacts.
Import TableFacts SimFacts FrameFacts PassFacts FuelFacts TableService.

Lemma calculate_cell_other (fuel : nat) (row col : Z) (s : t) (k : Table.key) :
  k <> (row, col) ->
  cell_of (Table.cells (table (snd (_calculate_cell fuel row col s)))) k
  = cell_of (Table.cells (table s)) k.
Proof.
  intros Hne.
  pose proof (calculate_cell_sim fuel row col s s (table_sim_refl s)) as H.
  cbv zeta in H. destruct H as (_ & _ & _ & _ & _ & Hother & _).
  now apply Hother.
Qed.

Lemma pending_stored (d : list (Table.key * Cell.t)) (k : Table.key) :
  pending (cell_of d k) = true -> Table.lookup k d = Some (cell_of d k).
Proof.
  unfold cell_of. destruct (Table.lookup k d); [reflexivity|]. discriminate.
Qed.

(** The calculation of a formula with a tree, when it returns, leaves in
    the cell a value or an error, not both, and the cell is not dirty. *)
Lemma calculate_cell_settles (fuel : nat) (row col : Z) (s : t) :
  pending (cell_of (Table.cells (table s)) (row, col)) = true ->
  fst (_calculate_cell fuel row col s) = Ok tt ->
  let c := cell_of (Table.cells (table s)) (row, col) in
  let c' := cell_of (Table.cells (table (snd (_calculate_cell fuel row col s)))) (row, col) in
  Cell.expression c' = Cell.expression c /\ Cell.ast c' = Cell.ast c /\ settled c'.
Proof.
  intros Hpending. cbv zeta. rewrite calculate_cell_unfold.
  pose proof (keeps_get_cell row col s) as Hkeep.
  pose proof (get_cell_spec row col (table s)) as Hspec.
  unfold on_table in *.
  destruct (Table.get_cell row col (table s)) as [r t1]. cbn [fst snd] in *.
  destruct Hspec as (_ & _ & _ & Hres). destruct Hkeep as (_ & _ & Hk1). cbn [table] in Hk1.
  set (c := cell_of (Table.cells (table s)) (row, col)) in *.
  assert (Hr : forall cell, r = Ok cell -> cell = c).
  { intros cell ->.
    destruct ((0 <=? row) && (row <? Table.rows (table s))); [|discriminate].
    destruct ((0 <=? col) && (col <? Table.columns (table s))); [|discriminate].
    destruct Hres as [Hres _]. congruence. }
  destruct r as [cell|e|h]; cbn [fst snd]; try discriminate.
  rewrite (Hr cell eq_refl). clear Hr Hres cell.
  assert (Hast : exists ast, Cell.ast c = Some ast).
  { unfold pending in Hpending. destruct (Cell.ast c); [eauto|].
    now rewrite andb_false_r in Hpending. }
  destruct Hast as [ast Hast]. rewrite Hast, (pending_not_empty c Hpending).
  assert (Hwrite : forall value error s2,
             (forall k, cell_of (Table.cells (table s2)) k = cell_of (Table.cells t1) k) ->
             cell_of (Table.cells (table (write_result row col value error s2))) (row, col)
             = calculated value error c).
  { intros value error s2 Hs2. rewrite cell_of_write_result, key_eqb_refl.
    assert (Hc : cell_of (Table.cells (table s2)) (row, col) = c)
      by (rewrite Hs2; apply Hk1).
    rewrite (pending_stored _ (row, col)); rewrite Hc; [reflexivity|exact Hpending]. }
  destruct (CellReference.from_indices row col) as [ref|e|h].
  - pose proof (keeps_evaluate fuel ast (Some ref) (mk t1 (_evaluation_stack s))) as He.
    destruct (evaluate fuel ast (Some ref) (mk t1 (_evaluation_stack s)))
      as [[v|e|h] s2]; cbn [fst snd] in *; try discriminate.
    + intros _. rewrite (Hwrite _ _ s2 (proj2 (proj2 He))).
      unfold settled, calculated. cbn. repeat split; auto. left. eauto.
    + intros _. rewrite (Hwrite _ _ s2 (proj2 (proj2 He))).
      unfold settled, calculated. cbn. repeat split; auto. right. eauto.
  - cbn [fst snd]. intros _.
    rewrite (Hwrite _ _ (mk t1 (_evaluation_stack s)) (fun k => eq_refl)).
    unfold settled, calculated. cbn. repeat split; auto. right. eauto.
  - discriminate.
Qed.

Lemma calculate_cell_pending (fuel : nat) (row col : Z) (s : t) (k : Table.key) :
  pending (cell_of (Table.cells (table (snd (_calculate_cell fuel row col s)))) k)
  = pending (cell_of (Table.cells (table s)) k).
Proof.
  pose proof (calculate_cell_sim fuel row col s s (table_sim_refl s)) as H.
  cbv zeta in H. destruct H as (_ & _ & _ & _ & _ & Hother & Hself).
  destruct (Z.eq_dec (fst k) row) as [Hkr|Hkr];
    [destruct (Z.eq_dec (snd k) col) as [Hkc|Hkc]|].
  - destruct k as [kr kc]. simpl in Hkr, Hkc. subst kr kc.
    destruct Hself as [(-> & _)|(value & error & -> & _)]; reflexivity.
  - destruct (Hother k) as [-> _]; [|reflexivity]. intros ->. now apply Hkc.
  - destruct (Hother k) as [-> _]; [|reflexivity]. intros ->. now apply Hkr.
Qed.

(** The cell at [k] through the loop of the pass. *)
Lemma loop_settles (fuel : nat) (k : Table.key) (c0 : Cell.t) :
  forall (entries : list (Z * Z * Cell.t)) (s : t),
    let c := cell_of (Table.cells (table s)) k in
    Cell.expression c = Cell.expression c0 -> Cell.ast c = Cell.ast c0 ->
    pending c = true ->
    settled c \/ In k (map fst entries) ->
    fst (calculate_loop fuel entries s) = Ok tt ->
    let c' := cell_of (Table.cells (table (snd (calculate_loop fuel entries s)))) k in
    Cell.expression c' = Cell.expression c0 /\ Cell.ast c' = Cell.ast c0 /\ settled c'.
Proof.
  induction entries as [|[[row col] c1] entries IH]; intros s; cbv zeta;
    intros Hexpr Hast Hpending Hdone Hok.
  - destruct Hdone as [Hdone|[]]. cbn [calculate_loop ret snd]. auto.
  - rewrite calculate_loop_cons in *.
    destruct (Z.eq_dec row (fst k)) as [Hrow|Hrow];
      [destruct (Z.eq_dec col (snd k)) as [Hcol|Hcol]|].
    + destruct k as [kr kc]. cbn [fst snd] in Hrow, Hcol. subst kr kc.
      rewrite Hpending in *.
      pose proof (calculate_cell_settles fuel row col s Hpending) as Hstep.
      pose proof (calculate_cell_pending fuel row col s (row, col)) as Hp1.
      destruct (_calculate_cell fuel row col s) as [[[]|e|h] s1]; cbn [fst snd] in *;
        try discriminate.
      destruct (Hstep eq_refl) as (He1 & Ha1 & Hs1).
      apply IH; auto; congruence.
    + assert (Hne : k <> (row, col)) by (intros ->; now apply Hcol).
      assert (Hdone' : settled (cell_of (Table.cells (table s)) k)
                       \/ In k (map fst entries)).
      { destruct Hdone as [H|[H|H]]; auto. cbn [fst] in H. congruence. }
      destruct (pending (cell_of (Table.cells (table s)) (row, col))); [|now apply IH].
      pose proof (calculate_cell_other fuel row col s k Hne) as Hcell.
      destruct (_calculate_cell fuel row col s) as [[[]|e|h] s1]; cbn [fst snd] in *;
        try discriminate.
      apply IH; rewrite ?Hcell; auto.
    + assert (Hne : k <> (row, col)) by (intros ->; now apply Hrow).
      assert (Hdone' : settled (cell_of (Table.cells (table s)) k)
                       \/ In k (map fst entries)).
      { destruct Hdone as [H|[H|H]]; auto. cbn [fst] in H. congruence. }
      destruct (pending (cell_of (Table.cells (table s)) (row, col))); [|now apply IH].
      pose proof (calculate_cell_other fuel row col s k Hne) as Hcell.
      destruct (_calculate_cell fuel row col s) as [[[]|e|h] s1]; cbn [fst snd] in *;
        try discriminate.
      apply IH; rewrite ?Hcell; auto.
Qed.

(** A cell that the pass does not calculate stays as it is, however the
    pass ends. *)
Lemma loop_leaves (fuel : nat) (k : Table.key) :
  forall (entries : list (Z * Z * Cell.t)) (s : t),
    pending (cell_of (Table.cells (table s)) k) = false ->
    cell_of (Table.cells (table (snd (calculate_loop fuel entries s)))) k
    = cell_of (Table.cells (table s)) k.
Proof.
  induction entries as [|[[row col] c1] entries IH]; intros s Hpending; [reflexivity|].
  rewrite calculate_loop_cons.
  destruct (pending (cell_of (Table.cells (table s)) (row, col))) eqn:Hp;
    [|now apply IH].
  assert (Hne : k <> (row, col)) by (intros ->; congruence).
  pose proof (calculate_cell_other fuel row col s k Hne) as Hcell.
  destruct (_calculate_cell fuel row col s) as [[[]|e|h] s1]; cbn [fst snd] in *; auto.
  rewrite IH; [exact Hcell|congruence].
Qed.

(** An evaluation pass that returns leaves every formula that has a tree
    with its text and tree, a value or an error, not both, and not dirty;
    every other cell, a literal, an empty cell or a formula that did not
    parse, it leaves as it was. *)
Theorem pass_settles_formulas (fuel : nat) (self : t) :
  fst (calculate_all fuel self) = Ok tt ->
  forall row col,
    let c := cell_at self row col in
    let c' := cell_at (after (calculate_all fuel) self) row col in
    if pending c
    then Cell.expression c' = Cell.expression c /\ Cell.ast c' = Cell.ast c /\ settled c'
    else c' = c.
Proof.
  intros Hok row col. cbv zeta. unfold after, calculate_all in *.
  change (cell_at self row col) with (cell_of (Table.cells (table self)) (row, col)).
  destruct (pending (cell_of (Table.cells (table self)) (row, col))) eqn:Hpending.
  - apply (loop_settles fuel (row, col)); auto.
    right. apply pending_stored in Hpending as Hlook.
    apply lookup_Some_In in Hlook. unfold Table.get_all_cells. rewrite map_map.
    apply in_map_iff. exists ((row, col), cell_of (Table.cells (table self)) (row, col)).
    split; [reflexivity|]. apply filter_In. split; [exact Hlook|].
    cbn [snd]. now rewrite (pending_not_empty _ Hpending).
  - now apply loop_leaves.
Qed.

Lemma pass_settles_formulas_witness :
  let c' := cell_at (after (calculate_all 2) table_of_three) 0 0 in
  Cell.expression c' = "=B1+1" /\ Cell.ast c' = Cell.ast (cell_at table_of_three 0 0)
  /\ settled c'.
Proof.
  exact (pass_settles_formulas 2 table_of_three eq_refl 0 0).
Defined.

End OutcomeFacts.

(** ** table_service.py: the snapshot of a table *)

Module SnapshotFacts.
Import TableFacts InvariantFacts PassFacts LoadFacts ParserRuns AssignFacts TableService.

Lemma listing_app_empty (d : list (Table.key * Cell.t)) (k : Table.key) :
  map (fun kc => (fst kc, Cell.expression (snd kc)))
    (filter listed (d ++ [(k, Cell.new "")])%list)
  = map (fun kc => (fst kc, Cell.expression (snd kc))) (filter listed d).
Proof. rewrite filter_app. cbn. now rewrite app_nil_r. Qed.

Lemma listing_update (k : Table.key) (f : Cell.t -> Cell.t)
    (d : list (Table.key * Cell.t)) :
  (forall c, Cell.expression (f c) = Cell.expression c) ->
  map (fun kc => (fst kc, Cell.expression (snd kc))) (filter listed (Table.update k f d))
  = map (fun kc => (fst kc, Cell.expression (snd kc))) (filter listed d).
Proof.
  intros Hf. induction d as [|[k0 c] d IH]; [reflexivity|]. cbn [Table.update].
  assert (Hl : listed (k0, f c) = listed (k0, c)).
  { unfold listed. cbn [snd]. now rewrite (is_empty_expression (f c) c (Hf c)). }
  destruct (Table.key_eqb k k0); cbn [filter].
  - rewrite Hl. destruct (listed (k0, c)); cbn [map fst snd]; [|reflexivity].
    now rewrite Hf.
  - destruct (listed (k0, c)); cbn [map fst snd]; now rewrite IH.
Qed.

Lemma listing_ret {A : Type} (a : A) : keeps_listing (ret a).
Proof. intros s. auto. Qed.

Lemma listing_raise {A : Type} (e : exn) : keeps_listing (@raise t A e).
Proof. intros s. auto. Qed.

Lemma listing_halts {A : Type} (h : halt) : keeps_listing (@halts t A h).
Proof. intros s. auto. Qed.

Lemma listing_lift {A : Type} (o : outcome A) : keeps_listing (lift o).
Proof. intros s. auto. Qed.

Lemma listing_bind {A B : Type} (m : S A) (k : A -> S B) :
  keeps_listing m -> (forall a, keeps_listing (k a)) -> keeps_listing (bind m k).
Proof.
  intros Hm Hk s. unfold bind. specialize (Hm s).
  destruct (m s) as [[a|e|h] s1]; cbn [fst snd] in *; auto.
  destruct (Hk a s1) as (H1 & H2 & H3). destruct Hm as (H4 & H5 & H6).
  repeat split; congruence.
Qed.

Lemma listing_try_except {A : Type} (m : S A) (handler : exn -> S A) :
  keeps_listing m -> (forall e, keeps_listing (handler e)) ->
  keeps_listing (try_except m handler).
Proof.
  intros Hm Hh s. unfold try_except. specialize (Hm s).
  destruct (m s) as [[a|e|h] s1]; cbn [fst snd] in *; auto.
  destruct (Hh e s1) as (H1 & H2 & H3). destruct Hm as (H4 & H5 & H6).
  repeat split; congruence.
Qed.

Lemma listing_try_finally {A : Type} (m : S A) (final : S unit) :
  keeps_listing m -> keeps_listing final -> keeps_listing (try_finally m final).
Proof.
  intros Hm Hf s. unfold try_finally. specialize (Hm s).
  destruct (m s) as [r s1]. specialize (Hf s1).
  destruct (final s1) as [[u|e|h] s2]; cbn [fst snd] in *;
    destruct Hm as (H4 & H5 & H6), Hf as (H1 & H2 & H3); repeat split; congruence.
Qed.

Lemma listing_get_cell (row col : Z) : keeps_listing (on_table (Table.get_cell row col)).
Proof.
  intros s. unfold on_table, Table.get_cell, bind, Table._validate_indices.
  destruct (negb ((0 <=? row) && (row <? Table.rows (table s)))); cbn [fst snd table]; auto.
  destruct (negb ((0 <=? col) && (col <? Table.columns (table s)))); cbn [fst snd table]; auto.
  destruct (Table.lookup (row, col) (Table.cells (table s))); cbn [fst snd table]; auto.
  repeat split. unfold listing. cbn [Table.cells]. apply listing_app_empty.
Qed.

Lemma listing_modify (row col : Z) (f : Cell.t -> Cell.t) :
  (forall c, Cell.expression (f c) = Cell.expression c) ->
  keeps_listing (modify row col f).
Proof.
  intros Hf s. unfold modify, on_table, Table.modify. cbn [fst snd table].
  repeat split. unfold listing. cbn [Table.cells]. now apply listing_update.
Qed.

Ltac listing_step :=
  match goal with
  | |- keeps_listing (bind _ _) => apply listing_bind; [|intros ?]
  | |- keeps_listing (try_except _ _) => apply listing_try_except; [|intros ?]
  | |- keeps_listing (try_finally _ _) => apply listing_try_finally
  | |- keeps_listing (ret _) => apply listing_ret
  | |- keeps_listing (raise _) => apply listing_raise
  | |- keeps_listing (halts _) => apply listing_halts
  | |- keeps_listing (lift _) => apply listing_lift
  | |- keeps_listing (modify _ _ _) => apply listing_modify; intros ?; reflexivity
  | |- keeps_listing (on_table (Table.get_cell _ _)) => apply listing_get_cell
  | |- keeps_listing (stack_contains _) => intros ?; auto
  | |- keeps_listing (stack_add _) => intros ?; auto
  | |- keeps_listing (stack_discard _) => intros ?; auto
  | |- keeps_listing stack_clear => intros ?; auto
  | |- keeps_listing (if ?b then _ else _) => destruct b
  | |- keeps_listing (match ?x with _ => _ end) => destruct x
  | |- keeps_listing _ => assumption
  end.

Lemma listing_provider (accept : ASTNode -> S pyval) (reference : CellReference.t) :
  (forall ast, keeps_listing (accept ast)) ->
  keeps_listing (_get_cell_value_for_evaluator accept reference).
Proof.
  intros Hacc. unfold _get_cell_value_for_evaluator, Table.get_cell_by_reference.
  destruct (CellReference.to_indices reference) as [row col].
  apply listing_bind; [apply listing_get_cell|]. intros c.
  repeat match goal with
         | |- keeps_listing (match ?x with _ => _ end) => destruct x
         end; auto using listing_ret, listing_raise.
Qed.

Lemma listing_visit_cell_ref (provider : CellReference.t -> S pyval)
    (reference : CellReference.t) :
  (forall ref, keeps_listing (provider ref)) ->
  keeps_listing (visit_cell_ref provider reference).
Proof. intros Hp. unfold visit_cell_ref. repeat listing_step. apply Hp. Qed.

Lemma listing_visit_unary_op (operator : string) (operand : S pyval) :
  keeps_listing operand -> keeps_listing (visit_unary_op operator operand).
Proof. intros Ho. unfold visit_unary_op. repeat listing_step. Qed.

Lemma listing_visit_binary_op (operator : string) (lhs rhs : S pyval) :
  keeps_listing lhs -> keeps_listing rhs ->
  keeps_listing (visit_binary_op operator lhs rhs).
Proof. intros Hl Hr. unfold visit_binary_op. repeat listing_step. Qed.

Lemma listing_accept (fuel : nat) : forall node, keeps_listing (accept fuel node).
Proof.
  induction fuel as [|fuel IH]; induction node as [v|ref|op operand IHo|op lhs IHl rhs IHr].
  - apply listing_ret.
  - apply listing_visit_cell_ref. intros r. apply listing_halts.
  - now apply listing_visit_unary_op.
  - now apply listing_visit_binary_op.
  - apply listing_ret.
  - apply listing_visit_cell_ref. intros r. now apply listing_provider.
  - now apply listing_visit_unary_op.
  - now apply listing_visit_binary_op.
Qed.

Lemma listing_evaluate (fuel : nat) (ast : ASTNode) (current : option CellReference.t) :
  keeps_listing (evaluate fuel ast current).
Proof. unfold evaluate. repeat listing_step. apply listing_accept. Qed.

Lemma listing_calculate_cell (fuel : nat) (row col : Z) :
  keeps_listing (_calculate_cell fuel row col).
Proof. unfold _calculate_cell. repeat listing_step. apply listing_evaluate. Qed.

Lemma listing_calculate_loop (fuel : nat) (entries : list (Z * Z * Cell.t)) :
  keeps_listing (calculate_loop fuel entries).
Proof.
  induction entries as [|[[row col] c] entries IH]; [apply listing_ret|].
  cbn [calculate_loop]. apply listing_bind; [|intros _; exact IH].
  intros s. destruct (Table.lookup _ _); [|auto].
  destruct (_ && _); [|auto]. apply listing_calculate_cell.
Qed.

Lemma listing_calculate_all (fuel : nat) : keeps_listing (calculate_all fuel).
Proof. intros s. unfold calculate_all. apply listing_calculate_loop. Qed.

Lemma export_listing (s : t) :
  get_table_data_for_export s
  = mkSnapshot (Table.rows (table s)) (Table.columns (table s)) (listing (table s)).
Proof.
  pose proof (export_cells s) as H. unfold get_table_data_for_export in *.
  cbn [snap_cells] in H. now rewrite H.
Qed.

Lemma keeps_listing_export {A : Type} (m : S A) (s : t) :
  keeps_listing m ->
  get_table_data_for_export (snd (m s)) = get_table_data_for_export s.
Proof.
  intros Hm. rewrite !export_listing. destruct (Hm s) as (-> & -> & ->). reflexivity.
Qed.

(** An evaluation pass, however it ends, leaves the snapshot of the table
    as it was: the sizes, and the cells that are not empty, in the same
    order, with the same texts.  The evaluator writes values and errors
    only, and the cells that it creates are empty. *)
Theorem pass_keeps_the_snapshot (fuel : nat) (self : t) :
  get_table_data_for_export (after (calculate_all fuel) self)
  = get_table_data_for_export self.
Proof. apply keeps_listing_export, listing_calculate_all. Qed.

(** *** Loading a snapshot *)

Lemma listing_loaded (cells : list (Z * Z * string)) :
  (forall rce, In rce cells -> Cell.is_empty (Cell.new (snd rce)) = false) ->
  map (fun kc => (fst kc, Cell.expression (snd kc))) (filter listed (loaded cells))
  = cells.
Proof.
  induction cells as [|[k text] cells IH]; intros Hne; [reflexivity|].
  unfold loaded in *. cbn [map filter fst snd]. unfold listed at 1. cbn [snd].
  rewrite (is_empty_expression (assigned_cell text) (Cell.new text)
             (assigned_cell_expression text)).
  pose proof (Hne (k, text) (or_introl eq_refl)) as H0. cbn [snd] in H0. rewrite H0.
  cbn [negb map fst snd].
  rewrite assigned_cell_expression, IH; [reflexivity|].
  intros rce H. apply Hne. now right.
Qed.

Lemma load_loop_valid (R C : Z) (st : list string) (cells : list (Z * Z * string)) :
  NoDup (map fst cells) ->
  (forall row col text, In (row, col, text) cells ->
     0 <= row < R /\ 0 <= col < C /\ Cell.is_empty (Cell.new text) = false) ->
  load_loop cells (mk (Table.mk R C nil) st)
  = (Ok tt, mk (Table.mk R C (loaded cells)) st).
Proof.
  intros Hnd Hin.
  rewrite (load_loop_spec R C st cells nil); [reflexivity| |exact Hnd|reflexivity].
  intros [[row col] text] H. destruct (Hin row col text H) as (Hr & Hc & Hne).
  cbn [fst snd]. split; [now apply in_bounds_test|].
  split; [now apply in_bounds_test|]. split; [exact Hne|]. intros h Hh.
  destruct (parse_returns (Cell.get_formula_expression (Cell.new text)))
    as [(ast & Hast)|(m & p & Hs)]; congruence.
Qed.

Lemma load_valid (fuel : nat) (data : snapshot) (self : t) :
  valid_snapshot data ->
  load_table_data fuel data self
  = calculate_all fuel
      (mk (Table.mk (snap_rows data) (snap_columns data) (loaded (snap_cells data)))
         (_evaluation_stack self)).
Proof.
  intros (Hrows & Hcols & Hnd & Hin). unfold load_table_data.
  assert (Hcreate : create_table (snap_rows data) (snap_columns data) self
                    = (Ok tt, mk (Table.mk (snap_rows data) (snap_columns data) nil)
                                 (_evaluation_stack self))).
  { unfold create_table, Table.new.
    destruct (Z.ltb_spec (snap_rows data) 1); [lia|].
    destruct (Z.ltb_spec (snap_columns data) 1); [lia|]. reflexivity. }
  rewrite (bind_ok _ _ _ _ _ Hcreate).
  now rewrite (bind_ok _ _ _ _ _ (load_loop_valid _ _ _ _ Hnd Hin)).
Qed.

Lemma load_then_export (fuel : nat) (data : snapshot) (self : t) :
  valid_snapshot data ->
  get_table_data_for_export (after (load_table_data fuel data) self) = data.
Proof.
  intros Hvalid. unfold after. rewrite (load_valid fuel data self Hvalid).
  rewrite (keeps_listing_export _ _ (listing_calculate_all fuel)).
  rewrite export_listing. unfold listing. cbn [table Table.rows Table.columns Table.cells].
  rewrite listing_loaded; [now destruct data|].
  intros [[row col] text] H. destruct Hvalid as (_ & _ & _ & Hin).
  now destruct (Hin row col text H) as (_ & _ & Hne).
Qed.

Lemma export_valid (self : t) :
  well_formed (table self) -> valid_snapshot (get_table_data_for_export self).
Proof.
  intros (Hr & Hc & Hnd & Hin). rewrite export_listing. unfold valid_snapshot, listing.
  cbn [snap_rows snap_columns snap_cells].
  split; [exact Hr|]. split; [exact Hc|]. split.
  - rewrite map_map. cbn [fst]. now apply NoDup_positions_filter.
  - intros row col text H. apply in_map_iff in H as ([[r c0] c] & Heq & H).
    cbn [fst snd] in Heq. injection Heq as -> -> <-.
    apply filter_In in H as [H Hl]. destruct (Hin _ _ H) as [H1 H2].
    cbn [fst snd] in H1, H2. split; [exact H1|]. split; [exact H2|].
    unfold listed in Hl. cbn [snd] in Hl. apply negb_true_iff in Hl.
    rewrite <- Hl. now apply is_empty_expression.
Qed.

(** Loading a snapshot that has sizes of one at least, one cell for a
    position, every position within the sizes and no blank text, and
    exporting the table again, gives the snapshot back, whatever the table
    held before and however the evaluation pass of the load ends. *)
Theorem load_then_export_is_identity (fuel : nat) (data : snapshot) (self : t) :
  valid_snapshot data ->
  get_table_data_for_export (after (load_table_data fuel data) self) = data.
Proof. apply load_then_export. Qed.

Lemma load_then_export_is_identity_witness :
  let data := mkSnapshot 3 3 [(0, 0, "=B1+1"); (2, 2, "x"); (0, 1, "=1/")] in
  get_table_data_for_export (after (load_table_data 1 data) table_of_three) = data.
Proof.
  apply (load_then_export_is_identity 1
           (mkSnapshot 3 3 [(0, 0, "=B1+1"); (2, 2, "x"); (0, 1, "=1/")]) table_of_three).
  split; [vm_compute; discriminate|]. split; [vm_compute; discriminate|]. split.
  - vm_compute. repeat constructor; simpl; intuition discriminate.
  - intros row col text H. vm_compute in H.
    destruct H as [H|[H|[H|[]]]]; injection H as <- <- <-; vm_compute;
      repeat split; try discriminate; reflexivity.
Defined.

(** The snapshot of a table that keeps its invariant lists the cells that
    are not empty, each once, at its position within the sizes and with
    its text; and loading it into any table and exporting again gives the
    same snapshot. *)
Theorem export_lists_the_cells (self : t) :
  well_formed (table self) ->
  valid_snapshot (get_table_data_for_export self)
  /\ (forall row col text,
        In (row, col, text) (snap_cells (get_table_data_for_export self))
        <-> Cell.is_empty (cell_at self row col) = false
            /\ Cell.expression (cell_at self row col) = text)
  /\ (forall fuel other,
        get_table_data_for_export
          (after (load_table_data fuel (get_table_data_for_export self)) other)
        = get_table_data_for_export self).
Proof.
  intros Hwf. split; [now apply export_valid|]. split.
  - intros row col text. rewrite export_cells. unfold cell_at.
    destruct Hwf as (_ & _ & Hnd & _). split.
    + intros H. apply in_map_iff in H as ([[r c0] c] & Heq & H).
      cbn [fst snd] in Heq. injection Heq as -> -> <-.
      apply filter_In in H as [H Hl].
      rewrite (lookup_In (row, col) c _ Hnd H). unfold listed in Hl. cbn [snd] in Hl.
      apply negb_true_iff in Hl. auto.
    + intros [Hne <-].
      destruct (Table.lookup (row, col) (Table.cells (table self))) as [c|] eqn:E;
        [|discriminate].
      apply in_map_iff. exists ((row, col), c). split; [reflexivity|].
      apply filter_In. split; [now apply lookup_Some_In|].
      unfold listed. cbn [snd]. now rewrite Hne.
  - intros fuel other. apply load_then_export. now apply export_valid.
Qed.

Lemma export_lists_the_cells_witness :
  snap_cells (get_table_data_for_export table_of_three)
  = [(0, 0, "=B1+1"); (0, 1, "4"); (0, 2, "=1/")]
  /\ valid_snapshot (get_table_data_for_export table_of_three).
Proof.
  split; [vm_compute; reflexivity|].
  refine (proj1 (export_lists_the_cells table_of_three _)).
  split; [|split; [|split]].
  - vm_compute. discriminate.
  - vm_compute. discriminate.
  - vm_compute. repeat constructor; simpl; intuition discriminate.
  - intros k c Hin. vm_compute in Hin.
    destruct Hin as [H|[H|[H|[]]]]; injection H as <- <-; vm_compute;
      repeat split; discriminate.
Defined.

(** *** A load that fails *)

Lemma load_loop_app (a b : list (Z * Z * string)) (s : t) :
  load_loop (a ++ b)%list s
  = match load_loop a s with
    | (Ok _, s1) => load_loop b s1
    | (Raise e, s1) => (Raise e, s1)
    | (Halt h, s1) => (Halt h, s1)
    end.
Proof.
  revert s. induction a as [|[[row col] text] a IH]; intros s; [reflexivity|].
  cbn [app load_loop]. unfold bind.
  destruct (set_cell_expression row col text s) as [[r|e|h] s1]; auto.
Qed.

(** [load_table_data] is not atomic.  With a size below one it raises
    ValueError and the service keeps its table.  With sizes of one at least
    and a cell outside them it raises IndexError after it has replaced the
    table: the service is left with a table of the new sizes that holds the
    cells listed before that cell, and no pass has been run. *)
Theorem load_failure (fuel : nat) (data : snapshot) (self : t) :
  (snap_rows data < 1 \/ snap_columns data < 1 ->
   load_table_data fuel data self
   = (Raise (ValueError "Кількість рядків та стовпчиків має бути >= 1"), self))
  /\ (forall loaded_cells row col text rest,
        snap_cells data = (loaded_cells ++ (row, col, text) :: rest)%list ->
        valid_snapshot (mkSnapshot (snap_rows data) (snap_columns data) loaded_cells) ->
        ~ (0 <= row < snap_rows data /\ 0 <= col < snap_columns data) ->
        exists message,
          fst (load_table_data fuel data self) = Raise (IndexError message)
          /\ get_table_data_for_export (after (load_table_data fuel data) self)
             = mkSnapshot (snap_rows data) (snap_columns data) loaded_cells
          /\ forall row' col',
               Cell.cached_value (cell_at (after (load_table_data fuel data) self) row' col')
               = None).
Proof.
  split.
  - intros Hsize. unfold load_table_data, bind, create_table, Table.new.
    assert ((snap_rows data <? 1) || (snap_columns data <? 1) = true) as ->.
    { apply orb_true_iff. rewrite !Z.ltb_lt. exact Hsize. }
    reflexivity.
  - intros good row col text rest Hcells (Hrows & Hcols & Hnd & Hin) Hout.
    cbn [snap_rows snap_columns snap_cells] in *.
    assert (Hcreate : create_table (snap_rows data) (snap_columns data) self
                      = (Ok tt, mk (Table.mk (snap_rows data) (snap_columns data) nil)
                                   (_evaluation_stack self))).
    { unfold create_table, Table.new.
      destruct (Z.ltb_spec (snap_rows data) 1); [lia|].
      destruct (Z.ltb_spec (snap_columns data) 1); [lia|]. reflexivity. }
    destruct (set_cell_expression_outside row col text
                (mk (Table.mk (snap_rows data) (snap_columns data) (loaded good))
                   (_evaluation_stack self)) Hout) as [message Hset].
    assert (Hload : load_table_data fuel data self
                    = (Raise (IndexError message),
                       mk (Table.mk (snap_rows data) (snap_columns data) (loaded good))
                          (_evaluation_stack self))).
    { unfold load_table_data. rewrite (bind_ok _ _ _ _ _ Hcreate).
      cbv beta. unfold bind. rewrite Hcells, load_loop_app.
      rewrite (load_loop_valid _ _ _ _ Hnd Hin). cbn [load_loop]. unfold bind.
      now rewrite Hset. }
    exists message. unfold after. rewrite Hload. cbn [fst snd].
    split; [reflexivity|]. split.
    + rewrite export_listing. unfold listing.
      cbn [table Table.rows Table.columns Table.cells].
      rewrite listing_loaded; [reflexivity|].
      intros [[r c] e] H. now destruct (Hin r c e H) as (_ & _ & Hne).
    + intros row' col'. unfold cell_at. cbn [table Table.cells].
      destruct (Table.lookup (row', col') (loaded good)) as [c|] eqn:E; [|reflexivity].
      apply lookup_Some_In in E. unfold loaded in E.
      apply in_map_iff in E as (rce & [= _ <-] & _). apply assigned_cell_cached.
Qed.

Lemma load_failure_witness :
  exists message,
    fst (load_table_data 1 (mkSnapshot 2 2 [(0, 0, "5"); (5, 0, "7"); (1, 1, "=A1")])
           table_of_three)
    = Raise (IndexError message)
    /\ get_table_data_for_export
         (after (load_table_data 1 (mkSnapshot 2 2 [(0, 0, "5"); (5, 0, "7"); (1, 1, "=A1")]))
            table_of_three)
       = mkSnapshot 2 2 [(0, 0, "5")]
    /\ forall row' col',
         Cell.cached_value
           (cell_at (after (load_table_data 1
                              (mkSnapshot 2 2 [(0, 0, "5"); (5, 0, "7"); (1, 1, "=A1")]))
                       table_of_three) row' col')
         = None.
Proof.
  apply (proj2 (load_failure 1 (mkSnapshot 2 2 [(0, 0, "5"); (5, 0, "7"); (1, 1, "=A1")])
                  table_of_three) [(0, 0, "5")] 5 0 "7" [(1, 1, "=A1")] eq_refl).
  - split; [vm_compute; discriminate|]. split; [vm_compute; discriminate|]. split.
    + vm_compute. repeat constructor; simpl; intuition discriminate.
    + intros row col text H. vm_compute in H.
      destruct H as [H|[]]; injection H as <- <- <-; vm_compute;
        repeat split; try discriminate; reflexivity.
  - vm_compute. intros [[_ H] _]. discriminate H.
Defined.

End SnapshotFacts.

(** ** table.py: writing, reading and clearing a cell *)

Module StoreFacts.
Import TableFacts AssignFacts Table.

Lemma validate_inside (row col : Z) (self : t) :
  0 <= row < rows self -> 0 <= col < columns self ->
  _validate_indices row col self = (Ok tt, self).
Proof.
  intros Hr Hc. unfold _validate_indices.
  now rewrite (proj2 (in_bounds_test row (rows self)) Hr),
              (proj2 (in_bounds_test col (columns self)) Hc).
Qed.

Lemma validate_outside (row col : Z) (self : t) :
  ~ (0 <= row < rows self /\ 0 <= col < columns self) ->
  exists message, _validate_indices row col self = (Raise (IndexError message), self).
Proof.
  intros Hout. unfold _validate_indices.
  destruct ((0 <=? row) && (row <? rows self)) eqn:Er; cbn [negb]; [|eauto].
  destruct ((0 <=? col) && (col <? columns self)) eqn:Ec; cbn [negb]; [|eauto].
  apply in_bounds_test in Er, Ec. tauto.
Qed.

Lemma get_cell_stored (row col : Z) (c : Cell.t) (self : t) :
  0 <= row < rows self -> 0 <= col < columns self ->
  lookup (row, col) (cells self) = Some c ->
  get_cell row col self = (Ok c, self).
Proof.
  intros Hr Hc Hl. unfold get_cell, bind. rewrite (validate_inside row col self Hr Hc).
  now rewrite Hl.
Qed.

Lemma write_spec (row col : Z) (text : string) (self : t) :
  0 <= row < rows self -> 0 <= col < columns self ->
  exists d,
    set_cell_expression row col text self = (Ok tt, mk (rows self) (columns self) d)
    /\ lookup (row, col) d
       = Some (Cell.set_expression text (cell_of (cells self) (row, col)))
    /\ forall k, k <> (row, col) -> cell_of d k = cell_of (cells self) k.
Proof.
  intros Hr Hc. unfold set_cell_expression, get_cell, bind.
  rewrite (validate_inside row col self Hr Hc). unfold cell_of.
  destruct (lookup (row, col) (cells self)) as [c|] eqn:E; unfold modify;
    cbn [rows columns cells]; eexists; (split; [reflexivity|]); split.
  - now rewrite lookup_update, key_eqb_refl, E.
  - intros k Hk. now rewrite lookup_update, (key_eqb_neq _ _ Hk).
  - now rewrite lookup_update, key_eqb_refl, lookup_app, E; cbn; rewrite key_eqb_refl.
  - intros k Hk. rewrite lookup_update, (key_eqb_neq _ _ Hk), lookup_app.
    destruct (lookup k (cells self)); [reflexivity|]. cbn. now rewrite (key_eqb_neq _ _ Hk).
Qed.

(** Writing a text at a position of the table with [set_cell_expression]
    and reading the position with [get_cell] gives the cell that was there,
    or a new one, with the text assigned, and the read changes nothing;
    [clear_cell] then puts a new empty cell there.  Neither call touches
    another position or the sizes.  Outside the table the three calls raise
    IndexError and leave the table as it was. *)
Theorem write_read_clear (row col : Z) (text : string) (table : t) :
  (0 <= row < rows table -> 0 <= col < columns table ->
   let written := snd (set_cell_expression row col text table) in
   let cleared := snd (clear_cell row col written) in
   fst (set_cell_expression row col text table) = Ok tt
   /\ get_cell row col written
      = (Ok (Cell.set_expression text (cell_of (cells table) (row, col))), written)
   /\ fst (clear_cell row col written) = Ok tt
   /\ get_cell row col cleared = (Ok (Cell.new ""), cleared)
   /\ rows cleared = rows table /\ columns cleared = columns table
   /\ rows written = rows table /\ columns written = columns table
   /\ forall k, k <> (row, col) ->
        cell_of (cells written) k = cell_of (cells table) k
        /\ cell_of (cells cleared) k = cell_of (cells table) k)
  /\ (~ (0 <= row < rows table /\ 0 <= col < columns table) ->
      exists message,
        set_cell_expression row col text table = (Raise (IndexError message), table)
        /\ get_cell row col table = (Raise (IndexError message), table)
        /\ clear_cell row col table = (Raise (IndexError message), table)).
Proof.
  split.
  - intros Hr Hc. destruct (write_spec row col text table Hr Hc) as (d & Hw & Hl & Ho).
    cbv zeta. rewrite Hw. cbn [fst snd].
    set (written := mk (rows table) (columns table) d).
    assert (Hclear : clear_cell row col written
                     = (Ok tt, mk (rows table) (columns table)
                                  (update (row, col) (fun _ => Cell.new "") d))).
    { unfold clear_cell, bind. now rewrite (validate_inside row col written Hr Hc). }
    rewrite Hclear. cbn [fst snd rows columns cells].
    split; [reflexivity|]. split; [now apply get_cell_stored|].
    split; [reflexivity|]. split.
    { apply get_cell_stored; [exact Hr|exact Hc|]. cbn [cells].
      now rewrite lookup_update, key_eqb_refl, Hl. }
    repeat (split; [reflexivity|]). intros k Hk. split; [now apply Ho|].
    rewrite cell_of_update, (key_eqb_neq _ _ Hk). now apply Ho.
  - intros Hout. destruct (validate_outside row col table Hout) as [message Hv].
    exists message. unfold set_cell_expression, get_cell, clear_cell, bind.
    now rewrite Hv.
Qed.

Lemma write_read_clear_witness :
  get_cell 0 1 (snd (set_cell_expression 0 1 "=A1" (mk 2 2 nil)))
  = (Ok (Cell.set_expression "=A1" (cell_of nil (0, 1))),
     snd (set_cell_expression 0 1 "=A1" (mk 2 2 nil))).
Proof.
  pose proof (proj1 (write_read_clear 0 1 "=A1" (mk 2 2 nil))
                ltac:(vm_compute; split; [discriminate|reflexivity])
                ltac:(vm_compute; split; [discriminate|reflexivity])) as H.
  cbv zeta in H. exact (proj1 (proj2 H)).
Defined.

End StoreFacts.

(** ** expression_evaluator.py: integers without division *)

Module ExactFacts.
Import TableFacts FuelFacts TableService.

Lemma integer_ret {A : Type} (Q : A -> Prop) (a : A) : Q a -> integer_call Q (ret a).
Proof. intros Ha s Hs. auto. Qed.

Lemma integer_raise {A : Type} (Q : A -> Prop) (e : exn) : integer_call Q (raise e).
Proof. intros s Hs. split; [exact Hs|exact I]. Qed.

Lemma integer_lift {A : Type} (Q : A -> Prop) (o : outcome A) :
  match o with Ok a => Q a | Raise _ => True | Halt h => h = OutOfFuel end ->
  integer_call Q (lift o).
Proof. intros Ho s Hs. unfold lift. destruct o; auto. Qed.

Lemma integer_bind {A B : Type} (P : A -> Prop) (Q : B -> Prop) (m : S A) (k : A -> S B) :
  integer_call P m -> (forall a, P a -> integer_call Q (k a)) -> integer_call Q (bind m k).
Proof.
  intros Hm Hk s Hs. unfold bind. destruct (Hm s Hs) as [Hs1 Hr].
  destruct (m s) as [[a|e|h] s1]; cbn [fst snd] in *; auto.
  now apply Hk.
Qed.

Lemma integer_try_except {A : Type} (Q : A -> Prop) (m : S A) (handler : exn -> S A) :
  integer_call Q m -> (forall e, integer_call Q (handler e)) -> integer_call Q (try_except m handler).
Proof.
  intros Hm Hh s Hs. unfold try_except. destruct (Hm s Hs) as [Hs1 Hr].
  destruct (m s) as [[a|e|h] s1]; cbn [fst snd] in *; auto.
  now apply Hh.
Qed.

Lemma integer_try_finally {A : Type} (Q : A -> Prop) (m : S A) (final : S unit) :
  integer_call Q m -> integer_call (fun _ => True) final -> integer_call Q (try_finally m final).
Proof.
  intros Hm Hf s Hs. unfold try_finally. destruct (Hm s Hs) as [Hs1 Hr].
  destruct (m s) as [r s1]. cbn [fst snd] in *. destruct (Hf s1 Hs1) as [Hs2 Hr2].
  destruct (final s1) as [[u|e|h] s2]; cbn [fst snd] in *; auto.
Qed.

Lemma integer_weaken {A : Type} (P Q : A -> Prop) (m : S A) :
  (forall a, P a -> Q a) -> integer_call P m -> integer_call Q m.
Proof.
  intros HPQ Hm s Hs. destruct (Hm s Hs) as [Hs1 Hr]. split; [exact Hs1|].
  destruct (fst (m s)); auto.
Qed.

Lemma integer_stack {A : Type} (Q : A -> Prop) (m : S A) :
  (forall s, table (snd (m s)) = table s
             /\ match fst (m s) with Ok a => Q a | _ => False end) ->
  integer_call Q m.
Proof.
  intros Hm s Hs. destruct (Hm s) as [Ht Hr]. split.
  - intros row col. unfold cell_at. rewrite Ht. apply Hs.
  - destruct (fst (m s)); tauto.
Qed.

Lemma integral_new : integral (Cell.new "").
Proof. split; intros x H; discriminate H. Qed.

Lemma integer_get_cell (row col : Z) : integer_call integral (on_table (Table.get_cell row col)).
Proof.
  intros s Hs. unfold on_table, Table.get_cell, bind, Table._validate_indices.
  destruct (negb ((0 <=? row) && (row <? Table.rows (table s)))); cbn [fst snd]; auto.
  destruct (negb ((0 <=? col) && (col <? Table.columns (table s)))); cbn [fst snd]; auto.
  destruct (Table.lookup (row, col) (Table.cells (table s))) as [c|] eqn:E; cbn [fst snd].
  - split; [destruct s; exact Hs|]. specialize (Hs row col). unfold cell_at in Hs.
    now rewrite E in Hs.
  - split; [|apply integral_new]. intros r c. unfold cell_at. cbn [table Table.cells].
    rewrite lookup_app. specialize (Hs r c). unfold cell_at in Hs.
    destruct (Table.lookup (r, c) (Table.cells (table s))); [exact Hs|].
    cbn. destruct (Table.key_eqb (r, c) (row, col)); apply integral_new.
Qed.

Lemma integer_modify (row col : Z) (f : Cell.t -> Cell.t) :
  (forall c, integral c -> integral (f c)) ->
  integer_call (fun _ => True) (modify row col f).
Proof.
  intros Hf s Hs. split; [|exact I]. intros r c.
  unfold modify, on_table, Table.modify, cell_at. cbn [snd table Table.cells].
  rewrite lookup_update. specialize (Hs r c). unfold cell_at in Hs.
  destruct (Table.key_eqb (r, c) (row, col)) eqn:E; [|exact Hs].
  apply key_eqb_eq in E. injection E as -> ->.
  destruct (Table.lookup (row, col) (Table.cells (table s))); cbn [option_map];
    [now apply Hf|apply integral_new].
Qed.

Lemma is_int_elim (v : pyval) : is_int v = true -> exists z, v = PyInt z.
Proof. destruct v; [eauto|discriminate]. Qed.

Lemma integer_provider (accept : ASTNode -> S pyval) (reference : CellReference.t) :
  (forall ast, without_division ast = true -> integer_call int_value (accept ast)) ->
  integer_call int_value (_get_cell_value_for_evaluator accept reference).
Proof.
  intros Hacc. unfold _get_cell_value_for_evaluator, Table.get_cell_by_reference.
  destruct (CellReference.to_indices reference) as [row col].
  apply (integer_bind integral); [apply integer_get_cell|]. intros c [Hast _].
  destruct (Cell.error c); [apply integer_raise|].
  destruct (Cell.is_empty c); [now apply integer_ret|].
  destruct (Cell.is_literal c).
  { destruct (PyInt.int _); [now apply integer_ret|apply integer_raise]. }
  destruct (Cell.is_formula c); [|apply integer_raise].
  destruct (Cell.ast c) as [ast|]; [|apply integer_raise].
  apply Hacc. now apply Hast.
Qed.

Lemma integer_visit_cell_ref (provider : CellReference.t -> S pyval)
    (reference : CellReference.t) :
  (forall ref, integer_call int_value (provider ref)) ->
  integer_call int_value (visit_cell_ref provider reference).
Proof.
  intros Hp. unfold visit_cell_ref.
  apply (integer_bind (fun _ => True)); [apply integer_stack; intros s; now destruct s|].
  intros seen _. destruct seen; [apply integer_raise|].
  apply (integer_bind (fun _ => True)).
  { apply integer_stack. intros s. unfold stack_add.
    destruct (existsb _ _); cbn; auto. }
  intros _ _. apply integer_try_finally.
  - apply integer_try_except; [apply Hp|intros e; apply integer_raise].
  - apply integer_stack. intros s. now destruct s.
Qed.

Lemma integer_visit_unary_op (operator : string) (operand : S pyval) :
  integer_call int_value operand -> integer_call int_value (visit_unary_op operator operand).
Proof.
  intros Ho. unfold visit_unary_op. apply (integer_bind int_value); [exact Ho|].
  intros v Hv. apply is_int_elim in Hv as [z ->].
  repeat match goal with
         | |- integer_call _ (if ?b then _ else _) => destruct b
         end; try apply integer_raise; now apply integer_ret.
Qed.

Lemma pow_int (x y : Z) :
  PyNum.lt (PyInt y) (PyInt 0) = false ->
  PyNum.pow (PyInt x) (PyInt y) = Ok (PyInt (x ^ y)).
Proof.
  unfold PyNum.lt, PyNum.compare, PyNum.pow. destruct (Z.leb_spec 0 y); [reflexivity|].
  destruct (Z.compare_spec y 0); try lia.
Qed.

Lemma integer_visit_binary_op (operator : string) (lhs rhs : S pyval) :
  String.eqb operator "/" = false ->
  integer_call int_value lhs -> integer_call int_value rhs ->
  integer_call int_value (visit_binary_op operator lhs rhs).
Proof.
  intros Hop Hl Hr. unfold visit_binary_op. rewrite Hop.
  repeat match goal with
         | |- integer_call _ (if String.eqb operator ?o then _ else _) =>
             destruct (String.eqb operator o)
         end;
    try apply integer_raise;
    (apply (integer_bind int_value); [exact Hl|]); intros l Hlv;
    apply is_int_elim in Hlv as [x ->].
  1-3, 5-7: apply (integer_bind int_value); [exact Hr|]; intros r Hrv;
    apply is_int_elim in Hrv as [y ->]; try (now apply integer_lift);
    now apply integer_ret.
  - apply (integer_bind int_value); [exact Hr|]. intros r Hrv.
    apply is_int_elim in Hrv as [y ->].
    destruct (PyNum.lt (PyInt y) (PyInt 0)) eqn:E; [apply integer_raise|].
    apply integer_lift. now rewrite (pow_int x y E).
  - destruct (PyNum.eq (PyInt x) (PyInt 0)); [now apply integer_ret|].
    apply (integer_bind int_value); [exact Hr|]. intros r _. now apply integer_ret.
  - destruct (negb (PyNum.eq (PyInt x) (PyInt 0))); [now apply integer_ret|].
    apply (integer_bind int_value); [exact Hr|]. intros r _. now apply integer_ret.
Qed.

Lemma integer_accept (fuel : nat) :
  forall node, without_division node = true -> integer_call int_value (accept fuel node).
Proof.
  induction fuel as [|fuel IH];
    induction node as [v|ref|op operand IHo|op lhs IHl rhs IHr]; cbn [without_division];
    intros Hnode.
  - now apply integer_ret.
  - apply integer_visit_cell_ref. intros r s Hs. split; [exact Hs|reflexivity].
  - apply integer_visit_unary_op. now apply IHo.
  - apply andb_true_iff in Hnode as [Hnode Hr]. apply andb_true_iff in Hnode as [Hop Hl].
    apply negb_true_iff in Hop. apply integer_visit_binary_op; auto.
  - now apply integer_ret.
  - apply integer_visit_cell_ref. intros r. now apply integer_provider.
  - apply integer_visit_unary_op. now apply IHo.
  - apply andb_true_iff in Hnode as [Hnode Hr]. apply andb_true_iff in Hnode as [Hop Hl].
    apply negb_true_iff in Hop. apply integer_visit_binary_op; auto.
Qed.

Lemma integer_evaluate (fuel : nat) (ast : ASTNode) (current : option CellReference.t) :
  without_division ast = true -> integer_call int_value (evaluate fuel ast current).
Proof.
  intros Hast. unfold evaluate.
  apply (integer_bind (fun _ => True)); [apply integer_stack; intros s; now destruct s|].
  intros _ _. apply (integer_bind (fun _ => True)).
  { destruct current; apply integer_stack; intros s; unfold stack_add;
      [destruct (existsb _ _)|]; cbn; auto. }
  intros _ _. apply integer_try_except; [now apply integer_accept|].
  intros e. destruct (_ || _); apply integer_raise.
Qed.

Lemma integral_set_cached_value (v : option pyval) (c : Cell.t) :
  match v with Some x => is_int x = true | None => True end ->
  integral c -> integral (Cell.set_cached_value v c).
Proof.
  intros Hv [Hast _]. split; [exact Hast|]. cbn. intros x ->. exact Hv.
Qed.

Lemma integral_set_error (e : option string) (c : Cell.t) :
  integral c -> integral (Cell.set_error e c).
Proof. intros H. exact H. Qed.

Lemma integer_calculate_cell (fuel : nat) (row col : Z) :
  integer_call (fun _ => True) (_calculate_cell fuel row col).
Proof.
  unfold _calculate_cell. apply (integer_bind integral); [apply integer_get_cell|].
  intros c [Hast _]. destruct (Cell.ast c) as [ast|]; [|now apply integer_ret].
  destruct (Cell.is_empty c); [now apply integer_ret|].
  apply integer_try_except.
  - apply (integer_bind (fun _ => True)).
    { apply integer_lift. pose proof (from_indices_returns row col) as H.
      destruct (CellReference.from_indices row col) as [r|e|h]; auto.
      now destruct (H h). }
    intros ref _. apply (integer_bind int_value); [apply integer_evaluate; now apply Hast|].
    intros v Hv. apply (integer_bind (fun _ => True)).
    + apply integer_modify. intros c0. now apply integral_set_cached_value.
    + intros _ _. apply integer_modify. intros c0. apply integral_set_error.
  - intros e. apply (integer_bind (fun _ => True)).
    + apply integer_modify. intros c0. apply integral_set_error.
    + intros _ _. apply integer_modify. intros c0. now apply integral_set_cached_value.
Qed.

Lemma integer_calculate_loop (fuel : nat) (entries : list (Z * Z * Cell.t)) :
  integer_call (fun _ => True) (calculate_loop fuel entries).
Proof.
  induction entries as [|[[row col] c] entries IH]; [now apply integer_ret|].
  cbn [calculate_loop]. apply (integer_bind (fun _ => True)); [|intros _ _; exact IH].
  intros s Hs. destruct (Table.lookup _ _); [|now split].
  destruct (_ && _); [|now split]. now apply integer_calculate_cell.
Qed.

(** A table without division is calculated in integers.  When no tree of
    the table has a division and the values the cells hold are [int], a
    tree without division evaluates to an [int], raises, or lacks fuel;
    an evaluation pass leaves such a table as one; and with fuel for the
    references of the table the pass returns: no [float] is met. *)
Theorem integers_without_division (self : t) :
  integral_table self ->
  (forall fuel ast current,
     without_division ast = true ->
     match fst (evaluate fuel ast current self) with
     | Ok v => exists z, v = PyInt z
     | Raise _ => True
     | Halt h => h = OutOfFuel
     end)
  /\ (forall fuel, integral_table (after (calculate_all fuel) self))
  /\ (forall fuel,
        well_formed (table self) ->
        (List.length (table_references (Table.cells (table self))) <= fuel)%nat ->
        fst (calculate_all fuel self) = Ok tt).
Proof.
  intros Hs. split; [|split].
  - intros fuel ast current Hast.
    destruct (integer_evaluate fuel ast current Hast self Hs) as [_ H].
    destruct (fst (evaluate fuel ast current self)); auto. now apply is_int_elim.
  - intros fuel. unfold after, calculate_all.
    apply (integer_calculate_loop fuel _ self Hs).
  - intros fuel Hwf Hfuel.
    destruct (calculate_all_ends fuel self Hwf Hfuel) as [H|H]; [exact H|].
    pose proof (proj2 (integer_calculate_loop fuel (Table.get_all_cells (table self))
                         self Hs)) as Hh.
    unfold calculate_all in H. rewrite H in Hh. discriminate Hh.
Qed.

Lemma integers_without_division_witness :
  fst (evaluate 1 (BinaryOpNode "^" (CellRefNode (CellReference.mk "B" 1)) (NumberNode 2))
         None (after (set_cell_expression 0 1 "4") new))
  = Ok (PyInt 16)
  /\ exists z,
       fst (evaluate 1
              (BinaryOpNode "^" (CellRefNode (CellReference.mk "B" 1)) (NumberNode 2))
              None (after (set_cell_expression 0 1 "4") new))
       = Ok (PyInt z).
Proof.
  split; [vm_compute; reflexivity|].
  assert (H : integral_table (after (set_cell_expression 0 1 "4") new)).
  { intros row col. unfold cell_at.
    change (Table.cells (table (after (set_cell_expression 0 1 "4") new)))
      with [((0, 1), Cell.mk "4" None None None false)].
    cbn [Table.lookup]. destruct (Table.key_eqb (row, col) (0, 1)); split; intros x Hx;
      discriminate Hx. }
  pose proof (proj1 (integers_without_division (after (set_cell_expression 0 1 "4") new) H)
                1%nat (BinaryOpNode "^" (CellRefNode (CellReference.mk "B" 1)) (NumberNode 2))
                None eq_refl) as Hv.
  destruct (fst (evaluate 1
              (BinaryOpNode "^" (CellRefNode (CellReference.mk "B" 1)) (NumberNode 2))
              None (after (set_cell_expression 0 1 "4") new))) as [v|e|h] eqn:E.
  - destruct Hv as [z ->]. now exists z.
  - vm_compute in E. discriminate E.
  - vm_compute in E. discriminate E.
Defined.

End ExactFacts.
